(** * The chunking engine of partition-api-v2: [src/chunker.py]

    A shallow embedding of [parse_markdown] and [chunk_documents] and of the
    objects they manipulate, followed by the properties of the chunk stream
    (numbering, ordering, page propagation, batching, code fallback).

    The functions of the [chonkie] package (the markdown chef and the three
    chunkers) are not part of the repository.  They appear here as the
    fields of the class [Chonkie]; every definition and theorem about the
    repository's code is stated for an arbitrary instance of it.  A small
    instance, [Sample.lib], is used to run the definitions on concrete
    documents. *)

From Stdlib Require Import ZArith String Ascii List Lia DecimalString DecimalZ
  DecimalPos.
From stdpp Require Import base list list_numbers sorting.

Local Open Scope string_scope.
Local Open Scope list_scope.
Local Open Scope Z_scope.

(** ** Exceptions and results *)

(** The subclasses of [Exception] that the code can meet.  [LibraryError] is
    an exception raised inside a [chonkie] function. *)
Inductive exn : Type :=
  | AttributeError (what : string)
  | ZeroDivisionError
  | LibraryError (origin msg : string).

(** A call either returns a value or raises. *)
Inductive res (A : Type) : Type :=
  | Ok (a : A)
  | Raise (e : exn).
Arguments Ok {A} a.
Arguments Raise {A} e.

#[global] Instance res_ret : MRet res := fun A a => Ok a.
#[global] Instance res_bind : MBind res := fun A B f m =>
  match m with
  | Ok a => f a
  | Raise e => Raise e
  end.

(** ** The objects of [chonkie.types] *)

Record MarkdownTable : Type :=
  { table_content : string; table_start_index : Z }.

Record MarkdownCode : Type :=
  { code_content : string; code_language : option string;
    code_start_index : Z }.

(** Modelled from the spec: the declaration of [MarkdownImage] is in
    [chonkie.types]; the data model gives an image a [start_index] and no
    [text]. *)
Record MarkdownImage : Type :=
  { image_start_index : Z }.

(** A [Chunk] is both a prose segment of the parsed document and a piece
    returned by a chunker; the code reads its [text] and [start_index]. *)
Record Chunk : Type :=
  { chunk_text : string; chunk_start_index : Z }.

Record MarkdownDocument : Type :=
  { tables : list MarkdownTable;
    code : list MarkdownCode;
    images : list MarkdownImage;
    chunks : list Chunk }.

(** An element of the list [items]: the dynamic type that the [isinstance]
    tests of [parse_markdown] look at. *)
Inductive item : Type :=
  | ITable (t : MarkdownTable)
  | ICode (c : MarkdownCode)
  | IImage (i : MarkdownImage)
  | IChunk (c : Chunk).

Definition start_index (x : item) : Z :=
  match x with
  | ITable t => table_start_index t
  | ICode c => code_start_index c
  | IImage i => image_start_index i
  | IChunk c => chunk_start_index c
  end.

(** The [rules] argument handed to [RecursiveChunker]: a [RecursiveRules]
    object, or the class [RecursiveRules] itself (line 135 of the source
    passes the class, lines 85 and 89 pass objects). *)
Inductive rules_arg (R : Type) : Type :=
  | RulesObject (r : R)
  | RulesClass.
Arguments RulesObject {R} r.
Arguments RulesClass {R}.

(** ** The interface of the [chonkie] package

    Each chunker is an opaque object; constructing one or calling its
    [chunk] method may raise.  A [chunk] call is a function of the object
    and of the content (section 5 of the specification: no state leaks
    from one split to the next).  [MarkdownChef_parse] is the [parse] method
    of the base class [MarkdownChef]; its first argument is the
    [extract_images] method of the object it is called on, which a subclass
    may override. *)
Class Chonkie : Type :=
  { RecursiveRules : Type;
    TableChunker : Type;
    CodeChunker : Type;
    RecursiveChunker : Type;
    RecursiveRules_new : RecursiveRules;
    RecursiveRules_from_recipe : string -> res RecursiveRules;
    TableChunker_new : Z -> res TableChunker;
    TableChunker_chunk : TableChunker -> string -> res (list Chunk);
    CodeChunker_new : string -> Z -> res CodeChunker;
    CodeChunker_language : CodeChunker -> string;
    CodeChunker_chunk : CodeChunker -> string -> res (list Chunk);
    RecursiveChunker_new : Z -> rules_arg RecursiveRules -> res RecursiveChunker;
    RecursiveChunker_chunk : RecursiveChunker -> string -> res (list Chunk);
    MarkdownChef_parse :
      (string -> list MarkdownImage) -> string -> res MarkdownDocument }.

(** ** [schema.ChunkOptions] *)

Record ChunkOptions : Type :=
  { chunk_size : Z; language_code : option string }.

(** ** Strings *)

(** [str.strip()] on characters below 256: the characters for which
    [str.isspace] holds are 9 to 13, 28 to 32, 133 and 160. *)
Definition isspace (c : ascii) : bool :=
  let n := Z.of_nat (nat_of_ascii c) in
  ((9 <=? n) && (n <=? 13)) || ((28 <=? n) && (n <=? 32))
  || (n =? 133) || (n =? 160).

Fixpoint lstrip_list (s : list ascii) : list ascii :=
  match s with
  | c :: s' => if isspace c then lstrip_list s' else s
  | [] => []
  end.

Definition strip (s : string) : string :=
  string_of_list_ascii
    (rev (lstrip_list (rev (lstrip_list (list_ascii_of_string s))))).

(** [len(s)] *)
Definition len (s : string) : Z := Z.of_nat (String.length s).

(** ** [chunker.py] *)

(** [CustomMarkdownChef.extract_images]: image extraction is disabled. *)
Definition extract_images (markdown : string) : list MarkdownImage := [].

Definition langs : list string :=
  [ "af"; "am"; "ar"; "bg"; "bn"; "ca"; "cs"; "cy"; "da"; "de"; "en"; "es";
    "et"; "fa"; "fi"; "fr"; "ga"; "gl"; "he"; "hi"; "hr"; "hu"; "id"; "is";
    "it"; "jp"; "kr"; "lt"; "lv"; "mk"; "ms"; "mt"; "ne"; "nl"; "no"; "pl";
    "pt"; "pt-BR"; "ro"; "ru"; "sk"; "sl"; "sr"; "sv"; "sw"; "ta"; "te";
    "th"; "tl"; "tr"; "uk"; "ur"; "vi"; "zh"; "zu" ].

(** [language in langs] *)
Definition in_langs (language : string) : bool :=
  existsb (String.eqb language) langs.

(** [items.sort(key=lambda x: x.start_index)]: [list.sort] is a stable sort;
    the stable sort of a list is unique, and is computed here by insertion,
    an element going before the first one whose key is not smaller. *)
Fixpoint insert_by_start (x : item) (l : list item) : list item :=
  match l with
  | [] => [x]
  | y :: l' =>
      if start_index x <=? start_index y then x :: y :: l'
      else y :: insert_by_start x l'
  end.

Fixpoint sort_by_start (l : list item) : list item :=
  match l with
  | [] => []
  | x :: l' => insert_by_start x (sort_by_start l')
  end.

(** One record of [final_chunks]:
    [{"text": ..., "metadata": {"sequence_number": ...}}]. *)
Record parsed_chunk : Type :=
  { pc_text : string; pc_sequence_number : Z }.

(** The three local variables [recursive_chunker], [table_chunker] and
    [code_chunker] of [parse_markdown], each [None] or a chunker object. *)
Record chunker_vars (RC TC CC : Type) : Type :=
  { recursive_chunker : option RC;
    table_chunker : option TC;
    code_chunker : option CC }.
Arguments recursive_chunker {RC TC CC} _.
Arguments table_chunker {RC TC CC} _.
Arguments code_chunker {RC TC CC} _.

Section Chunker.
Context {lib : Chonkie}.

(** [chef = CustomMarkdownChef()]; [chef.parse] is inherited. *)
Definition chef_parse (markdown : string) : res MarkdownDocument :=
  MarkdownChef_parse extract_images markdown.

Definition chunkers : Type :=
  chunker_vars RecursiveChunker TableChunker CodeChunker.

Definition no_chunkers : chunkers :=
  {| recursive_chunker := None; table_chunker := None; code_chunker := None |}.

Definition set_recursive (cs : chunkers) (rc : RecursiveChunker) : chunkers :=
  {| recursive_chunker := Some rc; table_chunker := table_chunker cs;
     code_chunker := code_chunker cs |}.

Definition set_table (cs : chunkers) (tc : TableChunker) : chunkers :=
  {| recursive_chunker := recursive_chunker cs; table_chunker := Some tc;
     code_chunker := code_chunker cs |}.

Definition set_code (cs : chunkers) (cc : CodeChunker) : chunkers :=
  {| recursive_chunker := recursive_chunker cs;
     table_chunker := table_chunker cs; code_chunker := Some cc |}.

(** Lines 84 to 90: the rules of the prose splitter. *)
Definition select_rules (language : option string) : res RecursiveRules :=
  match language with
  | Some l =>
      if in_langs l then RecursiveRules_from_recipe l
      else Ok RecursiveRules_new
  | None => Ok RecursiveRules_new
  end.

(** Lines 102 to 109. *)
Definition items_of (document : MarkdownDocument) : list item :=
  sort_by_start
    (map ITable (tables document) ++ map ICode (code document)
     ++ map IImage (images document) ++ map IChunk (chunks document)).

Section Route.
Variable opts : ChunkOptions.
Variable rules : RecursiveRules.

(** The [if recursive_chunker is None] of lines 133 and 139, with the rules
    argument of each. *)
Definition get_recursive (cs : chunkers) (r : rules_arg RecursiveRules)
  : res RecursiveChunker :=
  match recursive_chunker cs with
  | Some rc => Ok rc
  | None => RecursiveChunker_new (chunk_size opts) r
  end.

(** The body of the [try] (lines 123 to 130).  The assignment to
    [code_chunker] survives an exception raised by [chunk], so the variables
    are returned next to the outcome. *)
Definition try_code (cs : chunkers) (c : MarkdownCode)
  : chunkers * res (list Chunk) :=
  let fresh :=
    match CodeChunker_new
            (match code_language c with None => "auto" | Some l => l end)
            (chunk_size opts) with
    | Ok cc => (set_code cs cc, CodeChunker_chunk cc (code_content c))
    | Raise e => (cs, Raise e)
    end in
  match code_chunker cs with
  | None => fresh
  | Some cc =>
      match code_language c with
      | Some l =>
          if negb (String.eqb (CodeChunker_language cc) l) then fresh
          else (cs, CodeChunker_chunk cc (code_content c))
      | None => (cs, CodeChunker_chunk cc (code_content c))
      end
  end.

(** The [except Exception] handler (lines 132 to 137). *)
Definition code_fallback (cs : chunkers) (c : MarkdownCode)
  : res (chunkers * list Chunk) :=
  rc ← get_recursive cs RulesClass;
  pieces ← RecursiveChunker_chunk rc (code_content c);
  mret (set_recursive cs rc, pieces).

(** Lines 115 to 142: the chunks of one item and the chunkers afterwards. *)
Definition route (cs : chunkers) (x : item) : res (chunkers * list Chunk) :=
  match x with
  | ITable t =>
      tc ← match table_chunker cs with
           | Some tc => Ok tc
           | None => TableChunker_new (chunk_size opts)
           end;
      pieces ← TableChunker_chunk tc (table_content t);
      mret (set_table cs tc, pieces)
  | ICode c =>
      match try_code cs c with
      | (cs', Ok pieces) => mret (cs', pieces)
      | (cs', Raise _) => code_fallback cs' c
      end
  | IChunk c =>
      rc ← get_recursive cs (RulesObject rules);
      pieces ← RecursiveChunker_chunk rc (chunk_text c);
      mret (set_recursive cs rc, pieces)
  | IImage _ =>
      rc ← get_recursive cs (RulesObject rules);
      Raise (AttributeError "text")
  end.

(** Lines 144 to 153. *)
Fixpoint emit (pieces : list Chunk) (final_chunks : list parsed_chunk)
    (sequence_number : Z) : list parsed_chunk * Z :=
  match pieces with
  | [] => (final_chunks, sequence_number)
  | chunk :: rest =>
      emit rest
        (final_chunks ++ [ {| pc_text := strip (chunk_text chunk);
                              pc_sequence_number := sequence_number |} ])
        (sequence_number + 1)
  end.

(** The loop at line 114. *)
Fixpoint route_loop (items : list item) (cs : chunkers)
    (final_chunks : list parsed_chunk) (sequence_number : Z)
  : res (list parsed_chunk) :=
  match items with
  | [] => Ok final_chunks
  | x :: rest =>
      match route cs x with
      | Raise e => Raise e
      | Ok (cs', pieces) =>
          let '(final_chunks', sequence_number') :=
            emit pieces final_chunks sequence_number in
          route_loop rest cs' final_chunks' sequence_number'
      end
  end.

End Route.

Definition parse_markdown (markdown : string) (chunk_options : ChunkOptions)
  : res (list parsed_chunk) :=
  rules ← select_rules (language_code chunk_options);
  document ← chef_parse (String.append markdown (String "010"%char EmptyString));
  route_loop chunk_options rules (items_of document) no_chunkers [] 0.


(** ** [chunk_documents] *)

(** A document [{"text": ..., "page": ...}].  The key ["page"] may be absent
    (the crawl and transcript callers), or present with value [None] or with
    a page number. *)
Inductive page_entry : Type :=
  | PageAbsent
  | PagePresent (v : option Z).

Record document : Type :=
  { doc_text : string; doc_page : page_entry }.

(** [doc["page"] if "page" in doc else None] *)
Definition page_of (doc : document) : option Z :=
  match doc_page doc with
  | PageAbsent => None
  | PagePresent v => v
  end.

(** [{"sequence_number": ..., "page_number": ...}]; the key ["page_number"]
    is present only when the page is not [None]. *)
Record chunk_metadata : Type :=
  { sequence_number : Z; page_number : option Z }.

Record chunk_dict : Type :=
  { id : string; text : string; metadata : chunk_metadata }.

(** An element of the list [batches]: a chunk record when batching is
    disabled, a list of chunk records otherwise. *)
Inductive batch_entry : Type :=
  | BChunk (d : chunk_dict)
  | BGroup (g : list chunk_dict).

(** [len(batches[-1])]; a chunk record is a dictionary with three keys. *)
Definition len_entry (e : batch_entry) : Z :=
  match e with
  | BChunk _ => 3
  | BGroup g => Z.of_nat (length g)
  end.

(** The local variables of [chunk_documents], and the number of identifiers
    drawn from [uuid.uuid4] so far. *)
Record acc : Type :=
  { batches : list batch_entry;
    total_characters : Z;
    total_chunks : Z;
    total_batches : Z;
    drawn : nat }.

Definition acc_init : acc :=
  {| batches := []; total_characters := 0; total_chunks := 0;
     total_batches := 0; drawn := 0 |}.

(** Lines 185 to 195.  [%] raises on a zero divisor; on integers it is
    [Z.modulo] otherwise (the sign of the result is that of the divisor). *)
Definition pack (batch_size : option Z) (batches : list batch_entry)
    (total_batches : Z) (chunk_dict : chunk_dict)
  : res (list batch_entry * Z) :=
  match batch_size with
  | None => Ok (batches ++ [BChunk chunk_dict], total_batches)
  | Some b =>
      match last batches with
      | None => Ok (batches ++ [BGroup [chunk_dict]], total_batches + 1)
      | Some e =>
          if b =? 0 then Raise ZeroDivisionError
          else if len_entry e mod b =? 0
          then Ok (batches ++ [BGroup [chunk_dict]], total_batches + 1)
          else
            match e with
            | BGroup g =>
                Ok (removelast batches ++ [BGroup (g ++ [chunk_dict])],
                    total_batches)
            | BChunk _ => Raise (AttributeError "append")
            end
      end
  end.

Section Documents.
(** [uuid4 n] is the string of the [n]-th identifier that [uuid.uuid4]
    hands out during the call. *)
Variable uuid4 : nat -> string.

(** The body of the loop at line 172. *)
Definition add_chunk (batch_size : option Z) (page_number : option Z)
    (st : acc) (chunk : parsed_chunk) : res acc :=
  let chunk_dict :=
    {| id := uuid4 (drawn st);
       text := pc_text chunk;
       metadata := {| sequence_number := total_chunks st;
                      page_number := page_number |} |} in
  '(batches', total_batches') ←
    pack batch_size (batches st) (total_batches st) chunk_dict;
  mret {| batches := batches';
          total_characters := total_characters st + len (text chunk_dict);
          total_chunks := total_chunks st + 1;
          total_batches := total_batches';
          drawn := S (drawn st) |}.

Fixpoint chunk_loop (batch_size : option Z) (page_number : option Z)
    (chunks : list parsed_chunk) (st : acc) : res acc :=
  match chunks with
  | [] => Ok st
  | chunk :: rest =>
      st' ← add_chunk batch_size page_number st chunk;
      chunk_loop batch_size page_number rest st'
  end.

(** The loop at line 167. *)
Fixpoint doc_loop (documents : list document) (batch_size : option Z)
    (chunk_options : ChunkOptions) (st : acc) : res acc :=
  match documents with
  | [] => Ok st
  | doc :: rest =>
      chunks ← parse_markdown (doc_text doc) chunk_options;
      st' ← chunk_loop batch_size (page_of doc) chunks st;
      doc_loop rest batch_size chunk_options st'
  end.

Definition chunk_documents (documents : list document)
    (batch_size : option Z) (chunk_options : ChunkOptions)
  : res (list batch_entry * Z * Z * Z) :=
  st ← doc_loop documents batch_size chunk_options acc_init;
  mret (batches st, total_characters st, total_chunks st, total_batches st).

End Documents.

End Chunker.

(** ** A sample instance of [Chonkie]

    A line-based stand-in for the package, small enough to evaluate: a line
    that starts with a bar is a table, a line that starts with a backquote
    is a code block (the language is the word after the backquote, the
    content what follows the first blank), any other line that is not empty
    is a prose segment.  The prose splitter cuts at line feeds with the
    default rules, at full stops with the rules of a recipe, and not at all
    when it was given the class [RecursiveRules]; the table and the code
    splitters cut at semicolons.  The code splitter knows the languages
    [auto], [python] and [c]; the constructors refuse a size that is not
    positive. *)
Module Sample.

Definition LF : ascii := "010"%char.

Fixpoint split_on (sep : ascii) (s : string) : list string :=
  match s with
  | EmptyString => [EmptyString]
  | String c s' =>
      if Ascii.eqb c sep then EmptyString :: split_on sep s'
      else
        match split_on sep s' with
        | h :: t => String c h :: t
        | [] => [String c EmptyString]
        end
  end.

Fixpoint with_offsets (off : Z) (ls : list string) : list (Z * string) :=
  match ls with
  | [] => []
  | l :: rest => (off, l) :: with_offsets (off + len l + 1) rest
  end.

Definition pieces (sep : ascii) (s : string) : list Chunk :=
  flat_map
    (fun p : Z * string =>
       match snd p with
       | EmptyString => []
       | t => [ {| chunk_text := t; chunk_start_index := fst p |} ]
       end)
    (with_offsets 0 (split_on sep s)).

Inductive rules : Type :=
  | Paragraphs
  | Sentences (lang : string).

Definition positive_size {A : Type} (origin : string) (size : Z) (a : A)
  : res A :=
  if 0 <? size then Ok a
  else Raise (LibraryError origin "chunk_size must be greater than 0").

Definition recursive_chunk (r : rules_arg rules) (s : string)
  : res (list Chunk) :=
  match r with
  | RulesClass =>
      Ok (match s with
          | EmptyString => []
          | _ => [ {| chunk_text := s; chunk_start_index := 0 |} ]
          end)
  | RulesObject Paragraphs => Ok (pieces LF s)
  | RulesObject (Sentences _) => Ok (pieces "."%char s)
  end.

Definition code_new (language : string) (size : Z) : res string :=
  if existsb (String.eqb language) ["auto"; "python"; "c"]
  then positive_size "CodeChunker" size language
  else Raise (LibraryError "CodeChunker" "unsupported language").

(** The word before the first blank, and what follows the blank. *)
Fixpoint cut_at_blank (s : string) : string * string :=
  match s with
  | EmptyString => (EmptyString, EmptyString)
  | String c s' =>
      if Ascii.eqb c " "%char then (EmptyString, s')
      else let (w, r) := cut_at_blank s' in (String c w, r)
  end.

Definition line_tables (p : Z * string) : list MarkdownTable :=
  match snd p with
  | String "|"%char _ =>
      [ {| table_content := snd p; table_start_index := fst p |} ]
  | _ => []
  end.

Definition line_code (p : Z * string) : list MarkdownCode :=
  match snd p with
  | String "`"%char rest =>
      let (w, r) := cut_at_blank rest in
      [ {| code_content := r;
           code_language := match w with EmptyString => None | _ => Some w end;
           code_start_index := fst p |} ]
  | _ => []
  end.

Definition line_prose (taken : list Z) (p : Z * string) : list Chunk :=
  match snd p with
  | EmptyString => []
  | String "|"%char _ => []
  | String "`"%char _ => []
  | _ =>
      if existsb (Z.eqb (fst p)) taken then []
      else [ {| chunk_text := snd p; chunk_start_index := fst p |} ]
  end.

Definition parse (extract : string -> list MarkdownImage) (markdown : string)
  : res MarkdownDocument :=
  let lines := with_offsets 0 (split_on LF markdown) in
  let found := extract markdown in
  Ok {| tables := flat_map line_tables lines;
        code := flat_map line_code lines;
        images := found;
        chunks := flat_map (line_prose (map image_start_index found)) lines |}.

#[local] Instance lib : Chonkie :=
  {| RecursiveRules := rules;
     TableChunker := Z;
     CodeChunker := string;
     RecursiveChunker := rules_arg rules;
     RecursiveRules_new := Paragraphs;
     RecursiveRules_from_recipe := fun l => Ok (Sentences l);
     TableChunker_new := fun size => positive_size "TableChunker" size size;
     TableChunker_chunk := fun _ s => Ok (pieces ";"%char s);
     CodeChunker_new := code_new;
     CodeChunker_language := fun cc => cc;
     CodeChunker_chunk := fun _ s => Ok (pieces ";"%char s);
     RecursiveChunker_new :=
       fun size r => positive_size "RecursiveChunker" size r;
     RecursiveChunker_chunk := recursive_chunk;
     MarkdownChef_parse := parse |}.

Definition options (language : option string) : ChunkOptions :=
  {| chunk_size := 2048; language_code := language |}.

(** Identifiers [id-0], [id-1], ... in place of random ones. *)
Definition ident (n : nat) : string :=
  String.append "id-" (String (ascii_of_nat (48 + n)) EmptyString).

Definition page (markdown : string) (p : Z) : document :=
  {| doc_text := markdown; doc_page := PagePresent (Some p) |}.

Definition lines (ls : list string) : string :=
  String.concat (String LF EmptyString) ls.

(** A page with two prose lines, a table, a code block in a language the
    code splitter does not know, and one in a language it knows. *)
Definition page1 : string :=
  lines [ "# Title"; "Some text. More"; "|a|b|;|1|2|"; "`cobol MOVE A. B";
          "`python x;y" ].

Definition page1_chunks : list parsed_chunk :=
  [ {| pc_text := "# Title"; pc_sequence_number := 0 |};
    {| pc_text := "Some text. More"; pc_sequence_number := 1 |};
    {| pc_text := "|a|b|"; pc_sequence_number := 2 |};
    {| pc_text := "|1|2|"; pc_sequence_number := 3 |};
    {| pc_text := "MOVE A. B"; pc_sequence_number := 4 |};
    {| pc_text := "x"; pc_sequence_number := 5 |};
    {| pc_text := "y"; pc_sequence_number := 6 |} ].

(** A code block in an unknown language, with no content. *)
Definition empty_cobol : MarkdownCode :=
  {| code_content := ""; code_language := Some "cobol";
     code_start_index := 0 |}.

(** A code block in an unknown language, after a line of prose. *)
Definition cobol_after_prose : MarkdownCode :=
  {| code_content := "MOVE A. B"; code_language := Some "cobol";
     code_start_index := 6 |}.

Definition intro : Chunk :=
  {| chunk_text := "Intro"; chunk_start_index := 0 |}.

(** The chunker variables once a prose segment was split with the rules of
    the recipe [en]. *)
Definition english_splitter : @chunkers lib :=
  {| recursive_chunker := Some (RulesObject (Sentences "en"));
     table_chunker := None; code_chunker := None |}.

(** Two pages of one prose segment each. *)
Definition two_pages : list document := [page "AAAA" 1; page "BBBB" 2].

Definition record_A : chunk_dict :=
  {| id := "id-0"; text := "AAAA";
     metadata := {| sequence_number := 0; page_number := Some 1 |} |}.

Definition record_B : chunk_dict :=
  {| id := "id-1"; text := "BBBB";
     metadata := {| sequence_number := 1; page_number := Some 2 |} |}.

(** Three pages: seven chunks, none, seven chunks. *)
Definition three_pages : list document :=
  [page page1 1; page "`cobol " 2; page page1 3].

Definition batches_of (r : res (list batch_entry * Z * Z * Z))
  : list batch_entry :=
  match r with
  | Ok (bs, _, _, _) => bs
  | Raise _ => []
  end.

Definition three_pages_in_twos : list batch_entry :=
  Eval vm_compute in
    batches_of (chunk_documents ident three_pages (Some 2) (options None)).

Definition page1_in_threes : list batch_entry :=
  Eval vm_compute in
    batches_of (chunk_documents ident [page page1 1] (Some 3) (options None)).

(** The state of [chunk_documents] after the first of the two pages. *)
Definition after_page_A : acc :=
  {| batches := [BGroup [record_A]]; total_characters := 4;
     total_chunks := 1; total_batches := 1; drawn := 1 |}.

Definition unsupported : exn :=
  LibraryError "CodeChunker" "unsupported language".

End Sample.

(** ** Notions used in the statements *)

(** The position of an item's family in the concatenation of line 102:
    tables, code, images, prose. *)
Definition rank (x : item) : Z :=
  match x with
  | ITable _ => 0
  | ICode _ => 1
  | IImage _ => 2
  | IChunk _ => 3
  end.

(** Order by [start_index], then by family. *)
Definition item_le (x y : item) : Prop :=
  start_index x < start_index y
  \/ (start_index x = start_index y /\ rank x <= rank y).

Definition is_image (x : item) : bool :=
  match x with
  | IImage _ => true
  | _ => false
  end.

(** The records that the loop of lines 144 to 153 appends for the pieces of
    one or more items, the counter being [n] on entry. *)
Fixpoint numbered (n : Z) (pieces : list Chunk) : list parsed_chunk :=
  match pieces with
  | [] => []
  | chunk :: rest =>
      {| pc_text := strip (chunk_text chunk); pc_sequence_number := n |}
      :: numbered (n + 1) rest
  end.

(** The chunk records of a result, in order, whatever the batching. *)
Definition entry_chunks (e : batch_entry) : list chunk_dict :=
  match e with
  | BChunk d => [d]
  | BGroup g => g
  end.

Definition flat (batches : list batch_entry) : list chunk_dict :=
  concat (map entry_chunks batches).

Definition seq_of (d : chunk_dict) : Z := sequence_number (metadata d).
Definition page_number_of (d : chunk_dict) : option Z :=
  page_number (metadata d).

(** A chunk record without its [id]. *)
Definition erase_id (d : chunk_dict) : string * chunk_metadata :=
  (text d, metadata d).

Definition erase_entry (e : batch_entry)
  : (string * chunk_metadata) + list (string * chunk_metadata) :=
  match e with
  | BChunk d => inl (erase_id d)
  | BGroup g => inr (map erase_id g)
  end.

Section Notions.
Context {lib : Chonkie}.

(** [pieces] is what the router obtains for the item [x], from some state of
    the three chunker variables. *)
Definition produced (opts : ChunkOptions) (rules : RecursiveRules)
    (x : item) (pieces : list Chunk) : Prop :=
  exists cs cs', route opts rules cs x = Ok (cs', pieces).

(** [els] lists the items of the parsed markdown in the order in which the
    loop of line 114 visits them, each with the pieces obtained for it. *)
Definition elements (opts : ChunkOptions) (markdown : string)
    (els : list (item * list Chunk)) : Prop :=
  exists rules d,
    select_rules (language_code opts) = Ok rules
    /\ chef_parse (String.append markdown (String "010"%char EmptyString))
       = Ok d
    /\ map fst els = items_of d
    /\ Forall (fun el => produced opts rules (fst el) (snd el)) els.

(** Every piece next to the item it comes from. *)
Definition tagged (els : list (item * list Chunk)) : list (item * Chunk) :=
  flat_map (fun el => map (pair (fst el)) (snd el)) els.

End Notions.

(** The package [lib] with every exception that comes out of the code
    splitter (its constructor or its [chunk] method) replaced by its image
    under [f]; nothing else is changed. *)
Definition relabel {A : Type} (f : exn -> exn) (r : res A) : res A :=
  match r with
  | Ok a => Ok a
  | Raise e => Raise (f e)
  end.

Definition with_code_errors (f : exn -> exn) (lib : Chonkie) : Chonkie :=
  {| RecursiveRules := @RecursiveRules lib;
     TableChunker := @TableChunker lib;
     CodeChunker := @CodeChunker lib;
     RecursiveChunker := @RecursiveChunker lib;
     RecursiveRules_new := @RecursiveRules_new lib;
     RecursiveRules_from_recipe := @RecursiveRules_from_recipe lib;
     TableChunker_new := @TableChunker_new lib;
     TableChunker_chunk := @TableChunker_chunk lib;
     CodeChunker_new :=
       fun language size => relabel f (@CodeChunker_new lib language size);
     CodeChunker_language := @CodeChunker_language lib;
     CodeChunker_chunk :=
       fun cc content => relabel f (@CodeChunker_chunk lib cc content);
     RecursiveChunker_new := @RecursiveChunker_new lib;
     RecursiveChunker_chunk := @RecursiveChunker_chunk lib;
     MarkdownChef_parse := @MarkdownChef_parse lib |}.

(** The result of [chunk_documents] without the identifiers. *)
Definition erase_result (r : list batch_entry * Z * Z * Z) :=
  let '(batches, total_characters, total_chunks, total_batches) := r in
  (map erase_entry batches, total_characters, total_chunks, total_batches).

Definition erase_acc (st : acc) :=
  (map erase_entry (batches st), total_characters st, total_chunks st,
   total_batches st, drawn st).

#[global] Instance res_fmap : FMap res := fun A B f m =>
  match m with
  | Ok a => Ok (f a)
  | Raise e => Raise e
  end.

(** Two outcomes that differ at most in the identifiers. *)
Definition agree (r1 r2 : res acc) : Prop :=
  match r1, r2 with
  | Ok st1, Ok st2 => erase_acc st1 = erase_acc st2
  | Raise e1, Raise e2 => e1 = e2
  | _, _ => False
  end.

(** The groups [gs] are full, of size [b], except the last one, which holds
    between 1 and [b] records. *)
Definition well_grouped (b : Z) (gs : list (list chunk_dict)) : Prop :=
  gs = []
  \/ exists full g,
       gs = full ++ [g]
       /\ Forall (fun h => Z.of_nat (length h) = b) full
       /\ 1 <= Z.of_nat (length g) <= b.

(** The state of [chunk_documents] under a batch size [b]. *)
Definition grouped (b : Z) (st : acc) : Prop :=
  exists gs, batches st = map BGroup gs
             /\ total_batches st = Z.of_nat (length gs)
             /\ well_grouped b gs.

(** The state of [chunk_documents] when batching is disabled. *)
Definition ungrouped (st : acc) : Prop :=
  exists ds, batches st = map BChunk ds /\ total_batches st = 0.

(** The counters and the numbering, for the identifiers [uuid4]. *)
Definition counted (uuid4 : nat -> string) (st : acc) : Prop :=
  total_chunks st = Z.of_nat (length (flat (batches st)))
  /\ map seq_of (flat (batches st)) = seqZ 0 (total_chunks st)
  /\ drawn st = length (flat (batches st))
  /\ map id (flat (batches st)) = map uuid4 (seq 0 (drawn st))
  /\ total_characters st
     = foldr (fun d n => len (text d) + n) 0 (flat (batches st)).

(** * The modules around the chunker

    The helpers and the loops of [csv_parser.py], [s3.py], [file_type.py],
    [datalab_parser.py], [youtube/converter.py], [yt.py], [crawl.py] and
    [ingest.py] whose behaviour does not depend on the network.  What they
    receive from a service or a package (an HTTP response, a transcript, a
    job description) is an argument or a variable of a section. *)

(** ** Strings, continued *)

(** [s.split(sep)] for a separator [sep] of one character. *)
Fixpoint split (sep : ascii) (s : string) : list string :=
  match s with
  | EmptyString => [EmptyString]
  | String c s' =>
      if Ascii.eqb c sep then EmptyString :: split sep s'
      else
        match split sep s' with
        | h :: t => String c h :: t
        | [] => [String c EmptyString]
        end
  end.

(** [l[-1]] for a list that [split] returned; such a list is never empty,
    so the [IndexError] of an empty list does not occur. *)
Definition last_item (l : list string) : string :=
  match last l with
  | Some x => x
  | None => EmptyString
  end.

(** [c in s] for a character [c]. *)
Definition contains_char (c : ascii) (s : string) : bool :=
  existsb (Ascii.eqb c) (list_ascii_of_string s).

(** [str.lower()] on characters below 256: the capital letters are 65 to
    90, 192 to 214 and 216 to 222, each 32 below its small letter. *)
Definition lower_char (c : ascii) : ascii :=
  let n := Z.of_nat (nat_of_ascii c) in
  if ((65 <=? n) && (n <=? 90)) || ((192 <=? n) && (n <=? 214))
     || ((216 <=? n) && (n <=? 222))
  then ascii_of_nat (nat_of_ascii c + 32)
  else c.

Definition lower (s : string) : string :=
  string_of_list_ascii (map lower_char (list_ascii_of_string s)).

(** [str(z)] for an integer. *)
Definition str (z : Z) : string := NilZero.string_of_int (Z.to_int z).

(** [s.replace(old, new)] for a string [old] that is not empty: the
    occurrences of [old] are replaced from left to right, the search going
    on after each occurrence.  [skip] counts the characters of an
    occurrence still to pass. *)
Fixpoint replace_from (old new : string) (skip : nat) (s : string) : string :=
  match s with
  | EmptyString => EmptyString
  | String c s' =>
      match skip with
      | S k => replace_from old new k s'
      | O =>
          if String.prefix old s
          then String.append new
                 (replace_from old new (String.length old - 1) s')
          else String c (replace_from old new 0 s')
      end
  end.

Definition replace (old new s : string) : string := replace_from old new 0 s.

(** [s.encode("utf-8")] on characters below 256: one byte below 128, two
    bytes from 128 on. *)
Definition utf8_char (c : ascii) : list ascii :=
  let n := nat_of_ascii c in
  if (n <? 128)%nat then [c]
  else [ascii_of_nat (192 + n / 64); ascii_of_nat (128 + n mod 64)].

Definition encode_utf8 (s : string) : string :=
  string_of_list_ascii (flat_map utf8_char (list_ascii_of_string s)).

(** The truth value of an optional string: [None] and the empty string are
    false. *)
Definition truthy (o : option string) : bool :=
  match o with
  | Some (String _ _) => true
  | _ => false
  end.

(** ** [csv_parser._compact_markdown] *)

Definition bar : ascii := "|"%char.

(** [re.sub(r"\|\s+", "|", line)]: each bar that is followed by white space
    loses the whole run of white space after it.  [after_bar] tells that the
    run being read started right after a bar.  The class [\s] of a pattern
    on [str] is the set of characters of [str.isspace]. *)
Fixpoint sub_bar_spaces (after_bar : bool) (line : list ascii) : list ascii :=
  match line with
  | [] => []
  | c :: rest =>
      if after_bar && isspace c then sub_bar_spaces true rest
      else c :: sub_bar_spaces (Ascii.eqb c bar) rest
  end.

(** The line starts with a run of white space, possibly empty, and then a
    bar. *)
Fixpoint leads_to_bar (line : list ascii) : bool :=
  match line with
  | [] => false
  | c :: rest =>
      if Ascii.eqb c bar then true
      else if isspace c then leads_to_bar rest
      else false
  end.

(** [re.sub(r"\s+\|", "|", line)]: a match starts at the first character of
    a run of white space and takes the whole run, so the runs that a bar
    follows disappear and the other runs stay. *)
Fixpoint sub_spaces_bar (line : list ascii) : list ascii :=
  match line with
  | [] => []
  | c :: rest =>
      if isspace c && leads_to_bar rest then sub_spaces_bar rest
      else c :: sub_spaces_bar rest
  end.

(** The body of the loop of lines 9 to 12. *)
Definition compact_line (line : string) : string :=
  string_of_list_ascii
    (sub_spaces_bar (sub_bar_spaces false (list_ascii_of_string line))).

Definition newline : string := String "010"%char EmptyString.

Definition _compact_markdown (md : string) : string :=
  String.concat newline (map compact_line (split "010"%char md)).

(** ** [s3._get_content_type_from_filename] *)

Definition content_type_map : list (string * string) :=
  [ ("jpg", "image/jpeg"); ("jpeg", "image/jpeg"); ("png", "image/png");
    ("gif", "image/gif"); ("webp", "image/webp"); ("tiff", "image/tiff");
    ("tif", "image/tiff") ].

(** [d.get(key, default)] for a dictionary given by its items. *)
Fixpoint dict_get (key : string) (d : list (string * string))
    (default : string) : string :=
  match d with
  | [] => default
  | (k, v) :: rest => if String.eqb key k then v else dict_get key rest default
  end.

Definition _get_content_type_from_filename (filename : string) : string :=
  let ext :=
    if contains_char "."%char filename
    then last_item (split "."%char (lower filename))
    else "" in
  dict_get ext content_type_map "image/jpeg".

(** ** [file_type.extract_file_from_request] *)

(** The fields of [schema.IngestRequest] that [file_type.py] and the
    dispatch of [ingest.py] read. *)
Record IngestRequest : Type :=
  { request_url : option string;
    request_text : option string;
    request_filename : option string }.

(** What the code reads of the response of [requests.get]: the body and the
    values of the two headers it looks up. *)
Record response : Type :=
  { content : string;
    header_content_disposition : option string;
    header_content_type : option string }.

Record ExtractedFile : Type :=
  { file : string;
    mime_type : string;
    size_in_bytes : Z;
    file_name : option string;
    extension : option string;
    url : option string }.

Section FileType.
(** [requests.get(url)] followed by [raise_for_status()]. *)
Variable requests_get : string -> res response.
(** [Message.get_filename] on a message with the given
    [content-disposition]. *)
Variable get_filename : string -> option string.
(** [magic.from_buffer(head, mime=True)]. *)
Variable magic_from_buffer : string -> res string.

(** [filename.extract_filename_from_headers] *)
Definition extract_filename_from_headers (r : response) : option string :=
  match header_content_disposition r with
  | Some (String c s) => get_filename (String c s)
  | _ => None
  end.

Definition detect_mimetype (file : string) : res string :=
  mime ← magic_from_buffer (String.substring 0 (Z.to_nat 8192) file);
  mret (lower mime).

Definition extract_file_from_request (request : IngestRequest)
  : res ExtractedFile :=
  let file_name0 :=
    if truthy (request_filename request) then request_filename request
    else None in
  '(file_stream, size, file_name, mime, extension0, url) ←
    match request_url request with
    | Some (String c u) =>
        response ← requests_get (String c u);
        let file_name :=
          if negb (truthy file_name0)
          then extract_filename_from_headers response
          else file_name0 in
        mret (content response, len (content response), file_name,
              header_content_type response, @None string,
              Some (String c u))
    | _ =>
        match request_text request with
        | None => Raise (AttributeError "encode")
        | Some text =>
            let text_bytes := encode_utf8 text in
            mret (text_bytes, len text_bytes, file_name0,
                  Some "text/plain", Some "txt", @None string)
        end
    end;
  let extension :=
    match file_name with
    | Some (String c n) => Some (last_item (split "."%char (String c n)))
    | _ => extension0
    end in
  mime_type ←
    match mime with
    | Some (String c m) => Ok (String c m)
    | _ => detect_mimetype file_stream
    end;
  mret {| file := file_stream; mime_type := mime_type;
          size_in_bytes := size; file_name := file_name;
          extension := extension; url := url |}.

End FileType.

(** ** The dispatch of [ingest.ingest_operation] *)

Definition DATALAB_SUPPORTED_MIME_TYPES : list string :=
  [ "application/pdf";
    "application/vnd.ms-excel";
    "application/vnd.openxmlformats-officedocument.spreadsheetml.sheet";
    "application/vnd.oasis.opendocument.spreadsheet";
    "application/msword";
    "application/vnd.openxmlformats-officedocument.wordprocessingml.document";
    "application/vnd.oasis.opendocument.text";
    "application/vnd.ms-powerpoint";
    "application/vnd.openxmlformats-officedocument.presentationml.presentation";
    "application/vnd.oasis.opendocument.presentation";
    "application/epub+zip";
    "image/png"; "image/jpeg"; "image/webp"; "image/gif"; "image/tiff";
    "image/jpg" ].

Definition PAGED_MIME_TYPES : list string :=
  [ "application/pdf";
    "application/msword";
    "application/vnd.openxmlformats-officedocument.wordprocessingml.document";
    "application/vnd.oasis.opendocument.text";
    "application/vnd.ms-powerpoint";
    "application/vnd.openxmlformats-officedocument.presentationml.presentation";
    "application/vnd.oasis.opendocument.presentation";
    "application/epub+zip" ].

Definition PAGED_EXTENSIONS : list string :=
  [ "pdf"; "doc"; "docx"; "ppt"; "pptx"; "odp"; "epub" ].

Definition DATALAB_SUPPORTED_EXTENSIONS : list string :=
  [ "pdf"; "xls"; "xlsx"; "ods"; "doc"; "docx"; "ppt"; "pptx"; "odp";
    "epub"; ".jpg"; ".jpeg"; ".png"; ".gif"; ".tiff"; ".tif"; ".webp" ].

(** [x in l] for strings; [None in l] is false. *)
Definition str_in (x : string) (l : list string) : bool :=
  existsb (String.eqb x) l.

Definition opt_in (x : option string) (l : list string) : bool :=
  match x with
  | Some s => str_in s l
  | None => false
  end.

(** The three branches of lines 49 to 84. *)
Inductive converter : Type :=
  | Datalab (paged : bool)
  | CsvParser
  | MarkItDown.

Definition select_converter (request : IngestRequest) (payload : ExtractedFile)
  : converter :=
  if truthy (request_url request)
     && (str_in (mime_type payload) DATALAB_SUPPORTED_MIME_TYPES
         || opt_in (extension payload) DATALAB_SUPPORTED_EXTENSIONS)
  then Datalab (str_in (mime_type payload) PAGED_MIME_TYPES
                || opt_in (extension payload) PAGED_EXTENSIONS)
  else if str_in (mime_type payload) ["text/csv"; "text/tab-separated-values"]
          || opt_in (extension payload) ["csv"; "tsv"]
  then CsvParser
  else MarkItDown.

(** In the modules below, [LibraryError c m] also stands for an exception of
    class [c] with message [m] that the code itself raises, or that a Python
    built-in raises. *)

(** ** [datalab_parser._get_markdown_from_job], lines 163 to 174 *)

(** The loop over [enumerate(pages[1:])]. *)
Fixpoint pages_loop (idx : Z) (pages : list string) : list document :=
  match pages with
  | [] => []
  | page :: rest =>
      let stripped_page := strip page in
      if len stripped_page =? 0 then pages_loop (idx + 1) rest
      else {| doc_text := stripped_page;
              doc_page := PagePresent (Some (idx + 1)) |}
           :: pages_loop (idx + 1) rest
  end.

(** [content_by_page] for the list [pages] that [re.split] returned. *)
Definition content_by_page (pages : list string) : list document :=
  pages_loop 0 (tail pages).

(** ** [datalab_parser._get_and_wait_for_job] *)

Definition _max_polls : nat := 600.

Section Polling.
(** A job description, as [response.json()] returns it, and the result
    built from it. *)
Variables Job ConversionResult : Type.
(** [get i] is what the request number [i] of the call returns. *)
Variable get : nat -> res Job.
(** [job["status"] == "processing"]; a missing key raises. *)
Variable processing : Job -> res bool.
(** [job["success"] == False or job["status"] == "failed"] *)
Variable failed : Job -> res bool.
(** The exception of line 109. *)
Variable failure : Job -> exn.
(** The [ConversionResult] of lines 111 to 124. *)
Variable conversion_result : Job -> ConversionResult.

(** The loop of line 98, for [polls] rounds still to go: the last job read,
    the number of requests made and the number of pauses of 5 seconds. *)
Fixpoint poll_loop (polls : nat) (i : nat) (job : option Job) (slept : nat)
  : res (option Job) * nat * nat :=
  match polls with
  | O => (Ok job, i, slept)
  | S polls' =>
      match get i with
      | Raise e => (Raise e, S i, slept)
      | Ok j =>
          match processing j with
          | Raise e => (Raise e, S i, slept)
          | Ok false => (Ok (Some j), S i, slept)
          | Ok true => poll_loop polls' (S i) (Some j) (S slept)
          end
      end
  end.

Definition _get_and_wait_for_job : res ConversionResult * nat * nat :=
  let '(r, requests, slept) := poll_loop _max_polls 0 None 0 in
  (match r with
   | Raise e => Raise e
   | Ok None => Raise (LibraryError "TypeError" "'NoneType' object is not subscriptable")
   | Ok (Some job) =>
       bad ← failed job;
       if bad : bool then Raise (failure job) else Ok (conversion_result job)
   end, requests, slept).

End Polling.

(** ** [YouTubeConverter._retry_operation] *)

Section Retry.
Context {A : Type}.
(** [operation k] is what the call number [k] of the operation does. *)
Variable operation : nat -> res A.

(** The loop of line 116, for [n] rounds still to go: the outcome, the number
    of calls of the operation and the time slept.  [time.sleep] refuses a
    negative delay. *)
Fixpoint retry_loop (n : nat) (attempt retries delay : Z) (calls : nat)
    (slept : Z) : res A * nat * Z :=
  match n with
  | O =>
      (Raise (LibraryError "Exception"
                (String.append "Operation failed after "
                   (String.append (str retries) " attempts."))),
       calls, slept)
  | S n' =>
      match operation calls with
      | Ok a => (Ok a, S calls, slept)
      | Raise _ =>
          if attempt <? retries - 1 then
            if delay <? 0
            then (Raise (LibraryError "ValueError"
                           "sleep length must be non-negative"),
                  S calls, slept)
            else retry_loop n' (attempt + 1) retries delay (S calls)
                   (slept + delay)
          else retry_loop n' (attempt + 1) retries delay (S calls) slept
      end
  end.

Definition _retry_operation (retries delay : Z) : res A * nat * Z :=
  retry_loop (Z.to_nat retries) 0 retries delay 0 0.

End Retry.

(** ** [yt.youtube_operation], lines 26 to 44 *)

Record ExtractedVideo : Type :=
  { video_id : string;
    video_title : string;
    video_url : string;
    video_description : string;
    video_tags : list string;
    video_category : option string;
    video_timestamp : option Z;
    video_channel_id : option string;
    video_channel_name : option string;
    video_views : option Z;
    video_comments : option Z;
    video_duration : option Z }.

Record ExtractedPlaylist : Type :=
  { playlist_type : string;
    playlist_title : string;
    playlist_videos : list ExtractedVideo }.

Inductive VideoOrPlaylist : Type :=
  | AVideo (v : ExtractedVideo)
  | APlaylist (p : ExtractedPlaylist).

(** A [dict] with string keys, as the list of its items in the order of
    insertion.  [d[key] = v] replaces the value of a key that is there, in
    place, and appends a new key. *)
Fixpoint dict_set {V : Type} (key : string) (v : V) (d : list (string * V))
  : list (string * V) :=
  match d with
  | [] => [(key, v)]
  | (k, x) :: rest =>
      if String.eqb k key then (k, v) :: rest
      else (k, x) :: dict_set key v rest
  end.

Fixpoint dict_find {V : Type} (key : string) (d : list (string * V))
  : option V :=
  match d with
  | [] => None
  | (k, x) :: rest => if String.eqb k key then Some x else dict_find key rest
  end.

Definition add_videos (videos : list ExtractedVideo)
    (video_ids : list (string * ExtractedVideo))
  : list (string * ExtractedVideo) :=
  fold_left (fun d video => dict_set (video_id video) video d) videos
    video_ids.

Section YouTube.
(** [extract_url k u] is what the call number [k] of [extract_url] returns
    for the address [u]. *)
Variable extract_url : nat -> string -> res VideoOrPlaylist.

(** The loop of line 27. *)
Fixpoint collect_videos (k : nat) (urls : list string)
    (video_ids : list (string * ExtractedVideo))
  : res (list (string * ExtractedVideo)) :=
  match urls with
  | [] => Ok video_ids
  | u :: rest =>
      result ← extract_url k u;
      collect_videos (S k) rest
        (match result with
         | AVideo v => dict_set (video_id v) v video_ids
         | APlaylist p => add_videos (playlist_videos p) video_ids
         end)
  end.

(** [videos_to_process = list(video_ids.values())] *)
Definition videos_to_process (urls : list string)
  : res (list ExtractedVideo) :=
  video_ids ← collect_videos 0 urls [];
  mret (map snd video_ids).

End YouTube.

(** ** [crawl.crawl_operation], lines 57 to 90 *)

(** A page of [crawl_job.data]: its markdown and the fields of its metadata
    that the loop reads. *)
Record CrawlPage : Type :=
  { page_markdown : string;
    page_source_url : option string;
    page_title : option string;
    page_description : option string;
    page_language : option string }.

(** An element of the list [documents] of [crawl_operation]. *)
Record CrawlDocument : Type :=
  { cd_id : string;
    cd_chunks : list batch_entry;
    cd_url : option string;
    cd_title : option string;
    cd_description : option string;
    cd_language : option string;
    cd_total_bytes : Z;
    cd_total_characters : Z;
    cd_total_chunks : Z }.

(** [request.chunk_options.language_code = language], when the language of
    the page is one of [langs]: the options of the request are changed in
    place and stay so for the pages that follow. *)
Definition set_language (chunk_options : ChunkOptions)
    (language : option string) : ChunkOptions :=
  match language with
  | Some l =>
      if in_langs l
      then {| chunk_size := chunk_size chunk_options;
              language_code := Some l |}
      else chunk_options
  | None => chunk_options
  end.

Section Crawl.
Context {lib : Chonkie}.
(** The identifiers of [uuid.uuid4] and of [cuid_generator], in the order in
    which the operation draws them. *)
Variable uuid4 : nat -> string.
Variable cuid : nat -> string.

(** The loop of line 58: the documents, and the options of the request at
    the end.  [made] documents exist and [drawn] identifiers were drawn
    from [uuid4] when the loop reaches [data]. *)
Fixpoint crawl_loop (data : list CrawlPage) (chunk_options : ChunkOptions)
    (made drawn : nat) : res (list CrawlDocument * ChunkOptions) :=
  match data with
  | [] => Ok ([], chunk_options)
  | page :: rest =>
      let chunk_options' := set_language chunk_options (page_language page) in
      '(chunks, total_characters, total_chunks, _b) ←
        chunk_documents (fun n => uuid4 (drawn + n)%nat)
          [ {| doc_text := page_markdown page; doc_page := PageAbsent |} ]
          None chunk_options';
      '(documents, final_options) ←
        crawl_loop rest chunk_options' (S made)
          (drawn + Z.to_nat total_chunks)%nat;
      mret ({| cd_id := cuid made;
               cd_chunks := chunks;
               cd_url := page_source_url page;
               cd_title := page_title page;
               cd_description := page_description page;
               cd_language := page_language page;
               cd_total_bytes := len (page_markdown page);
               cd_total_characters := total_characters;
               cd_total_chunks := total_chunks |} :: documents,
            final_options)
  end.

End Crawl.

(** ** [ingest.ingest_operation], lines 102 to 136 *)

Definition batch_template (results_id : string) : string :=
  String.append "results_" (String.append results_id "_[BATCH_INDEX]").

Definition redis_key (template : string) (batch_idx : Z) : string :=
  replace "[BATCH_INDEX]" (str batch_idx) template.

(** The loop of line 123 on a Redis store given by its items; [SET]
    replaces the value of a key that is there.  The value stored is the
    batch, [json.dumps] being left out. *)
Fixpoint store_batches (template : string) (batch_idx : Z)
    (batches : list batch_entry) (redis : list (string * batch_entry))
  : list (string * batch_entry) :=
  match batches with
  | [] => redis
  | batch :: rest =>
      store_batches template (batch_idx + 1) rest
        (dict_set (redis_key template batch_idx) batch redis)
  end.

(** [for item in batch]: the elements of a list, the keys of a
    dictionary. *)
Definition iterate (batch : batch_entry) : list (chunk_dict + string) :=
  match batch with
  | BGroup g => map inl g
  | BChunk _ => [inr "id"; inr "text"; inr "metadata"]
  end.

(** [[item for batch in batches for item in batch]] *)
Definition flatten_batches (batches : list batch_entry)
  : list (chunk_dict + string) :=
  flat_map iterate batches.

(** ** Notions used for the properties of the modules *)

Section Feed.
Context {lib : Chonkie}.
Variable uuid4 : nat -> string.

(** The loop of line 172 of [chunker.py] run over the chunks of several
    documents, each chunk with the page of its document. *)
Fixpoint feed (batch_size : option Z) (stream : list (option Z * parsed_chunk))
    (st : acc) : res acc :=
  match stream with
  | [] => Ok st
  | (page, chunk) :: rest =>
      st' ← add_chunk uuid4 batch_size page st chunk;
      feed batch_size rest st'
  end.

End Feed.

(** The chunks that [parse_markdown] returned for each document, as one
    stream. *)
Definition stream_of (docs : list document) (outs : list (list parsed_chunk))
  : list (option Z * parsed_chunk) :=
  concat (zip_with (fun doc out => map (pair (page_of doc)) out) docs outs).

(** The string has no white space at either end. *)
Definition trimmed (s : string) : Prop :=
  (forall c, head (list_ascii_of_string s) = Some c -> isspace c = false)
  /\ (forall c, last (list_ascii_of_string s) = Some c -> isspace c = false).

Definition is_table (x : item) : bool :=
  match x with
  | ITable _ => true
  | _ => false
  end.

Definition is_code (x : item) : bool :=
  match x with
  | ICode _ => true
  | _ => false
  end.

(** Data for the examples of the properties. *)
Module Cases.

(** The chunker variables of the sample instance once the fallback of a
    code block has built the prose splitter. *)
Definition fallback_splitter : @chunkers Sample.lib :=
  {| recursive_chunker := Some RulesClass; table_chunker := None;
     code_chunker := None |}.

Definition two_sentences : Chunk :=
  {| chunk_text := "Hello. World"; chunk_start_index := 17 |}.

(** The records of a page in Spanish, split at its full stop. *)
Definition spanish_page : list batch_entry :=
  [ BChunk {| id := "id-0"; text := "Uno";
              metadata := {| sequence_number := 0;
                             page_number := Some 1 |} |};
    BChunk {| id := "id-1"; text := "Dos";
              metadata := {| sequence_number := 1;
                             page_number := Some 1 |} |} ].

(** Options with a chunk size that the splitters refuse. *)
Definition no_size : ChunkOptions :=
  {| chunk_size := 0; language_code := None |}.

Definition refused : exn :=
  LibraryError "RecursiveChunker" "chunk_size must be greater than 0".

(** A request with a text, a file name and an empty address, on a machine
    without network. *)
Definition csv_request : IngestRequest :=
  {| request_url := Some ""; request_text := Some "a,b";
     request_filename := Some "Data.Table.CSV" |}.

Definition csv_payload : ExtractedFile :=
  {| file := "a,b"; mime_type := "text/plain"; size_in_bytes := 3;
     file_name := Some "Data.Table.CSV"; extension := Some "CSV";
     url := None |}.

Definition offline (address : string) : res response :=
  Raise (LibraryError "ConnectionError" address).

Definition no_filename (disposition : string) : option string := None.

Definition plain (head : string) : res string := Ok "text/plain".

(** The split of a Datalab markdown: a cover, a blank page and a page of
    text. *)
Definition three_parts : list string := ["cover"; "  "; " Text "].

Definition text_record : chunk_dict :=
  {| id := "id-0"; text := "Text";
     metadata := {| sequence_number := 0; page_number := Some 2 |} |}.

(** A job that is in progress for two requests and settled at the third;
    the job is the number of the request that read it. *)
Definition get_job (i : nat) : res nat := Ok i.
Definition in_progress (job : nat) : res bool := Ok (job <? 2)%nat.
Definition stuck (job : nat) : res bool := Ok true.
Definition not_failed (job : nat) : res bool := Ok false.
Definition job_failure (job : nat) : exn :=
  LibraryError "Exception" "Datalab conversion failed".
Definition job_result (job : nat) : nat := job.
Definition job_read (i : nat) : nat := i.

(** An operation that fails twice and then returns 7, and one that always
    fails. *)
Definition third_time (call : nat) : res Z :=
  if (call <? 2)%nat then Raise (LibraryError "DownloadError" "busy")
  else Ok 7.

Definition never (call : nat) : res Z :=
  Raise (LibraryError "DownloadError" "busy").

Definition video (ident title : string) : ExtractedVideo :=
  {| video_id := ident; video_title := title;
     video_url := String.append "https://www.youtube.com/watch?v=" ident;
     video_description := ""; video_tags := []; video_category := None;
     video_timestamp := None; video_channel_id := None;
     video_channel_name := None; video_views := None;
     video_comments := None; video_duration := None |}.

(** A playlist of two videos, and an address of the first of them. *)
Definition extract (call : nat) (address : string) : res VideoOrPlaylist :=
  if String.eqb address "list"
  then Ok (APlaylist {| playlist_type := "playlist";
                        playlist_title := "All";
                        playlist_videos :=
                          [video "v1" "First"; video "v2" "Second"] |})
  else Ok (AVideo (video "v1" "First, again")).

(** Identifiers [doc-0], [doc-1], ... in place of those of
    [cuid_generator]. *)
Definition cuid (n : nat) : string :=
  String.append "doc-" (String (ascii_of_nat (48 + n)) EmptyString).

Definition crawl_page (markdown : string) (language : option string)
  : CrawlPage :=
  {| page_markdown := markdown; page_source_url := None;
     page_title := None; page_description := None;
     page_language := language |}.

(** Three pages: one in Spanish, one without a language and one in a
    language that is not in [langs]. *)
Definition crawl_pages : list CrawlPage :=
  [ crawl_page "Uno. Dos" (Some "es"); crawl_page "One. Two" None;
    crawl_page "Ein. Zwei" (Some "xx") ].

Definition crawl_documents : list CrawlDocument :=
  Eval vm_compute in
    match crawl_loop (lib := Sample.lib) Sample.ident cuid crawl_pages
            (Sample.options None) 0 0 with
    | Ok (documents, _) => documents
    | Raise _ => []
    end.

End Cases.

(** No two neighbours of the list are related by [P]. *)
Definition no_pair (P : ascii -> ascii -> Prop) (l : list ascii) : Prop :=
  forall pre a b post, l = pre ++ a :: b :: post -> ~ P a b.

Definition bar_then_space (a b : ascii) : Prop :=
  a = bar /\ isspace b = true.

Definition space_then_bar (a b : ascii) : Prop :=
  isspace a = true /\ b = bar.

(** The characters of a line that are not white space. *)
Definition visible (line : list ascii) : list ascii :=
  List.filter (fun c => negb (isspace c)) line.

(** The videos of a result of [extract_url], in order. *)
Definition videos_of (r : VideoOrPlaylist) : list ExtractedVideo :=
  match r with
  | AVideo v => [v]
  | APlaylist p => playlist_videos p
  end.

(** The last video of a list that has the identifier [key]. *)
Definition last_with_id (key : string) (videos : list ExtractedVideo)
  : option ExtractedVideo :=
  last (List.filter (fun v => String.eqb (video_id v) key) videos).

(** The languages, among those of the pages, that are in [langs]. *)
Definition supported_languages (languages : list (option string))
  : list string :=
  List.filter in_langs (omap (fun language => language) languages).

(** The document that [crawl_operation] and [youtube_operation] hand to
    [chunk_documents] for a markdown text. *)
Definition text_only (markdown : string) : document :=
  {| doc_text := markdown; doc_page := PageAbsent |}.

(** ** Results and binds *)

Lemma bind_Ok {A B : Type} (m : res A) (f : A -> res B) (b : B) :
  m ≫= f = Ok b <-> exists a, m = Ok a /\ f a = Ok b.
Proof.
  destruct m as [a|e]; simpl; split.
  - intros H. exists a. split; [reflexivity | exact H].
  - intros (a' & Ha & Hf). injection Ha as ->. exact Hf.
  - discriminate.
  - intros (a' & Ha & _). discriminate.
Qed.

(** ** The stable sort of line 109 *)

Lemma insert_by_start_perm (x : item) (l : list item) :
  Permutation (insert_by_start x l) (x :: l).
Proof.
  induction l as [|y l IH]; simpl; [reflexivity|].
  destruct (start_index x <=? start_index y); [reflexivity|].
  rewrite IH. apply perm_swap.
Qed.

Lemma sort_by_start_perm (l : list item) : Permutation (sort_by_start l) l.
Proof.
  induction l as [|x l IH]; simpl; [reflexivity|].
  rewrite insert_by_start_perm. by rewrite IH.
Qed.

Lemma item_le_start (x y : item) : item_le x y -> start_index x <= start_index y.
Proof. unfold item_le. lia. Qed.

Lemma insert_by_start_sorted (x : item) (l : list item) :
  StronglySorted item_le l ->
  Forall (fun y => rank x <= rank y) l ->
  StronglySorted item_le (insert_by_start x l).
Proof.
  induction l as [|y l IH]; intros Hs Hr; simpl.
  - repeat constructor.
  - apply StronglySorted_inv in Hs as [Hs Hy].
    apply Forall_cons in Hr as [Hxy Hr].
    destruct (Z.leb_spec (start_index x) (start_index y)) as [Hle|Hgt].
    + constructor; [by constructor|].
      constructor.
      * unfold item_le. lia.
      * rewrite Forall_forall in Hy, Hr. apply Forall_forall.
        intros z Hz. specialize (Hy z Hz). specialize (Hr z Hz).
        apply item_le_start in Hy. unfold item_le. lia.
    + constructor; [by apply IH|].
      rewrite insert_by_start_perm. constructor; [|exact Hy].
      unfold item_le. lia.
Qed.

Lemma sort_by_start_sorted (l : list item) :
  StronglySorted (fun x y => rank x <= rank y) l ->
  StronglySorted item_le (sort_by_start l).
Proof.
  induction l as [|x l IH]; intros Hs; simpl; [constructor|].
  apply StronglySorted_inv in Hs as [Hs Hx].
  apply insert_by_start_sorted; [by apply IH|].
  by rewrite sort_by_start_perm.
Qed.

(** Stability: the items with a given key keep their relative order. *)
Lemma insert_by_start_stable (k : Z) (x : item) (l : list item) :
  StronglySorted (fun a b => start_index a <= start_index b) l ->
  filter (fun y => start_index y = k) (insert_by_start x l)
  = filter (fun y => start_index y = k) (x :: l).
Proof.
  induction l as [|y l IH]; intros Hs; simpl; [reflexivity|].
  apply StronglySorted_inv in Hs as [Hs Hy].
  destruct (Z.leb_spec (start_index x) (start_index y)) as [Hle|Hgt];
    [reflexivity|].
  rewrite !filter_cons. rewrite !filter_cons in IH.
  rewrite (IH Hs).
  destruct (decide (start_index y = k)), (decide (start_index x = k));
    try reflexivity.
  lia.
Qed.

Lemma insert_by_start_le_sorted (x : item) (l : list item) :
  StronglySorted (fun a b => start_index a <= start_index b) l ->
  StronglySorted (fun a b => start_index a <= start_index b)
    (insert_by_start x l).
Proof.
  induction l as [|y l IH]; intros Hs; simpl.
  - repeat constructor.
  - pose proof Hs as Hs0. apply StronglySorted_inv in Hs as [Hs Hy].
    destruct (Z.leb_spec (start_index x) (start_index y)) as [Hle|Hgt].
    + constructor; [exact Hs0|].
      constructor; [exact Hle|].
      eapply Forall_impl; [exact Hy|]. simpl. intros z Hz. lia.
    + constructor; [by apply IH|].
      rewrite insert_by_start_perm. constructor; [lia | exact Hy].
Qed.

Lemma sort_by_start_le_sorted (l : list item) :
  StronglySorted (fun a b => start_index a <= start_index b) (sort_by_start l).
Proof.
  induction l as [|x l IH]; simpl; [constructor|].
  by apply insert_by_start_le_sorted.
Qed.

Lemma sort_by_start_stable (k : Z) (l : list item) :
  filter (fun y => start_index y = k) (sort_by_start l)
  = filter (fun y => start_index y = k) l.
Proof.
  induction l as [|x l IH]; simpl; [reflexivity|].
  rewrite insert_by_start_stable by apply sort_by_start_le_sorted.
  rewrite !filter_cons, IH. reflexivity.
Qed.

(** The concatenation of line 102 lists the families in increasing rank. *)
Lemma concatenation_ranked (d : MarkdownDocument) :
  StronglySorted (fun x y => rank x <= rank y)
    (map ITable (tables d) ++ map ICode (code d)
     ++ map IImage (images d) ++ map IChunk (chunks d)).
Proof.
  assert (Hmap : forall (A : Type) (f : A -> item) (r : Z) (l : list A)
                   (rest : list item),
             (forall a, rank (f a) = r) ->
             Forall (fun y => r <= rank y) rest ->
             StronglySorted (fun x y => rank x <= rank y) rest ->
             StronglySorted (fun x y => rank x <= rank y) (map f l ++ rest)).
  { intros A f r l rest Hf Hr Hs.
    induction l as [|a l IH]; simpl; [exact Hs|].
    constructor; [exact IH|].
    apply Forall_app. split.
    - apply Forall_forall. intros y Hy.
      apply list_elem_of_fmap in Hy as (a' & -> & _). rewrite !Hf. lia.
    - rewrite Hf. exact Hr. }
  assert (Hge : forall (A : Type) (f : A -> item) (r r' : Z) (l : list A),
             (forall a, rank (f a) = r') -> r <= r' ->
             Forall (fun y => r <= rank y) (map f l)).
  { intros A f r r' l Hf Hle. apply Forall_forall. intros y Hy.
    apply list_elem_of_fmap in Hy as (a' & -> & _). rewrite Hf. lia. }
  apply (Hmap _ ITable 0); [reflexivity | |].
  { repeat (apply Forall_app; split);
      [ apply (Hge _ ICode 0 1) | apply (Hge _ IImage 0 2)
      | apply (Hge _ IChunk 0 3) ]; (reflexivity || lia). }
  apply (Hmap _ ICode 1); [reflexivity | |].
  { repeat (apply Forall_app; split);
      [ apply (Hge _ IImage 1 2) | apply (Hge _ IChunk 1 3) ];
      (reflexivity || lia). }
  replace (map IChunk (chunks d)) with (map IChunk (chunks d) ++ [])
    by apply app_nil_r.
  apply (Hmap _ IImage 2); [reflexivity | |].
  { apply Forall_app; split; [apply (Hge _ IChunk 2 3)|constructor];
      (reflexivity || lia). }
  apply (Hmap _ IChunk 3); [reflexivity | constructor | constructor].
Qed.

Lemma items_of_sorted (d : MarkdownDocument) :
  StronglySorted item_le (items_of d).
Proof. apply sort_by_start_sorted, concatenation_ranked. Qed.

(** ** The loops of [parse_markdown] *)

Lemma numbered_app (n : Z) (l1 l2 : list Chunk) :
  numbered n (l1 ++ l2)
  = numbered n l1 ++ numbered (n + Z.of_nat (length l1)) l2.
Proof.
  revert n. induction l1 as [|c l1 IH]; intros n; simpl.
  - f_equal. lia.
  - rewrite IH. do 3 f_equal. lia.
Qed.

Lemma numbered_length (n : Z) (l : list Chunk) :
  length (numbered n l) = length l.
Proof. revert n. induction l; intros; simpl; [|rewrite IHl]; reflexivity. Qed.

Lemma numbered_text (n : Z) (l : list Chunk) :
  map pc_text (numbered n l) = map (fun c => strip (chunk_text c)) l.
Proof. revert n. induction l; intros; simpl; [|rewrite IHl]; reflexivity. Qed.

Lemma numbered_sequence (n : Z) (l : list Chunk) :
  map pc_sequence_number (numbered n l) = seqZ n (Z.of_nat (length l)).
Proof.
  revert n. induction l as [|c l IH]; intros n; simpl.
  - reflexivity.
  - rewrite seqZ_cons by lia. rewrite IH. do 2 f_equal. lia.
Qed.

Section ParseLoops.
Context {lib : Chonkie}.

Lemma emit_numbered (pieces : list Chunk) (final : list parsed_chunk) (n : Z) :
  emit pieces final n
  = (final ++ numbered n pieces, n + Z.of_nat (length pieces)).
Proof.
  revert final n. induction pieces as [|c pieces IH]; intros final n; simpl.
  - rewrite app_nil_r. f_equal. lia.
  - rewrite IH, <- app_assoc. simpl. f_equal. lia.
Qed.

Lemma route_loop_elements opts rules (items : list item) cs final n out :
  route_loop opts rules items cs final n = Ok out ->
  exists els : list (item * list Chunk),
    map fst els = items
    /\ Forall (fun el => produced opts rules (fst el) (snd el)) els
    /\ out = final ++ numbered n (flat_map snd els).
Proof.
  revert cs final n.
  induction items as [|x items IH]; intros cs final n H; simpl in H.
  - injection H as <-. exists []. simpl. rewrite app_nil_r. by repeat split.
  - destruct (route opts rules cs x) as [[cs' pieces]|e] eqn:Hr;
      [|discriminate].
    rewrite emit_numbered in H.
    apply IH in H as (els & Hfst & Hall & ->).
    exists ((x, pieces) :: els). simpl. split; [by rewrite Hfst|].
    split.
    + constructor; [|exact Hall]. by exists cs, cs'.
    + by rewrite numbered_app, app_assoc.
Qed.

Lemma parse_markdown_elements (markdown : string) opts out :
  parse_markdown markdown opts = Ok out ->
  exists els, elements opts markdown els
              /\ out = numbered 0 (flat_map snd els).
Proof.
  unfold parse_markdown. intros H.
  apply bind_Ok in H as (rules & Hrules & H).
  apply bind_Ok in H as (d & Hd & H).
  apply route_loop_elements in H as (els & Hfst & Hall & ->).
  exists els. split; [|reflexivity].
  by exists rules, d.
Qed.

Lemma tagged_pieces (els : list (item * list Chunk)) :
  map snd (tagged els) = flat_map snd els.
Proof.
  unfold tagged. induction els as [|[x ps] els IH]; simpl; [reflexivity|].
  rewrite map_app, IH. f_equal.
  rewrite map_map. simpl. apply map_id.
Qed.

Lemma tagged_sorted (R : relation item) (els : list (item * list Chunk)) :
  (forall x, R x x) ->
  StronglySorted R (map fst els) ->
  StronglySorted (fun a b => R (fst a) (fst b)) (tagged els).
Proof.
  intros Hrefl. unfold tagged.
  induction els as [|[x ps] els IH]; simpl; intros Hs; [constructor|].
  apply StronglySorted_inv in Hs as [Hs Hx].
  specialize (IH Hs).
  induction ps as [|p ps IHps]; simpl; [exact IH|].
  constructor; [exact IHps|].
  apply Forall_app. split.
  - apply Forall_forall. intros q Hq.
    apply list_elem_of_fmap in Hq as (p' & -> & _). simpl. apply Hrefl.
  - apply Forall_forall. intros q Hq.
    apply list_elem_of_In, in_flat_map in Hq as (el & Hel & Hq).
    apply in_map_iff in Hq as (p' & <- & _). simpl.
    rewrite Forall_forall in Hx. apply Hx.
    apply list_elem_of_fmap. exists el. split; [reflexivity|].
    by apply list_elem_of_In.
Qed.

End ParseLoops.

Lemma StronglySorted_lookup {A : Type} (R : relation A) (l : list A)
    (i j : nat) (a b : A) :
  StronglySorted R l -> l !! i = Some a -> l !! j = Some b ->
  (i < j)%nat -> R a b.
Proof.
  intros Hs. revert i j. induction Hs as [|x l Hs IH Hx]; intros i j Hi Hj Hlt.
  - rewrite lookup_nil in Hi. discriminate.
  - destruct j as [|j]; [lia|]. simpl in Hj.
    destruct i as [|i]; simpl in Hi.
    + injection Hi as <-. rewrite Forall_forall in Hx. apply Hx.
      by eapply list_elem_of_lookup_2.
    + apply (IH i j Hi Hj). lia.
Qed.

Lemma StronglySorted_weaken {A : Type} (R R' : relation A) (l : list A) :
  (forall a b, R a b -> R' a b) -> StronglySorted R l -> StronglySorted R' l.
Proof.
  intros Himp Hs. induction Hs as [|x l Hs IH Hx]; constructor; [exact IH|].
  eapply Forall_impl; [exact Hx|]. exact (Himp x).
Qed.

(** ** Properties of [parse_markdown] *)

Section Ordering.
Context {lib : Chonkie}.

(** C4: when [parse_markdown] returns, its records are the pieces of the
    items of the parsed document, numbered from 0, the items being visited
    in the stable order by [start_index] of the concatenation tables, code,
    images, prose.  So the sources of the chunks come in non-decreasing
    [start_index], and where two sources have the same [start_index] a chunk
    of a table precedes a chunk of a code block, which precedes a chunk of a
    prose segment. *)
Theorem chunks_in_start_index_order (markdown : string) (opts : ChunkOptions)
    (out : list parsed_chunk) :
  parse_markdown markdown opts = Ok out ->
  exists (rules : RecursiveRules) (d : MarkdownDocument)
         (els : list (item * list Chunk)),
    let concatenation :=
      map ITable (tables d) ++ map ICode (code d)
      ++ map IImage (images d) ++ map IChunk (chunks d) in
    chef_parse (String.append markdown (String "010"%char EmptyString)) = Ok d
    /\ map fst els = sort_by_start concatenation
    /\ Permutation (map fst els) concatenation
    /\ (forall k : Z,
          filter (fun x => start_index x = k) (map fst els)
          = filter (fun x => start_index x = k) concatenation)
    /\ Forall (fun el => produced opts rules (fst el) (snd el)) els
    /\ out = numbered 0 (map snd (tagged els))
    /\ map pc_sequence_number out = seqZ 0 (Z.of_nat (length (tagged els)))
    /\ StronglySorted
         (fun a b => start_index (fst a) <= start_index (fst b)) (tagged els)
    /\ (forall (i j : nat) (a b : item * Chunk),
          tagged els !! i = Some a -> tagged els !! j = Some b ->
          start_index (fst a) = start_index (fst b) ->
          rank (fst a) < rank (fst b) -> (i < j)%nat).
Proof.
  intros H.
  apply parse_markdown_elements in H as (els & (rules & d & Hr & Hd & Hfst & Hall) & ->).
  exists rules, d, els. cbv zeta.
  assert (Hsorted : StronglySorted (fun a b => item_le (fst a) (fst b))
                      (tagged els)).
  { apply tagged_sorted.
    - intros x. right. split; [reflexivity | lia].
    - rewrite Hfst. apply items_of_sorted. }
  split; [exact Hd|].
  split; [exact Hfst|].
  split; [rewrite Hfst; apply sort_by_start_perm|].
  split; [intros k; rewrite Hfst; apply sort_by_start_stable|].
  split; [exact Hall|].
  split; [by rewrite tagged_pieces|].
  split.
  { rewrite numbered_sequence. do 2 f_equal.
    by rewrite <- tagged_pieces, length_map. }
  split.
  { eapply StronglySorted_weaken; [|exact Hsorted].
    intros a b Hab. by apply item_le_start. }
  intros i j a b Hi Hj Hstart Hrank.
  destruct (decide (i < j)%nat) as [|Hge]; [assumption|exfalso].
  destruct (decide (i = j)) as [->|Hne].
  - rewrite Hi in Hj. injection Hj as <-. lia.
  - assert (Hji : (j < i)%nat) by lia.
    pose proof (StronglySorted_lookup _ _ _ _ _ _ Hsorted Hj Hi Hji) as Hle.
    unfold item_le in Hle. lia.
Qed.

End Ordering.

Lemma chunks_in_start_index_order_witness :
  parse_markdown (lib := Sample.lib) Sample.page1 (Sample.options None)
  = Ok Sample.page1_chunks
  /\ exists rules d els,
       chef_parse (lib := Sample.lib)
         (String.append Sample.page1 (String "010"%char EmptyString)) = Ok d
       /\ Forall (fun el => produced (lib := Sample.lib)
                              (Sample.options None) rules (fst el) (snd el))
            els
       /\ Sample.page1_chunks = numbered 0 (map snd (tagged els))
       /\ StronglySorted
            (fun a b => start_index (fst a) <= start_index (fst b))
            (tagged els).
Proof.
  assert (H : parse_markdown (lib := Sample.lib) Sample.page1
                (Sample.options None) = Ok Sample.page1_chunks)
    by (vm_compute; reflexivity).
  split; [exact H|].
  destruct (chunks_in_start_index_order _ _ _ H)
    as (rules & d & els & Hd & _ & _ & _ & Hall & Hout & _ & Hs & _).
  exists rules, d, els. repeat split; assumption.
Defined.

(** ** Images *)

Lemma sort_by_start_no_image (l : list item) :
  Forall (fun x => is_image x = false) l ->
  Forall (fun x => is_image x = false) (sort_by_start l).
Proof. intros H. by rewrite sort_by_start_perm. Qed.

Section Images.
Context {lib : Chonkie}.

(** C7: [extract_images] returns the empty list for every markdown.  The
    [parse] method of the base class stores in [images] what the
    [extract_images] method of the chef returns (hypothesis
    [parse_calls_method], a fact of the package); so the parsed document has
    no image, the list [items] holds no image, and every record returned by
    [parse_markdown] comes from a table, a code block or a prose segment. *)
Theorem images_never_chunked
    (parse_calls_method :
       forall (method : string -> list MarkdownImage) (markdown : string)
              (d : MarkdownDocument),
         MarkdownChef_parse method markdown = Ok d ->
         images d = method markdown)
    (markdown : string) (opts : ChunkOptions) :
  extract_images markdown = []
  /\ (forall d : MarkdownDocument,
        chef_parse markdown = Ok d ->
        images d = [] /\ Forall (fun x => is_image x = false) (items_of d))
  /\ (forall out : list parsed_chunk,
        parse_markdown markdown opts = Ok out ->
        exists els : list (item * list Chunk),
          elements opts markdown els
          /\ out = numbered 0 (flat_map snd els)
          /\ Forall (fun el => is_image (fst el) = false) els).
Proof.
  assert (Hitems : forall md d, chef_parse md = Ok d ->
            images d = []
            /\ Forall (fun x => is_image x = false) (items_of d)).
  { intros md d Hd. apply parse_calls_method in Hd.
    unfold extract_images in Hd. split; [exact Hd|].
    unfold items_of. apply sort_by_start_no_image. rewrite Hd. simpl.
    repeat (apply Forall_app; split);
      apply Forall_forall; intros x Hx;
      apply list_elem_of_fmap in Hx as (y & -> & _); reflexivity. }
  split; [reflexivity|].
  split; [apply Hitems|].
  intros out H.
  apply parse_markdown_elements in H as (els & Hels & ->).
  exists els. split; [exact Hels|]. split; [reflexivity|].
  destruct Hels as (rules & d & _ & Hd & Hfst & _).
  apply Hitems in Hd as [_ Hd]. rewrite <- Hfst in Hd.
  by apply Forall_fmap in Hd.
Qed.

(** An image that did reach the loop would yield no chunk either: reading
    its [text] raises. *)
Lemma route_image_raises (opts : ChunkOptions) (rules : RecursiveRules)
    (cs : chunkers) (i : MarkdownImage) :
  exists e, route opts rules cs (IImage i) = Raise e.
Proof.
  simpl. destruct (get_recursive opts cs (RulesObject rules)); simpl; eauto.
Qed.

End Images.

Lemma images_never_chunked_witness :
  (forall method markdown d,
     MarkdownChef_parse (Chonkie := Sample.lib) method markdown = Ok d ->
     images d = method markdown)
  /\ parse_markdown (lib := Sample.lib) "![logo](a.png)" (Sample.options None)
     = Ok [ {| pc_text := "![logo](a.png)"; pc_sequence_number := 0 |} ]
  /\ forall out,
       parse_markdown (lib := Sample.lib) "![logo](a.png)"
         (Sample.options None) = Ok out ->
       exists els,
         elements (lib := Sample.lib) (Sample.options None) "![logo](a.png)"
           els
         /\ out = numbered 0 (flat_map snd els)
         /\ Forall (fun el => is_image (fst el) = false) els.
Proof.
  assert (H : forall method markdown d,
             MarkdownChef_parse (Chonkie := Sample.lib) method markdown = Ok d ->
             images d = method markdown).
  { intros method markdown d Hd. simpl in Hd. unfold Sample.parse in Hd.
    injection Hd as <-. reflexivity. }
  split; [exact H|].
  split; [vm_compute; reflexivity|].
  exact (proj2 (proj2 (images_never_chunked (lib := Sample.lib) H
                         "![logo](a.png)" (Sample.options None)))).
Defined.

(** ** The fallback of the code splitter *)

Section Fallback.
Context {lib : Chonkie}.

Lemma try_code_recursive (opts : ChunkOptions) (cs : chunkers)
    (c : MarkdownCode) :
  recursive_chunker (fst (try_code opts cs c)) = recursive_chunker cs.
Proof.
  unfold try_code.
  destruct (code_chunker cs) as [cc|], (code_language c) as [l|]; simpl;
    try destruct (negb _); simpl;
    try destruct (CodeChunker_new _ _); reflexivity.
Qed.

(** A prose splitter that exists is never replaced. *)
Lemma route_keeps_recursive (opts : ChunkOptions) (rules : RecursiveRules)
    (cs cs' : chunkers) (x : item) (pieces : list Chunk)
    (rc : RecursiveChunker) :
  route opts rules cs x = Ok (cs', pieces) ->
  recursive_chunker cs = Some rc -> recursive_chunker cs' = Some rc.
Proof.
  intros H Hrc. destruct x as [t|c|i|c]; simpl in H.
  - apply bind_Ok in H as (tc & _ & H). apply bind_Ok in H as (ps & _ & H).
    injection H as <- <-. exact Hrc.
  - pose proof (try_code_recursive opts cs c) as Hkeep.
    destruct (try_code opts cs c) as [cs1 [ps|e]]; simpl in Hkeep.
    + injection H as <- <-. by rewrite Hkeep.
    + unfold code_fallback, get_recursive in H.
      rewrite Hkeep, Hrc in H. simpl in H.
      apply bind_Ok in H as (ps & _ & H). by injection H as <- <-.
  - apply bind_Ok in H as (rc' & _ & H). discriminate.
  - unfold get_recursive in H. rewrite Hrc in H. simpl in H.
    apply bind_Ok in H as (ps & _ & H). by injection H as <- <-.
Qed.

End Fallback.

Section CodeErrors.
Context {lib : Chonkie}.
Variable f : exn -> exn.

Lemma try_code_relabel (opts : ChunkOptions) (cs : chunkers)
    (c : MarkdownCode) :
  try_code (lib := with_code_errors f lib) opts cs c
  = (fst (try_code opts cs c), relabel f (snd (try_code opts cs c))).
Proof.
  unfold try_code. simpl.
  destruct (code_chunker cs) as [cc|], (code_language c) as [l|]; simpl;
    try destruct (negb _); simpl;
    try destruct (CodeChunker_new _ _); reflexivity.
Qed.

Lemma route_relabel (opts : ChunkOptions) (rules : RecursiveRules)
    (cs : chunkers) (x : item) :
  route (lib := with_code_errors f lib) opts rules cs x
  = route opts rules cs x.
Proof.
  destruct x as [t|c|i|c]; try reflexivity.
  simpl. rewrite try_code_relabel.
  destruct (try_code opts cs c) as [cs1 [ps|e]]; reflexivity.
Qed.

Lemma route_loop_relabel (opts : ChunkOptions) (rules : RecursiveRules)
    (items : list item) (cs : chunkers) (final : list parsed_chunk) (n : Z) :
  route_loop (lib := with_code_errors f lib) opts rules items cs final n
  = route_loop opts rules items cs final n.
Proof.
  revert cs final n. induction items as [|x items IH]; intros cs final n;
    simpl; [reflexivity|].
  rewrite route_relabel.
  destruct (route opts rules cs x) as [[cs' pieces]|e]; [|reflexivity].
  destruct (emit pieces final n). apply IH.
Qed.

Lemma parse_markdown_relabel (markdown : string) (opts : ChunkOptions) :
  parse_markdown (lib := with_code_errors f lib) markdown opts
  = parse_markdown markdown opts.
Proof.
  unfold parse_markdown.
  change (@select_rules (with_code_errors f lib)) with (@select_rules lib).
  change (@chef_parse (with_code_errors f lib)) with (@chef_parse lib).
  destruct (select_rules (language_code opts)) as [rules|e]; [|reflexivity].
  cbn [mbind res_bind].
  destruct (chef_parse _) as [d|e]; [|reflexivity].
  cbn [mbind res_bind]. apply route_loop_relabel.
Qed.

Lemma doc_loop_relabel uuid4 docs batch_size opts st :
  doc_loop (lib := with_code_errors f lib) uuid4 docs batch_size opts st
  = doc_loop uuid4 docs batch_size opts st.
Proof.
  revert st. induction docs as [|doc docs IH]; intros st; simpl;
    [reflexivity|].
  rewrite parse_markdown_relabel.
  destruct (parse_markdown (doc_text doc) opts) as [out|e]; [|reflexivity].
  simpl. destruct (chunk_loop uuid4 batch_size (page_of doc) out st);
    [apply IH|reflexivity].
Qed.

End CodeErrors.

Section FallbackClaims.
Context {lib : Chonkie}.



End FallbackClaims.





(** ** The loops of [chunk_documents] *)

Lemma flat_snoc (bs : list batch_entry) (e : batch_entry) :
  flat (bs ++ [e]) = flat bs ++ entry_chunks e.
Proof. unfold flat. rewrite map_app, concat_app. simpl. by rewrite app_nil_r. Qed.

Lemma pack_flat (batch_size : option Z) (bs bs' : list batch_entry)
    (tb tb' : Z) (d : chunk_dict) :
  pack batch_size bs tb d = Ok (bs', tb') -> flat bs' = flat bs ++ [d].
Proof.
  unfold pack. destruct batch_size as [b|].
  - destruct (last bs) as [e|] eqn:Hlast.
    + apply last_Some in Hlast as [bs0 ->].
      destruct (b =? 0); [discriminate|].
      destruct (len_entry e mod b =? 0).
      * intros H. injection H as <- <-. by rewrite flat_snoc.
      * destruct e as [d0|g]; [discriminate|].
        intros H. injection H as <- <-.
        rewrite removelast_last, !flat_snoc. simpl. by rewrite app_assoc.
    + intros H. injection H as <- <-. by rewrite flat_snoc.
  - intros H. injection H as <- <-. by rewrite flat_snoc.
Qed.

(** [total_batches] grows by the number of entries added to [batches]. *)
Lemma pack_total_batches (b : Z) (bs bs' : list batch_entry) (tb tb' : Z)
    (d : chunk_dict) :
  pack (Some b) bs tb d = Ok (bs', tb') ->
  tb' - tb = Z.of_nat (length bs') - Z.of_nat (length bs).
Proof.
  unfold pack. destruct (last bs) as [e|] eqn:Hlast.
  - apply last_Some in Hlast as [bs0 ->].
    destruct (b =? 0); [discriminate|].
    destruct (len_entry e mod b =? 0).
    + intros H. injection H as <- <-. rewrite !length_app. simpl. lia.
    + destruct e as [d0|g]; [discriminate|].
      intros H. injection H as <- <-.
      rewrite removelast_last, !length_app. simpl. lia.
  - intros H. injection H as <- <-. rewrite !length_app. simpl. lia.
Qed.

Section DocumentLoops.
Context {lib : Chonkie}.
Variable uuid4 : nat -> string.

Lemma add_chunk_Ok batch_size page st chunk st' :
  add_chunk uuid4 batch_size page st chunk = Ok st' ->
  exists bs' tb',
    pack batch_size (batches st) (total_batches st)
      {| id := uuid4 (drawn st); text := pc_text chunk;
         metadata := {| sequence_number := total_chunks st;
                        page_number := page |} |} = Ok (bs', tb')
    /\ st' = {| batches := bs';
                total_characters := total_characters st + len (pc_text chunk);
                total_chunks := total_chunks st + 1;
                total_batches := tb';
                drawn := S (drawn st) |}.
Proof.
  unfold add_chunk. intros H.
  apply bind_Ok in H as ([bs' tb'] & Hpack & H). injection H as <-.
  by exists bs', tb'.
Qed.

Lemma add_chunk_flat batch_size page st chunk st' :
  add_chunk uuid4 batch_size page st chunk = Ok st' ->
  flat (batches st')
  = flat (batches st)
    ++ [ {| id := uuid4 (drawn st); text := pc_text chunk;
            metadata := {| sequence_number := total_chunks st;
                           page_number := page |} |} ].
Proof.
  intros H. apply add_chunk_Ok in H as (bs' & tb' & Hpack & ->). simpl.
  by apply pack_flat in Hpack.
Qed.

Lemma chunk_loop_records batch_size page cs st st' :
  chunk_loop uuid4 batch_size page cs st = Ok st' ->
  exists ds : list chunk_dict,
    flat (batches st') = flat (batches st) ++ ds
    /\ map text ds = map pc_text cs
    /\ Forall (fun d => page_number_of d = page) ds.
Proof.
  revert st. induction cs as [|c cs IH]; intros st H; simpl in H.
  - injection H as <-. exists []. by rewrite app_nil_r.
  - apply bind_Ok in H as (st1 & Hadd & H).
    apply IH in H as (ds & Hflat & Htext & Hpage).
    apply add_chunk_flat in Hadd. rewrite Hadd, <- app_assoc in Hflat.
    eexists. split; [exact Hflat|]. simpl. split; [by rewrite Htext|].
    by constructor.
Qed.

Lemma doc_loop_records docs batch_size opts st st' :
  doc_loop uuid4 docs batch_size opts st = Ok st' ->
  exists per_doc : list (list chunk_dict),
    flat (batches st') = flat (batches st) ++ concat per_doc
    /\ Forall2
         (fun doc ds =>
            Forall (fun d => page_number_of d = page_of doc) ds
            /\ exists out, parse_markdown (doc_text doc) opts = Ok out
                           /\ map text ds = map pc_text out)
         docs per_doc.
Proof.
  revert st. induction docs as [|doc docs IH]; intros st H; simpl in H.
  - injection H as <-. exists []. simpl. rewrite app_nil_r. by split.
  - apply bind_Ok in H as (out & Hparse & H).
    apply bind_Ok in H as (st1 & Hloop & H).
    apply chunk_loop_records in Hloop as (ds & Hflat & Htext & Hpage).
    apply IH in H as (per_doc & Hflat' & Hall).
    exists (ds :: per_doc). simpl. split.
    + by rewrite Hflat', Hflat, app_assoc.
    + constructor; [|exact Hall]. split; [exact Hpage|]. by exists out.
Qed.

(** A property of the state kept by each chunk is kept by the call. *)
Lemma doc_loop_invariant (I : acc -> Prop) docs batch_size opts st st' :
  (forall page st c st',
     I st -> add_chunk uuid4 batch_size page st c = Ok st' -> I st') ->
  I st -> doc_loop uuid4 docs batch_size opts st = Ok st' -> I st'.
Proof.
  intros Hstep. revert st.
  assert (Hchunks : forall page cs st st',
            I st -> chunk_loop uuid4 batch_size page cs st = Ok st' -> I st').
  { intros page cs. induction cs as [|c cs IH]; intros st0 st1 HI H; simpl in H.
    - by injection H as <-.
    - apply bind_Ok in H as (st2 & Hadd & H). eauto. }
  induction docs as [|doc docs IH]; intros st HI H; simpl in H.
  - by injection H as <-.
  - apply bind_Ok in H as (out & _ & H).
    apply bind_Ok in H as (st1 & Hloop & H). eauto.
Qed.

Lemma add_chunk_counted batch_size page st c st' :
  counted uuid4 st -> add_chunk uuid4 batch_size page st c = Ok st' ->
  counted uuid4 st'.
Proof.
  intros (Hn & Hseq & Hdrawn & Hid & Hchars) H.
  pose proof (add_chunk_flat _ _ _ _ _ H) as Hflat.
  apply add_chunk_Ok in H as (bs' & tb' & _ & ->).
  unfold counted.
  cbn [batches total_characters total_chunks total_batches drawn] in *.
  rewrite Hflat, !map_app, length_app.
  cbn [map length seq_of id text metadata sequence_number].
  split; [lia|]. split.
  { rewrite Hn. replace (Z.of_nat (length (flat (batches st))) + 1)
      with (Z.of_nat (S (length (flat (batches st))))) by lia.
    rewrite seqZ_S. rewrite <- Hn, <- Hseq. reflexivity. }
  split; [lia|]. split.
  { rewrite seq_S, map_app. cbn [map Nat.add]. by rewrite Hid. }
  rewrite foldr_app. cbn [foldr text]. rewrite Hchars.
  generalize (len (pc_text c)). clear.
  induction (flat (batches st)) as [|d l IH]; intros z; simpl.
  - lia.
  - rewrite <- IH. lia.
Qed.

Lemma acc_init_counted : counted uuid4 acc_init.
Proof. repeat split. Qed.

End DocumentLoops.

(** In a list numbered from 0, each segment is numbered from the length of
    what precedes it. *)
Lemma segment_numbers {A : Type} (f : A -> Z) (L : list (list A)) (n : Z)
    (k : nat) (ds : list A) :
  map f (concat L) = seqZ 0 n ->
  L !! k = Some ds ->
  map f ds
  = seqZ (Z.of_nat (length (concat (take k L)))) (Z.of_nat (length ds)).
Proof.
  intros Hseq Hk.
  assert (Hn : seqZ 0 n = seqZ 0 (Z.of_nat (length (concat L)))).
  { pose proof (f_equal length Hseq) as Hlen.
    rewrite length_map, length_seqZ in Hlen.
    destruct (decide (0 <= n)) as [Hpos|Hneg].
    - f_equal. lia.
    - rewrite seqZ_nil by lia. rewrite Hlen.
      replace (Z.to_nat n) with 0%nat by lia. reflexivity. }
  rewrite Hn in Hseq. clear Hn.
  rewrite <- (take_drop_middle L k ds Hk) in Hseq at 1 2.
  rewrite concat_app in Hseq. simpl in Hseq.
  rewrite !map_app, !length_app, !Nat2Z.inj_add in Hseq.
  rewrite !seqZ_app in Hseq by lia.
  apply app_inj_1 in Hseq as [_ Hseq];
    [|by rewrite length_map, length_seqZ, Nat2Z.id].
  apply app_inj_1 in Hseq as [Hseq _];
    [|by rewrite length_map, length_seqZ, Nat2Z.id].
  rewrite Hseq. f_equal.
Qed.

(** ** Numbering and pages *)

Section Numbering.
Context {lib : Chonkie}.
Variable uuid4 : nat -> string.

Lemma chunk_documents_Ok docs batch_size opts bs tc t tb :
  chunk_documents uuid4 docs batch_size opts = Ok (bs, tc, t, tb) ->
  exists st, doc_loop uuid4 docs batch_size opts acc_init = Ok st
             /\ bs = batches st /\ tc = total_characters st
             /\ t = total_chunks st /\ tb = total_batches st.
Proof.
  unfold chunk_documents. intros H.
  apply bind_Ok in H as (st & Hloop & H). injection H as <- <- <- <-.
  by exists st.
Qed.

Lemma chunk_documents_counted docs batch_size opts bs tc t tb :
  chunk_documents uuid4 docs batch_size opts = Ok (bs, tc, t, tb) ->
  t = Z.of_nat (length (flat bs))
  /\ map seq_of (flat bs) = seqZ 0 t
  /\ map id (flat bs) = map uuid4 (seq 0 (length (flat bs)))
  /\ tc = foldr (fun d n => len (text d) + n) 0 (flat bs).
Proof.
  intros H.
  apply chunk_documents_Ok in H as (st & Hloop & -> & -> & -> & ->).
  assert (Hc : counted uuid4 st).
  { eapply (doc_loop_invariant uuid4 (counted uuid4));
      [|apply acc_init_counted|exact Hloop].
    intros page st0 c st1. apply add_chunk_counted. }
  destruct Hc as (Hn & Hseq & Hdrawn & Hid & Hchars).
  split; [exact Hn|]. split; [exact Hseq|].
  split; [by rewrite <- Hdrawn | exact Hchars].
Qed.

(** C1: the sequence numbers of the records returned by one call are 0, 1,
    ..., [total_chunks - 1] in the order of the records, without gap or
    repeat.  The records are those of the first document, then those of the
    second, and so on; inside a document they follow the items in the order
    of the router and, inside an item, the pieces in the order of the
    splitter.  The counter is not reset: the records of the k-th document
    are numbered from the number of records of the documents before it. *)
Theorem sequence_numbers_run_across_documents (docs : list document)
    (batch_size : option Z) (opts : ChunkOptions) (bs : list batch_entry)
    (tc t tb : Z) :
  chunk_documents uuid4 docs batch_size opts = Ok (bs, tc, t, tb) ->
  t = Z.of_nat (length (flat bs))
  /\ map seq_of (flat bs) = seqZ 0 t
  /\ NoDup (map seq_of (flat bs))
  /\ exists per_doc : list (list chunk_dict),
       flat bs = concat per_doc
       /\ Forall2
            (fun doc ds =>
               exists els : list (item * list Chunk),
                 elements opts (doc_text doc) els
                 /\ map text ds
                    = map (fun c => strip (chunk_text c)) (flat_map snd els))
            docs per_doc
       /\ forall (k : nat) (ds : list chunk_dict),
            per_doc !! k = Some ds ->
            map seq_of ds
            = seqZ (Z.of_nat (length (concat (take k per_doc))))
                (Z.of_nat (length ds)).
Proof.
  intros H.
  destruct (chunk_documents_counted _ _ _ _ _ _ _ H) as (Ht & Hseq & _ & _).
  split; [exact Ht|]. split; [exact Hseq|].
  split; [rewrite Hseq; apply NoDup_seqZ|].
  apply chunk_documents_Ok in H as (st & Hloop & -> & _ & _ & _).
  apply doc_loop_records in Hloop as (per_doc & Hflat & Hall).
  simpl in Hflat. exists per_doc. split; [exact Hflat|]. split.
  - eapply Forall2_impl; [exact Hall|].
    intros doc ds (_ & out & Hparse & Htext).
    apply parse_markdown_elements in Hparse as (els & Hels & ->).
    exists els. split; [exact Hels|]. by rewrite Htext, numbered_text.
  - intros k ds Hk. rewrite Hflat in Hseq.
    by apply (segment_numbers _ _ _ _ _ Hseq).
Qed.

(** C5: every record made from a document carries the page of that document
    in [page_number] (for a page [p] that is not [None], [page_number] is
    [p]); the records of a later document carry the page of that document,
    and their sequence numbers continue those of the documents before. *)
Theorem page_number_is_the_documents (docs : list document)
    (batch_size : option Z) (opts : ChunkOptions) (bs : list batch_entry)
    (tc t tb : Z) :
  chunk_documents uuid4 docs batch_size opts = Ok (bs, tc, t, tb) ->
  exists per_doc : list (list chunk_dict),
    flat bs = concat per_doc
    /\ Forall2
         (fun doc ds =>
            (exists out, parse_markdown (doc_text doc) opts = Ok out
                         /\ map text ds = map pc_text out)
            /\ Forall (fun d => page_number_of d = page_of doc) ds
            /\ forall p : Z,
                 doc_page doc = PagePresent (Some p) ->
                 Forall (fun d => page_number_of d = Some p) ds)
         docs per_doc
    /\ map seq_of (concat per_doc) = seqZ 0 t
    /\ forall (k : nat) (ds : list chunk_dict),
         per_doc !! k = Some ds ->
         map seq_of ds
         = seqZ (Z.of_nat (length (concat (take k per_doc))))
             (Z.of_nat (length ds)).
Proof.
  intros H.
  destruct (chunk_documents_counted _ _ _ _ _ _ _ H) as (Ht & Hseq & _ & _).
  apply chunk_documents_Ok in H as (st & Hloop & -> & _ & _ & _).
  apply doc_loop_records in Hloop as (per_doc & Hflat & Hall).
  simpl in Hflat. rewrite Hflat in Hseq.
  exists per_doc. split; [exact Hflat|]. split.
  - eapply Forall2_impl; [exact Hall|].
    intros doc ds (Hpage & Hout). split; [exact Hout|].
    split; [exact Hpage|].
    intros p Hp. eapply Forall_impl; [exact Hpage|].
    intros d ->. unfold page_of. by rewrite Hp.
  - split; [exact Hseq|].
    intros k ds Hk. by apply (segment_numbers _ _ _ _ _ Hseq).
Qed.

End Numbering.

(** ** Batching *)

Lemma flat_groups (gs : list (list chunk_dict)) :
  flat (map BGroup gs) = concat gs.
Proof. unfold flat. rewrite map_map. simpl. by rewrite map_id. Qed.

Lemma flat_chunks (ds : list chunk_dict) : flat (map BChunk ds) = ds.
Proof.
  unfold flat. induction ds as [|d ds IH]; simpl; [reflexivity|].
  by rewrite IH.
Qed.

Lemma pack_first (b : Z) (tb : Z) (d : chunk_dict) :
  pack (Some b) [] tb d = Ok ([BGroup [d]], tb + 1).
Proof. reflexivity. Qed.

(** The last group is not full: the chunk joins it. *)
Lemma pack_open_group (b : Z) (bs0 : list batch_entry) (g : list chunk_dict)
    (tb : Z) (d : chunk_dict) :
  0 < b -> Z.of_nat (length g) mod b <> 0 ->
  pack (Some b) (bs0 ++ [BGroup g]) tb d
  = Ok (bs0 ++ [BGroup (g ++ [d])], tb).
Proof.
  intros Hb Hmod. unfold pack. rewrite last_snoc.
  destruct (Z.eqb_spec b 0) as [|_]; [lia|]. simpl.
  destruct (Z.eqb_spec (Z.of_nat (length g) mod b) 0) as [|_]; [lia|].
  by rewrite removelast_last.
Qed.

(** The last group is full: the chunk opens a group. *)
Lemma pack_full_group (b : Z) (bs0 : list batch_entry) (g : list chunk_dict)
    (tb : Z) (d : chunk_dict) :
  0 < b -> Z.of_nat (length g) mod b = 0 ->
  pack (Some b) (bs0 ++ [BGroup g]) tb d
  = Ok ((bs0 ++ [BGroup g]) ++ [BGroup [d]], tb + 1).
Proof.
  intros Hb Hmod. unfold pack. rewrite last_snoc.
  destruct (Z.eqb_spec b 0) as [|_]; [lia|]. simpl.
  destruct (Z.eqb_spec (Z.of_nat (length g) mod b) 0) as [_|]; [|lia].
  reflexivity.
Qed.

Lemma pack_well_grouped (b : Z) (gs : list (list chunk_dict)) (tb : Z)
    (d : chunk_dict) :
  0 < b -> well_grouped b gs ->
  exists gs',
    pack (Some b) (map BGroup gs) tb d
    = Ok (map BGroup gs', tb + (Z.of_nat (length gs') - Z.of_nat (length gs)))
    /\ well_grouped b gs'.
Proof.
  intros Hb [->|(full & g & -> & Hfull & Hg)].
  - exists [[d]]. split; [reflexivity|].
    right. exists [], [d]. simpl. repeat split; [constructor|lia..].
  - rewrite map_app. cbn [map].
    destruct (decide (Z.of_nat (length g) = b)) as [Heq|Hne].
    + exists ((full ++ [g]) ++ [[d]]). split.
      * rewrite pack_full_group by (rewrite ?Heq, ?Z_mod_same_full; lia).
        rewrite !map_app, !length_app. simpl. do 2 f_equal. lia.
      * right. exists (full ++ [g]), [d]. split; [reflexivity|].
        split; [|simpl; lia].
        apply Forall_app. split; [exact Hfull|]. by repeat constructor.
    + exists (full ++ [g ++ [d]]). split.
      * rewrite pack_open_group; [| lia |rewrite Z.mod_small; lia].
        rewrite !map_app, !length_app. simpl. do 2 f_equal. lia.
      * right. exists full, (g ++ [d]). split; [reflexivity|].
        split; [exact Hfull|]. rewrite length_app. simpl. lia.
Qed.

Lemma well_grouped_length (b : Z) (gs : list (list chunk_dict)) :
  0 < b -> well_grouped b gs ->
  let t := Z.of_nat (length (concat gs)) in
  let n := Z.of_nat (length gs) in
  n = (t + b - 1) / b /\ b * (n - 1) < t <= b * n.
Proof.
  intros Hb [->|(full & g & -> & Hfull & Hg)]; cbv zeta.
  - simpl. split; [|lia]. symmetry. apply Z.div_small. lia.
  - assert (Hlen : Z.of_nat (length (concat full))
                   = b * Z.of_nat (length full)).
    { clear Hg. induction Hfull as [|h full Hh _ IH]; simpl; [lia|].
      rewrite length_app. lia. }
    rewrite concat_app, !length_app. simpl. rewrite app_nil_r.
    rewrite !Nat2Z.inj_add, Hlen. simpl (Z.of_nat 1).
    split; [|lia].
    apply (Z.div_unique _ _ _ (Z.of_nat (length g) - 1)); lia.
Qed.

Lemma well_grouped_sizes (b : Z) (gs : list (list chunk_dict)) :
  well_grouped b gs ->
  (forall (i : nat) (g : list chunk_dict),
     gs !! i = Some g -> (S i < length gs)%nat -> Z.of_nat (length g) = b)
  /\ (forall g, last gs = Some g -> 1 <= Z.of_nat (length g) <= b).
Proof.
  intros [->|(full & g & -> & Hfull & Hg)]; split.
  - intros i g Hi. rewrite lookup_nil in Hi. discriminate.
  - discriminate.
  - intros i h Hi Hlt. rewrite length_app in Hlt. simpl in Hlt.
    rewrite lookup_app_l in Hi by lia.
    rewrite Forall_forall in Hfull. apply Hfull.
    by eapply list_elem_of_lookup_2.
  - intros h Hlast. rewrite last_snoc in Hlast. by injection Hlast as <-.
Qed.

Section Batching.
Context {lib : Chonkie}.
Variable uuid4 : nat -> string.

Lemma add_chunk_grouped b page st c :
  0 < b -> grouped b st ->
  exists st', add_chunk uuid4 (Some b) page st c = Ok st' /\ grouped b st'.
Proof.
  intros Hb (gs & Hbs & Htb & Hgs). unfold add_chunk. rewrite Hbs.
  edestruct (pack_well_grouped b gs (total_batches st)) as (gs' & -> & Hgs');
    [exact Hb|exact Hgs|].
  simpl. eexists. split; [reflexivity|].
  exists gs'. simpl. split; [reflexivity|]. split; [lia|exact Hgs'].
Qed.

Lemma acc_init_grouped b : grouped b acc_init.
Proof. exists []. repeat split. by left. Qed.

Lemma doc_loop_grouped b docs opts st :
  0 < b ->
  doc_loop uuid4 docs (Some b) opts acc_init = Ok st -> grouped b st.
Proof.
  intros Hb H.
  eapply (doc_loop_invariant uuid4 (grouped b));
    [|apply acc_init_grouped|exact H].
  intros page st0 c st1 Hg Hadd.
  destruct (add_chunk_grouped b page st0 c Hb Hg) as (st2 & Hadd' & Hg').
  rewrite Hadd in Hadd'. by injection Hadd' as ->.
Qed.

Lemma add_chunk_ungrouped page st c st' :
  ungrouped st -> add_chunk uuid4 None page st c = Ok st' -> ungrouped st'.
Proof.
  intros (ds & Hbs & Htb) H.
  apply add_chunk_Ok in H as (bs' & tb' & Hpack & ->).
  simpl in Hpack. injection Hpack as <- <-.
  eexists (ds ++ [_]). simpl. rewrite Hbs, map_app. by split.
Qed.

(** C3: under a batch size [b > 0], [batches] is a list of groups that
    holds the records in order; there are [ceil(t/b)] groups for [t]
    records, every group but the last has [b] records, the last has between
    1 and [b], and [total_batches] is the number of groups, since each call
    of [pack] raises it by the number of groups it adds. *)
Theorem batches_have_exact_size (b : Z) (docs : list document)
    (opts : ChunkOptions) (bs : list batch_entry) (tc t tb : Z) :
  0 < b ->
  chunk_documents uuid4 docs (Some b) opts = Ok (bs, tc, t, tb) ->
  exists gs : list (list chunk_dict),
    bs = map BGroup gs
    /\ Z.of_nat (length (concat gs)) = t
    /\ map seq_of (concat gs) = seqZ 0 t
    /\ Z.of_nat (length gs) = (t + b - 1) / b
    /\ b * (Z.of_nat (length gs) - 1) < t <= b * Z.of_nat (length gs)
    /\ (forall (i : nat) (g : list chunk_dict),
          gs !! i = Some g -> (S i < length gs)%nat ->
          Z.of_nat (length g) = b)
    /\ (forall g, last gs = Some g -> 1 <= Z.of_nat (length g) <= b)
    /\ tb = Z.of_nat (length gs)
    /\ (forall (bs1 bs2 : list batch_entry) (tb1 tb2 : Z) (d : chunk_dict),
          pack (Some b) bs1 tb1 d = Ok (bs2, tb2) ->
          tb2 - tb1 = Z.of_nat (length bs2) - Z.of_nat (length bs1)).
Proof.
  intros Hb H.
  destruct (chunk_documents_counted _ _ _ _ _ _ _ _ H) as (Ht & Hseq & _ & _).
  apply chunk_documents_Ok in H as (st & Hloop & -> & _ & -> & ->).
  apply doc_loop_grouped in Hloop as (gs & Hbs & Htb & Hgs); [|exact Hb].
  rewrite Hbs, flat_groups in Ht, Hseq.
  destruct (well_grouped_length b gs Hb Hgs) as [Hn Hbounds].
  destruct (well_grouped_sizes b gs Hgs) as [Hfull Hlast].
  rewrite <- Ht in Hn, Hbounds.
  exists gs.
  split; [exact Hbs|]. split; [lia|]. split; [exact Hseq|].
  split; [exact Hn|]. split; [exact Hbounds|]. split; [exact Hfull|].
  split; [exact Hlast|]. split; [exact Htb|].
  intros bs1 bs2 tb1 tb2 d. apply pack_total_batches.
Qed.

(** C8: with [batch_size = None], [batches] is the list of the chunk records
    themselves, one for each chunk that [parse_markdown] returned, in
    order, and [total_batches] is 0. *)
Theorem no_batching_returns_flat_list (docs : list document)
    (opts : ChunkOptions) (bs : list batch_entry) (tc t tb : Z) :
  chunk_documents uuid4 docs None opts = Ok (bs, tc, t, tb) ->
  tb = 0
  /\ exists ds : list chunk_dict,
       bs = map BChunk ds
       /\ Z.of_nat (length ds) = t
       /\ map seq_of ds = seqZ 0 t
       /\ exists per_doc : list (list chunk_dict),
            ds = concat per_doc
            /\ Forall2
                 (fun doc rs =>
                    exists out, parse_markdown (doc_text doc) opts = Ok out
                                /\ map text rs = map pc_text out)
                 docs per_doc.
Proof.
  intros H.
  destruct (chunk_documents_counted _ _ _ _ _ _ _ _ H) as (Ht & Hseq & _ & _).
  apply chunk_documents_Ok in H as (st & Hloop & -> & _ & -> & ->).
  assert (Hu : ungrouped st).
  { eapply (doc_loop_invariant uuid4 ungrouped); [| |exact Hloop].
    - intros page st0 c st1. apply add_chunk_ungrouped.
    - by exists []. }
  destruct Hu as (ds & Hbs & Htb).
  split; [exact Htb|]. exists ds.
  rewrite Hbs, flat_chunks in Ht, Hseq.
  split; [exact Hbs|]. split; [lia|]. split; [exact Hseq|].
  apply doc_loop_records in Hloop as (per_doc & Hflat & Hall).
  rewrite Hbs, flat_chunks in Hflat. simpl in Hflat.
  exists per_doc. split; [exact Hflat|].
  eapply Forall2_impl; [exact Hall|].
  intros doc rs (_ & Hout). exact Hout.
Qed.

End Batching.

(** Groups of given sizes are determined by their concatenation. *)
Lemma concat_inj_lengths {A : Type} (gs gs' : list (list A)) :
  map length gs = map length gs' -> concat gs = concat gs' -> gs = gs'.
Proof.
  revert gs'. induction gs as [|g gs IH]; intros [|g' gs'] Hlen Hcat;
    simpl in *; try discriminate; [reflexivity|].
  injection Hlen as Hg Hlen.
  apply app_inj_1 in Hcat as [-> Hcat]; [|exact Hg].
  f_equal. by apply IH.
Qed.

Lemma full_groups_lengths (b : Z) (full : list (list chunk_dict)) :
  Forall (fun h => Z.of_nat (length h) = b) full ->
  map length full = replicate (length full) (Z.to_nat b)
  /\ Z.of_nat (length (concat full)) = b * Z.of_nat (length full).
Proof.
  induction 1 as [|h full Hh _ [IH1 IH2]]; simpl; [split; [reflexivity|lia]|].
  rewrite IH1, length_app. split; [f_equal|]; lia.
Qed.

Lemma well_grouped_unique (b : Z) (gs gs' : list (list chunk_dict)) :
  0 < b -> well_grouped b gs -> well_grouped b gs' ->
  concat gs = concat gs' -> gs = gs'.
Proof.
  intros Hb Hgs Hgs' Hcat.
  apply concat_inj_lengths; [|exact Hcat].
  apply (f_equal length) in Hcat.
  destruct Hgs as [->|(full & g & -> & Hfull & Hg)],
           Hgs' as [->|(full' & g' & -> & Hfull' & Hg')];
    try reflexivity;
    rewrite ?concat_app, ?length_app in Hcat; simpl in Hcat;
    rewrite ?app_nil_r in Hcat.
  - lia.
  - lia.
  - apply full_groups_lengths in Hfull as [Hl Hc], Hfull' as [Hl' Hc'].
    assert (Hn : length full = length full') by nia.
    rewrite !map_app, Hl, Hl', Hn. simpl. do 2 f_equal. nia.
Qed.

Section Boundaries.
Context {lib : Chonkie}.

Lemma doc_loop_app uuid4 docs1 docs2 batch_size opts st :
  doc_loop uuid4 (docs1 ++ docs2) batch_size opts st
  = (st1 ← doc_loop uuid4 docs1 batch_size opts st;
     doc_loop uuid4 docs2 batch_size opts st1).
Proof.
  revert st. induction docs1 as [|doc docs1 IH]; intros st; simpl;
    [reflexivity|].
  destruct (parse_markdown (doc_text doc) opts) as [out|e]; simpl;
    [|reflexivity].
  destruct (chunk_loop uuid4 batch_size (page_of doc) out st) as [st1|e];
    simpl; [apply IH|reflexivity].
Qed.

(** C9: under a batch size [b > 0],
    - a chunk is always accepted, and the state it leaves has full groups
      followed by one group of 1 to [b] records;
    - when the documents [docs1] leave a last group that is not full, the
      first chunk of the next document joins that group, [total_batches]
      is unchanged, and the call goes on from there;
    - two calls that return the same records in the same order return the
      same groups, however the records are spread over the documents. *)
Theorem groups_ignore_document_boundaries (b : Z) (uuid4 : nat -> string)
    (opts : ChunkOptions) :
  0 < b ->
  (forall (page : option Z) (st : acc) (c : parsed_chunk),
     grouped b st ->
     exists st', add_chunk uuid4 (Some b) page st c = Ok st' /\ grouped b st')
  /\ (forall (docs1 docs2 : list document) (doc : document) (st1 : acc)
             (bs0 : list batch_entry) (g : list chunk_dict)
             (c : parsed_chunk) (cs : list parsed_chunk),
        doc_loop uuid4 docs1 (Some b) opts acc_init = Ok st1 ->
        batches st1 = bs0 ++ [BGroup g] ->
        Z.of_nat (length g) mod b <> 0 ->
        parse_markdown (doc_text doc) opts = Ok (c :: cs) ->
        exists st2,
          add_chunk uuid4 (Some b) (page_of doc) st1 c = Ok st2
          /\ batches st2
             = bs0 ++ [BGroup (g ++ [ {| id := uuid4 (drawn st1);
                                         text := pc_text c;
                                         metadata :=
                                           {| sequence_number := total_chunks st1;
                                              page_number := page_of doc |} |} ])]
          /\ total_batches st2 = total_batches st1
          /\ grouped b st2
          /\ doc_loop uuid4 (docs1 ++ doc :: docs2) (Some b) opts acc_init
             = (st3 ← chunk_loop uuid4 (Some b) (page_of doc) cs st2;
                doc_loop uuid4 docs2 (Some b) opts st3))
  /\ (forall (uuid4' : nat -> string) (opts' : ChunkOptions)
             (docs docs' : list document) (bs bs' : list batch_entry)
             (tc tc' t t' tb tb' : Z),
        chunk_documents uuid4 docs (Some b) opts = Ok (bs, tc, t, tb) ->
        chunk_documents uuid4' docs' (Some b) opts' = Ok (bs', tc', t', tb') ->
        flat bs = flat bs' -> bs = bs' /\ tb = tb').
Proof.
  intros Hb. split; [|split].
  - intros page st c. by apply add_chunk_grouped.
  - intros docs1 docs2 doc st1 bs0 g c cs Hloop Hbs Hmod Hparse.
    pose proof (doc_loop_grouped uuid4 b docs1 opts st1 Hb Hloop) as Hg.
    destruct (add_chunk_grouped uuid4 b (page_of doc) st1 c Hb Hg)
      as (st2 & Hadd & Hg2).
    exists st2. split; [exact Hadd|].
    pose proof Hadd as Hadd'.
    apply add_chunk_Ok in Hadd' as (bs' & tb' & Hpack & ->).
    rewrite Hbs, pack_open_group in Hpack by assumption.
    injection Hpack as <- <-. simpl.
    split; [reflexivity|]. split; [reflexivity|]. split; [exact Hg2|].
    rewrite doc_loop_app, Hloop. simpl. rewrite Hparse. simpl.
    rewrite Hadd. reflexivity.
  - intros uuid4' opts' docs docs' bs bs' tc tc' t t' tb tb' H H' Hflat.
    apply chunk_documents_Ok in H as (st & Hloop & -> & _ & _ & ->).
    apply chunk_documents_Ok in H' as (st' & Hloop' & -> & _ & _ & ->).
    apply doc_loop_grouped in Hloop as (gs & Hbs & Htb & Hgs); [|exact Hb].
    apply doc_loop_grouped in Hloop' as (gs' & Hbs' & Htb' & Hgs');
      [|exact Hb].
    rewrite Hbs, Hbs', !flat_groups in Hflat.
    assert (gs = gs') as <- by by apply (well_grouped_unique b).
    split; [by rewrite Hbs, Hbs' | by rewrite Htb, Htb'].
Qed.

End Boundaries.

(** ** Two runs *)

Lemma len_entry_erase (e1 e2 : batch_entry) :
  erase_entry e1 = erase_entry e2 -> len_entry e1 = len_entry e2.
Proof.
  destruct e1 as [d1|g1], e2 as [d2|g2]; simpl; intros H;
    try discriminate; [reflexivity|].
  injection H as H. apply (f_equal length) in H.
  rewrite !length_map in H. lia.
Qed.

Lemma pack_erase (batch_size : option Z) (bs1 bs2 : list batch_entry)
    (tb : Z) (d1 d2 : chunk_dict) :
  map erase_entry bs1 = map erase_entry bs2 ->
  erase_id d1 = erase_id d2 ->
  match pack batch_size bs1 tb d1, pack batch_size bs2 tb d2 with
  | Ok (bs1', tb1), Ok (bs2', tb2) =>
      map erase_entry bs1' = map erase_entry bs2' /\ tb1 = tb2
  | Raise e1, Raise e2 => e1 = e2
  | _, _ => False
  end.
Proof.
  intros Hbs Hd. unfold pack. destruct batch_size as [b|].
  - pose proof (f_equal last Hbs) as Hlast.
    change (last (erase_entry <$> bs1) = last (erase_entry <$> bs2)) in Hlast.
    rewrite !fmap_last in Hlast.
    destruct (last bs1) as [e1|] eqn:H1, (last bs2) as [e2|] eqn:H2;
      simpl in Hlast; try discriminate.
    + injection Hlast as He.
      apply last_Some in H1 as [bs1' ->]. apply last_Some in H2 as [bs2' ->].
      rewrite !map_app in Hbs. simpl in Hbs.
      apply app_inj_2 in Hbs as [Hbs' _]; [|reflexivity].
      destruct (b =? 0); [reflexivity|].
      rewrite (len_entry_erase e1 e2 He).
      destruct (len_entry e2 mod b =? 0).
      * rewrite !map_app. simpl. rewrite Hbs', He, Hd. by split.
      * destruct e1 as [c1|g1], e2 as [c2|g2]; simpl in He;
          try discriminate; [reflexivity|].
        injection He as He.
        rewrite !removelast_last, !map_app. simpl.
        rewrite !map_app. simpl. rewrite Hbs', He, Hd. by split.
    + rewrite !map_app. simpl. rewrite Hbs, Hd. by split.
  - rewrite !map_app. simpl. rewrite Hbs, Hd. by split.
Qed.

Section TwoRuns.
Context {lib : Chonkie}.
Variables uuid4 uuid4' : nat -> string.

Lemma add_chunk_agree batch_size page st1 st2 c :
  erase_acc st1 = erase_acc st2 ->
  agree (add_chunk uuid4 batch_size page st1 c)
        (add_chunk uuid4' batch_size page st2 c).
Proof.
  unfold erase_acc. intros H. injection H as Hbs Htc Ht Htb Hdrawn.
  unfold add_chunk. rewrite Htb, Ht.
  match goal with
  | |- agree (pack _ _ _ ?d1 ≫= _) (pack _ _ _ ?d2 ≫= _) =>
      pose proof (pack_erase batch_size (batches st1) (batches st2)
                    (total_batches st2) d1 d2 Hbs eq_refl) as Hpack;
      destruct (pack batch_size (batches st1) (total_batches st2) d1)
        as [[bs1 tb1]|e1],
        (pack batch_size (batches st2) (total_batches st2) d2)
        as [[bs2 tb2]|e2]
  end; simpl in *; try contradiction; [|exact Hpack].
  destruct Hpack as [Hbs' ->]. unfold erase_acc. simpl.
  by rewrite Hbs', Htc, Hdrawn.
Qed.

Lemma chunk_loop_agree batch_size page cs st1 st2 :
  erase_acc st1 = erase_acc st2 ->
  agree (chunk_loop uuid4 batch_size page cs st1)
        (chunk_loop uuid4' batch_size page cs st2).
Proof.
  revert st1 st2. induction cs as [|c cs IH]; intros st1 st2 H; simpl.
  - exact H.
  - pose proof (add_chunk_agree batch_size page st1 st2 c H) as Hadd.
    destruct (add_chunk uuid4 batch_size page st1 c) as [st1'|e1],
             (add_chunk uuid4' batch_size page st2 c) as [st2'|e2];
      simpl in *; try contradiction; [by apply IH | exact Hadd].
Qed.

Lemma doc_loop_agree docs batch_size opts st1 st2 :
  erase_acc st1 = erase_acc st2 ->
  agree (doc_loop uuid4 docs batch_size opts st1)
        (doc_loop uuid4' docs batch_size opts st2).
Proof.
  revert st1 st2. induction docs as [|doc docs IH]; intros st1 st2 H; simpl.
  - exact H.
  - destruct (parse_markdown (doc_text doc) opts) as [out|e]; simpl;
      [|reflexivity].
    pose proof (chunk_loop_agree batch_size (page_of doc) out st1 st2 H)
      as Hloop.
    destruct (chunk_loop uuid4 batch_size (page_of doc) out st1) as [st1'|e1],
             (chunk_loop uuid4' batch_size (page_of doc) out st2) as [st2'|e2];
      simpl in *; try contradiction; [by apply IH | exact Hloop].
Qed.

(** C10: two runs of [chunk_documents] on the same documents, batch size and
    options, one drawing the identifiers [uuid4] and the other the
    identifiers [uuid4'], either raise the same exception or return results
    that are equal once the [id] of every record is removed: same groups,
    same texts, same metadata, same totals.  The [id] of the n-th record
    of a run is the n-th identifier drawn in that run. *)
Theorem runs_differ_only_in_ids (docs : list document) (batch_size : option Z)
    (opts : ChunkOptions) :
  erase_result <$> chunk_documents uuid4 docs batch_size opts
  = erase_result <$> chunk_documents uuid4' docs batch_size opts
  /\ (forall bs tc t tb,
        chunk_documents uuid4 docs batch_size opts = Ok (bs, tc, t, tb) ->
        map id (flat bs) = map uuid4 (seq 0 (length (flat bs))))
  /\ (forall bs tc t tb,
        chunk_documents uuid4' docs batch_size opts = Ok (bs, tc, t, tb) ->
        map id (flat bs) = map uuid4' (seq 0 (length (flat bs)))).
Proof.
  split; [|split].
  - unfold chunk_documents.
    pose proof (doc_loop_agree docs batch_size opts acc_init acc_init eq_refl)
      as H.
    destruct (doc_loop uuid4 docs batch_size opts acc_init) as [st1|e1],
             (doc_loop uuid4' docs batch_size opts acc_init) as [st2|e2];
      simpl in *; try contradiction; [|by rewrite H].
    unfold erase_acc in H. injection H as Hbs Htc Ht Htb _.
    unfold fmap, res_fmap, mret, res_ret. simpl.
    by rewrite Hbs, Htc, Ht, Htb.
  - intros bs tc t tb H.
    by destruct (chunk_documents_counted _ _ _ _ _ _ _ _ H) as (_ & _ & ? & _).
  - intros bs tc t tb H.
    by destruct (chunk_documents_counted _ _ _ _ _ _ _ _ H) as (_ & _ & ? & _).
Qed.

End TwoRuns.

(** ** The theorems on the sample documents *)

Lemma sequence_numbers_run_across_documents_witness :
  chunk_documents (lib := Sample.lib) Sample.ident Sample.three_pages (Some 2)
    (Sample.options None)
  = Ok (Sample.three_pages_in_twos, 86, 14, 7)
  /\ map seq_of (flat Sample.three_pages_in_twos) = seqZ 0 14
  /\ NoDup (map seq_of (flat Sample.three_pages_in_twos)).
Proof.
  assert (H : chunk_documents (lib := Sample.lib) Sample.ident
                Sample.three_pages (Some 2) (Sample.options None)
              = Ok (Sample.three_pages_in_twos, 86, 14, 7))
    by (vm_compute; reflexivity).
  split; [exact H|].
  destruct (sequence_numbers_run_across_documents (lib := Sample.lib)
              _ _ _ _ _ _ _ _ H) as (_ & Hseq & Hnodup & _).
  split; assumption.
Defined.

Lemma page_number_is_the_documents_witness :
  chunk_documents (lib := Sample.lib) Sample.ident Sample.two_pages None
    (Sample.options None)
  = Ok ([BChunk Sample.record_A; BChunk Sample.record_B], 8, 2, 0)
  /\ exists per_doc,
       [Sample.record_A; Sample.record_B] = concat per_doc
       /\ Forall2
            (fun doc ds =>
               Forall (fun d => page_number_of d = page_of doc) ds)
            Sample.two_pages per_doc.
Proof.
  assert (H : chunk_documents (lib := Sample.lib) Sample.ident
                Sample.two_pages None (Sample.options None)
              = Ok ([BChunk Sample.record_A; BChunk Sample.record_B], 8, 2, 0))
    by (vm_compute; reflexivity).
  split; [exact H|].
  destruct (page_number_is_the_documents (lib := Sample.lib)
              _ _ _ _ _ _ _ _ H) as (per_doc & Hflat & Hall & _).
  exists per_doc. split; [exact Hflat|].
  eapply Forall2_impl; [exact Hall|].
  intros doc ds (_ & Hpage & _). exact Hpage.
Defined.

Lemma batches_have_exact_size_witness :
  0 < 3
  /\ chunk_documents (lib := Sample.lib) Sample.ident
       [Sample.page Sample.page1 1] (Some 3) (Sample.options None)
     = Ok (Sample.page1_in_threes, 43, 7, 3)
  /\ map (fun e => length (entry_chunks e)) Sample.page1_in_threes
     = [3; 3; 1]%nat
  /\ exists gs,
       Sample.page1_in_threes = map BGroup gs
       /\ Z.of_nat (length gs) = (7 + 3 - 1) / 3
       /\ 3 = Z.of_nat (length gs).
Proof.
  assert (Hb : 0 < 3) by lia.
  assert (H : chunk_documents (lib := Sample.lib) Sample.ident
                [Sample.page Sample.page1 1] (Some 3) (Sample.options None)
              = Ok (Sample.page1_in_threes, 43, 7, 3))
    by (vm_compute; reflexivity).
  split; [exact Hb|]. split; [exact H|]. split; [vm_compute; reflexivity|].
  destruct (batches_have_exact_size (lib := Sample.lib) _ _ _ _ _ _ _ _ Hb H)
    as (gs & Hbs & _ & _ & Hn & _ & _ & _ & Htb & _).
  exists gs. repeat split; assumption.
Defined.

Lemma no_batching_returns_flat_list_witness :
  chunk_documents (lib := Sample.lib) Sample.ident Sample.two_pages None
    (Sample.options None)
  = Ok ([BChunk Sample.record_A; BChunk Sample.record_B], 8, 2, 0)
  /\ 0 = 0
  /\ exists ds,
       [BChunk Sample.record_A; BChunk Sample.record_B] = map BChunk ds
       /\ Z.of_nat (length ds) = 2.
Proof.
  assert (H : chunk_documents (lib := Sample.lib) Sample.ident
                Sample.two_pages None (Sample.options None)
              = Ok ([BChunk Sample.record_A; BChunk Sample.record_B], 8, 2, 0))
    by (vm_compute; reflexivity).
  split; [exact H|].
  destruct (no_batching_returns_flat_list (lib := Sample.lib)
              _ _ _ _ _ _ _ H) as (Htb & ds & Hbs & Hlen & _).
  split; [exact Htb|]. exists ds. split; assumption.
Defined.

Lemma groups_ignore_document_boundaries_witness :
  0 < 2
  /\ doc_loop (lib := Sample.lib) Sample.ident [Sample.page "AAAA" 1]
       (Some 2) (Sample.options None) acc_init
     = Ok Sample.after_page_A
  /\ exists st2,
       add_chunk Sample.ident (Some 2) (Some 2) Sample.after_page_A
         {| pc_text := "BBBB"; pc_sequence_number := 0 |} = Ok st2
       /\ batches st2 = [BGroup [Sample.record_A; Sample.record_B]]
       /\ total_batches st2 = 1.
Proof.
  assert (Hb : 0 < 2) by lia.
  assert (H : doc_loop (lib := Sample.lib) Sample.ident
                [Sample.page "AAAA" 1] (Some 2) (Sample.options None) acc_init
              = Ok Sample.after_page_A)
    by (vm_compute; reflexivity).
  split; [exact Hb|]. split; [exact H|].
  destruct (groups_ignore_document_boundaries (lib := Sample.lib) 2
              Sample.ident (Sample.options None) Hb) as (_ & Hjoin & _).
  destruct (Hjoin [Sample.page "AAAA" 1] [] (Sample.page "BBBB" 2)
              Sample.after_page_A [] [Sample.record_A]
              {| pc_text := "BBBB"; pc_sequence_number := 0 |} [] H)
    as (st2 & Hadd & Hbs & Htb & _);
    [reflexivity | vm_compute; discriminate | vm_compute; reflexivity |].
  exists st2. split; [exact Hadd|]. split; [exact Hbs | exact Htb].
Defined.

Lemma runs_differ_only_in_ids_witness :
  erase_result
    <$> chunk_documents (lib := Sample.lib) Sample.ident Sample.two_pages None
          (Sample.options None)
  = erase_result
    <$> chunk_documents (lib := Sample.lib) (fun n => Sample.ident (S n))
          Sample.two_pages None (Sample.options None)
  /\ map id [Sample.record_A; Sample.record_B]
     = map Sample.ident (seq 0 2).
Proof.
  destruct (runs_differ_only_in_ids (lib := Sample.lib) Sample.ident
              (fun n => Sample.ident (S n)) Sample.two_pages None
              (Sample.options None)) as (Hsame & Hids & _).
  split; [exact Hsame|].
  apply (Hids [BChunk Sample.record_A; BChunk Sample.record_B] 8 2 0).
  vm_compute; reflexivity.
Defined.

(** * Further properties of [chunker.py] *)

(** ** Stripped texts *)

Lemma lstrip_list_head (l : list ascii) (c : ascii) :
  head (lstrip_list l) = Some c -> isspace c = false.
Proof.
  induction l as [|a l IH]; simpl; [discriminate|].
  destruct (isspace a) eqn:Ha; [exact IH|].
  simpl. intros H. by injection H as <-.
Qed.

Lemma lstrip_list_id (l : list ascii) :
  (forall c, head l = Some c -> isspace c = false) -> lstrip_list l = l.
Proof.
  destruct l as [|a l]; simpl; [reflexivity|].
  intros H. by rewrite (H a eq_refl).
Qed.

Lemma lstrip_list_suffix (l : list ascii) :
  exists pre, l = pre ++ lstrip_list l.
Proof.
  induction l as [|a l [pre IH]]; simpl; [by exists []|].
  destruct (isspace a).
  - exists (a :: pre). simpl. by rewrite <- IH.
  - by exists [].
Qed.

Lemma last_rev {A : Type} (l : list A) : last (rev l) = head l.
Proof. rewrite rev_alt. apply last_reverse. Qed.

Lemma strip_list (s : string) :
  exists l,
    list_ascii_of_string (strip s) = l
    /\ (forall c, head l = Some c -> isspace c = false)
    /\ (forall c, last l = Some c -> isspace c = false).
Proof.
  unfold strip. rewrite list_ascii_of_string_of_list_ascii.
  set (L := lstrip_list (list_ascii_of_string s)).
  eexists. split; [reflexivity|]. split.
  - intros c Hc.
    destruct (lstrip_list_suffix (rev L)) as [pre Hpre].
    apply (f_equal (@rev ascii)) in Hpre.
    rewrite rev_involutive, rev_app_distr in Hpre.
    apply (lstrip_list_head (list_ascii_of_string s) c). fold L.
    rewrite Hpre.
    destruct (rev (lstrip_list (rev L))) as [|x r]; [discriminate|].
    exact Hc.
  - intros c Hc. apply (lstrip_list_head (rev L) c).
    by rewrite last_rev in Hc.
Qed.

Lemma strip_trimmed (s : string) : trimmed (strip s).
Proof.
  destruct (strip_list s) as (l & <- & Hhead & Hlast). by split.
Qed.

Lemma strip_of_trimmed (s : string) : trimmed s -> strip s = s.
Proof.
  intros [Hhead Hlast]. unfold strip.
  rewrite (lstrip_list_id _ Hhead).
  rewrite lstrip_list_id.
  - by rewrite rev_involutive, string_of_list_ascii_of_string.
  - intros c Hc. apply Hlast.
    by rewrite <- (rev_involutive (list_ascii_of_string s)), last_rev.
Qed.

Lemma strip_idempotent (s : string) : strip (strip s) = strip s.
Proof. apply strip_of_trimmed, strip_trimmed. Qed.

(** ** The stream of chunks *)

Section Streams.
Context {lib : Chonkie}.
Variable uuid4 : nat -> string.

Lemma chunk_loop_feed batch_size page cs st :
  chunk_loop uuid4 batch_size page cs st
  = feed uuid4 batch_size (map (pair page) cs) st.
Proof.
  revert st. induction cs as [|c cs IH]; intros st; simpl; [reflexivity|].
  destruct (add_chunk uuid4 batch_size page st c); simpl;
    [apply IH|reflexivity].
Qed.

Lemma feed_app batch_size s1 s2 st :
  feed uuid4 batch_size (s1 ++ s2) st
  = (st1 ← feed uuid4 batch_size s1 st; feed uuid4 batch_size s2 st1).
Proof.
  revert st. induction s1 as [|[p c] s1 IH]; intros st; simpl; [reflexivity|].
  destruct (add_chunk uuid4 batch_size p st c); simpl; [apply IH|reflexivity].
Qed.

Lemma doc_loop_feed docs outs batch_size opts st :
  Forall2 (fun doc out => parse_markdown (doc_text doc) opts = Ok out)
    docs outs ->
  doc_loop uuid4 docs batch_size opts st
  = feed uuid4 batch_size (stream_of docs outs) st.
Proof.
  intros H. revert st. induction H as [|doc out docs outs Hout _ IH];
    intros st; [reflexivity|].
  unfold stream_of. simpl. rewrite Hout. simpl.
  rewrite chunk_loop_feed, feed_app.
  destruct (feed uuid4 batch_size (map (pair (page_of doc)) out) st); simpl;
    [apply IH|reflexivity].
Qed.

Lemma doc_loop_parse_error pre outs d post e batch_size opts st :
  Forall2 (fun doc out => parse_markdown (doc_text doc) opts = Ok out)
    pre outs ->
  parse_markdown (doc_text d) opts = Raise e ->
  doc_loop uuid4 (pre ++ d :: post) batch_size opts st
  = (st1 ← feed uuid4 batch_size (stream_of pre outs) st; Raise e).
Proof.
  intros Hpre Hd. rewrite doc_loop_app, (doc_loop_feed pre outs) by exact Hpre.
  destruct (feed uuid4 batch_size (stream_of pre outs) st); simpl;
    [|reflexivity].
  by rewrite Hd.
Qed.

Lemma stream_of_length docs outs :
  Forall2 (fun (doc : document) (out : list parsed_chunk) => True) docs outs ->
  length (stream_of docs outs) = length (concat outs).
Proof.
  unfold stream_of. induction 1 as [|doc out docs outs _ _ IH]; simpl;
    [reflexivity|].
  by rewrite !length_app, length_map, IH.
Qed.

End Streams.

(** ** Stripped texts, totals and identifiers *)

Section Records.
Context {lib : Chonkie}.
Variable uuid4 : nat -> string.

(** X1: the text of every record that [chunk_documents] returns has no white
    space at either end, and stripping it again leaves it unchanged. *)
Theorem record_texts_are_stripped (docs : list document)
    (batch_size : option Z) (opts : ChunkOptions) (bs : list batch_entry)
    (tc t tb : Z) :
  chunk_documents uuid4 docs batch_size opts = Ok (bs, tc, t, tb) ->
  Forall (fun d => trimmed (text d) /\ strip (text d) = text d) (flat bs).
Proof.
  intros H.
  apply chunk_documents_Ok in H as (st & Hloop & -> & _ & _ & _).
  apply doc_loop_records in Hloop as (per_doc & Hflat & Hall).
  simpl in Hflat. rewrite Hflat. clear Hflat.
  induction Hall as [|doc ds docs per_doc (_ & out & Hparse & Htext) _ IH];
    simpl; [constructor|].
  apply Forall_app. split; [|exact IH].
  apply parse_markdown_elements in Hparse as (els & _ & ->).
  rewrite numbered_text in Htext.
  apply Forall_forall. intros d Hd.
  assert (Hin : text d ∈ map text ds) by (apply list_elem_of_fmap; eauto).
  rewrite Htext in Hin.
  apply list_elem_of_fmap in Hin as (piece & -> & _).
  split; [apply strip_trimmed | apply strip_idempotent].
Qed.

(** X2: [total_characters] is the sum of the lengths of the texts of the
    records returned, that is of the stripped texts, and is not negative. *)
Theorem total_characters_is_the_sum_of_the_texts (docs : list document)
    (batch_size : option Z) (opts : ChunkOptions) (bs : list batch_entry)
    (tc t tb : Z) :
  chunk_documents uuid4 docs batch_size opts = Ok (bs, tc, t, tb) ->
  tc = foldr (fun d n => len (text d) + n) 0 (flat bs) /\ 0 <= tc.
Proof.
  intros H.
  destruct (chunk_documents_counted _ _ _ _ _ _ _ _ H) as (_ & _ & _ & ->).
  split; [reflexivity|]. clear H.
  induction (flat bs) as [|d l IH]; simpl; [lia|].
  assert (0 <= len (text d)) by apply Nat2Z.is_nonneg. lia.
Qed.

(** X3: the records of a call have pairwise different identifiers when the
    identifiers drawn during the call are pairwise different. *)
Theorem record_ids_are_distinct (docs : list document)
    (batch_size : option Z) (opts : ChunkOptions) (bs : list batch_entry)
    (tc t tb : Z) :
  (forall i j : nat,
     (i < Z.to_nat t)%nat -> (j < Z.to_nat t)%nat ->
     uuid4 i = uuid4 j -> i = j) ->
  chunk_documents uuid4 docs batch_size opts = Ok (bs, tc, t, tb) ->
  NoDup (map id (flat bs)).
Proof.
  intros Hinj H.
  destruct (chunk_documents_counted _ _ _ _ _ _ _ _ H) as (Ht & _ & Hid & _).
  rewrite Hid. rewrite Ht, Nat2Z.id in Hinj.
  apply NoDup_fmap_2_strong; [|apply NoDup_seq].
  intros i j Hi Hj. apply elem_of_seq in Hi, Hj. apply Hinj; lia.
Qed.

End Records.

(** ** Batch sizes that are zero or negative *)

Lemma mod_opp_zero (x b : Z) : (x mod - b =? 0) = (x mod b =? 0).
Proof.
  destruct (Z.eq_dec b 0) as [->|Hb]; [reflexivity|].
  destruct (Z.eqb_spec (x mod b) 0) as [H|H].
  - apply Z.eqb_eq. by apply Z.mod_opp_r_z.
  - apply Z.eqb_neq. intros H'. apply H.
    rewrite <- (Z.opp_involutive b). apply Z.mod_opp_r_z; [lia|exact H'].
Qed.

Lemma pack_opp (b : Z) (bs : list batch_entry) (tb : Z) (d : chunk_dict) :
  pack (Some (- b)) bs tb d = pack (Some b) bs tb d.
Proof.
  unfold pack. destruct (last bs) as [e|]; [|reflexivity].
  rewrite mod_opp_zero.
  replace (- b =? 0) with (b =? 0); [reflexivity|].
  destruct (Z.eqb_spec b 0), (Z.eqb_spec (- b) 0); (reflexivity || lia).
Qed.

Section BatchSizes.
Context {lib : Chonkie}.
Variable uuid4 : nat -> string.

Lemma feed_opp b stream st :
  feed uuid4 (Some (- b)) stream st = feed uuid4 (Some b) stream st.
Proof.
  revert st. induction stream as [|[p c] stream IH]; intros st; simpl;
    [reflexivity|].
  unfold add_chunk. rewrite pack_opp.
  match goal with |- (?m ≫= _) = _ => destruct m as [st'|e] end; simpl;
    [apply IH|reflexivity].
Qed.

Lemma doc_loop_opp b docs opts st :
  doc_loop uuid4 docs (Some (- b)) opts st
  = doc_loop uuid4 docs (Some b) opts st.
Proof.
  revert st. induction docs as [|doc docs IH]; intros st; simpl;
    [reflexivity|].
  destruct (parse_markdown (doc_text doc) opts) as [out|e]; simpl;
    [|reflexivity].
  rewrite !chunk_loop_feed, feed_opp.
  destruct (feed uuid4 (Some b) (map (pair (page_of doc)) out) st); simpl;
    [apply IH|reflexivity].
Qed.

(** X4: a negative batch size groups as its opposite does: the call returns
    or raises the same for [- b] and for [b], so for [b < 0] the groups hold
    [- b] records, the last one between 1 and [- b]. *)
Theorem negative_batch_size_groups_like_its_opposite (b : Z)
    (docs : list document) (opts : ChunkOptions) :
  chunk_documents uuid4 docs (Some (- b)) opts
  = chunk_documents uuid4 docs (Some b) opts
  /\ (b < 0 ->
      forall bs tc t tb,
        chunk_documents uuid4 docs (Some b) opts = Ok (bs, tc, t, tb) ->
        exists gs, bs = map BGroup gs
                   /\ well_grouped (- b) gs
                   /\ tb = Z.of_nat (length gs)).
Proof.
  assert (Heq : chunk_documents uuid4 docs (Some (- b)) opts
                = chunk_documents uuid4 docs (Some b) opts)
    by (unfold chunk_documents; by rewrite doc_loop_opp).
  split; [exact Heq|].
  intros Hb bs tc t tb H. rewrite <- Heq in H.
  apply chunk_documents_Ok in H as (st & Hloop & -> & _ & _ & ->).
  apply doc_loop_grouped in Hloop as (gs & Hbs & Htb & Hgs); [|lia].
  by exists gs.
Qed.

Lemma feed_zero_nonempty stream st :
  batches st <> [] -> stream <> [] ->
  feed uuid4 (Some 0) stream st = Raise ZeroDivisionError.
Proof.
  intros Hbs Hs. destruct stream as [|[p c] stream]; [done|]. simpl.
  unfold add_chunk, pack.
  destruct (last (batches st)) as [e|] eqn:Hlast; [reflexivity|].
  by apply last_None in Hlast.
Qed.

Lemma feed_zero_first p c st :
  batches st = [] ->
  exists st', add_chunk uuid4 (Some 0) p st c = Ok st'
              /\ batches st' <> []
              /\ total_chunks st' = total_chunks st + 1
              /\ total_batches st' = total_batches st + 1.
Proof.
  intros Hbs. unfold add_chunk, pack. rewrite Hbs. simpl.
  eexists. split; [reflexivity|]. simpl. by repeat split.
Qed.

(** X5: with [batch_size = 0], and documents that [parse_markdown] all
    accepts, the call returns when the documents yield at most one chunk
    (no group, or one group of one record) and raises [ZeroDivisionError]
    as soon as they yield two. *)
Theorem zero_batch_size_fails_at_the_second_chunk (docs : list document)
    (outs : list (list parsed_chunk)) (opts : ChunkOptions) :
  Forall2 (fun doc out => parse_markdown (doc_text doc) opts = Ok out)
    docs outs ->
  ((length (concat outs) <= 1)%nat ->
   exists bs tc,
     chunk_documents uuid4 docs (Some 0) opts
     = Ok (bs, tc, Z.of_nat (length (concat outs)),
           Z.of_nat (length (concat outs)))
     /\ length bs = length (concat outs))
  /\ ((2 <= length (concat outs))%nat ->
      chunk_documents uuid4 docs (Some 0) opts = Raise ZeroDivisionError).
Proof.
  intros Hall. unfold chunk_documents.
  rewrite (doc_loop_feed uuid4 docs outs) by exact Hall.
  assert (Hlen : length (stream_of docs outs) = length (concat outs)).
  { apply stream_of_length. eapply Forall2_impl; [exact Hall|]. done. }
  rewrite <- Hlen. clear Hlen Hall.
  destruct (stream_of docs outs) as [|[p c] stream].
  - simpl. split; [|lia]. intros _. by exists [], 0.
  - cbn [feed].
    destruct (feed_zero_first p c acc_init eq_refl)
      as (st' & Hadd & Hbs & Ht & Htb).
    rewrite Hadd. cbn [mbind res_bind]. split.
    + intros Hle. destruct stream; [|simpl in Hle; lia]. cbn [feed].
      unfold add_chunk, pack in Hadd. simpl in Hadd.
      injection Hadd as <-. simpl. by eexists _, _.
    + intros Hge. rewrite feed_zero_nonempty; [reflexivity|exact Hbs|].
      destruct stream; [simpl in Hge; lia|done].
Qed.

Lemma feed_returns batch_size stream st :
  batch_size <> Some 0 ->
  match batch_size with
  | None => True
  | Some b => grouped (Z.abs b) st
  end ->
  exists st', feed uuid4 batch_size stream st = Ok st'.
Proof.
  intros Hz. revert st. induction stream as [|[p c] stream IH]; intros st Hinv;
    simpl; [by eexists|].
  destruct batch_size as [b|].
  - assert (Hb : 0 < Z.abs b) by (assert (b <> 0) by congruence; lia).
    destruct (add_chunk_grouped uuid4 (Z.abs b) p st c Hb Hinv)
      as (st' & Hadd & Hinv').
    assert (Hadd' : add_chunk uuid4 (Some b) p st c = Ok st').
    { destruct (Z.abs_spec b) as [[_ Habs]|[_ Habs]]; rewrite Habs in Hadd;
        [exact Hadd|].
      unfold add_chunk in *. by rewrite pack_opp in Hadd. }
    rewrite Hadd'. simpl. by apply IH.
  - unfold add_chunk, pack. simpl. by apply IH.
Qed.

(** X6: when [batch_size] is not 0, [chunk_documents] fails only through
    [parse_markdown]: it returns if every document is accepted, with
    [total_chunks] the number of chunks parsed, and if [parse_markdown]
    raises on a document, the documents before it being accepted, the call
    raises that exception and returns nothing of what was chunked. *)
Theorem chunk_documents_fails_only_in_parse_markdown (docs : list document)
    (batch_size : option Z) (opts : ChunkOptions) :
  batch_size <> Some 0 ->
  (forall outs,
     Forall2 (fun doc out => parse_markdown (doc_text doc) opts = Ok out)
       docs outs ->
     exists bs tc tb,
       chunk_documents uuid4 docs batch_size opts
       = Ok (bs, tc, Z.of_nat (length (concat outs)), tb))
  /\ (forall pre d post outs e,
        docs = pre ++ d :: post ->
        Forall2 (fun doc out => parse_markdown (doc_text doc) opts = Ok out)
          pre outs ->
        parse_markdown (doc_text d) opts = Raise e ->
        chunk_documents uuid4 docs batch_size opts = Raise e).
Proof.
  intros Hz.
  assert (Hinit : match batch_size with
                  | None => True
                  | Some b => grouped (Z.abs b) acc_init
                  end)
    by (destruct batch_size; [apply acc_init_grouped|done]).
  split.
  - intros outs Hall.
    destruct (feed_returns batch_size (stream_of docs outs) acc_init Hz Hinit)
      as (st & Hfeed).
    assert (H : chunk_documents uuid4 docs batch_size opts
                = Ok (batches st, total_characters st, total_chunks st,
                      total_batches st)).
    { unfold chunk_documents.
      rewrite (doc_loop_feed uuid4 docs outs) by exact Hall.
      by rewrite Hfeed. }
    destruct (chunk_documents_counted _ _ _ _ _ _ _ _ H) as (Ht & _).
    pose proof H as H'.
    apply chunk_documents_Ok in H' as (st0 & Hloop & Hbs & _).
    apply doc_loop_records in Hloop as (per_doc & Hflat & Hrec).
    simpl in Hflat. rewrite Hbs, Hflat in Ht.
    assert (Hlen : length (concat per_doc) = length (concat outs)).
    { clear -Hall Hrec. revert outs Hall.
      induction Hrec as [|doc ds docs per_doc (_ & out & Hout & Htext) _ IH];
        intros outs Hall; inversion Hall as [|? out' ? outs' Hout' Hall']; subst;
        [reflexivity|].
      simpl. rewrite !length_app, (IH _ Hall').
      rewrite Hout in Hout'. injection Hout' as <-.
      apply (f_equal length) in Htext. rewrite !length_map in Htext. lia. }
    rewrite Ht, Hlen in H. by eexists _, _, _.
  - intros pre d post outs e -> Hpre Hd. unfold chunk_documents.
    rewrite (doc_loop_parse_error uuid4 pre outs d post e) by assumption.
    destruct (feed_returns batch_size (stream_of pre outs) acc_init Hz Hinit)
      as (st & ->).
    reflexivity.
Qed.

End BatchSizes.

(** ** The chunker variables *)

Section ChunkerVariables.
Context {lib : Chonkie}.

Lemma try_code_table (opts : ChunkOptions) (cs : chunkers) (c : MarkdownCode) :
  table_chunker (fst (try_code opts cs c)) = table_chunker cs.
Proof.
  unfold try_code.
  destruct (code_chunker cs) as [cc|], (code_language c) as [l|]; simpl;
    try destruct (negb _); simpl;
    try destruct (CodeChunker_new _ _); reflexivity.
Qed.

(** X7: one step of the router never replaces a prose splitter or a table
    splitter that exists; an item that is not a table leaves the table
    splitter as it is, and an item that is not a code block leaves the code
    splitter as it is. *)
Theorem splitters_are_kept (opts : ChunkOptions) (rules : RecursiveRules)
    (cs cs' : chunkers) (x : item) (pieces : list Chunk) :
  route opts rules cs x = Ok (cs', pieces) ->
  (forall rc, recursive_chunker cs = Some rc -> recursive_chunker cs' = Some rc)
  /\ (forall tc, table_chunker cs = Some tc -> table_chunker cs' = Some tc)
  /\ (is_table x = false -> table_chunker cs' = table_chunker cs)
  /\ (is_code x = false -> code_chunker cs' = code_chunker cs).
Proof.
  intros H.
  split; [intros rc; by apply (route_keeps_recursive opts rules cs cs' x pieces)|].
  destruct x as [t|c|i|c]; simpl in H.
  - apply bind_Ok in H as (tc & Htc & H). apply bind_Ok in H as (ps & _ & H).
    injection H as <- <-. simpl. split; [|by split].
    intros tc' Htc'. rewrite Htc' in Htc. by injection Htc as <-.
  - pose proof (try_code_table opts cs c) as Hkeep.
    destruct (try_code opts cs c) as [cs1 [ps|e]]; simpl in Hkeep.
    + injection H as <- <-. rewrite Hkeep. by repeat split.
    + unfold code_fallback in H.
      apply bind_Ok in H as (rc & _ & H). apply bind_Ok in H as (ps & _ & H).
      injection H as <- <-. simpl. rewrite Hkeep. by repeat split.
  - apply bind_Ok in H as (rc & _ & H). discriminate.
  - apply bind_Ok in H as (rc & _ & H). apply bind_Ok in H as (ps & _ & H).
    injection H as <- <-. simpl. by repeat split.
Qed.


Lemma route_chunk_size (opts opts' : ChunkOptions) (rules : RecursiveRules)
    (cs : chunkers) (x : item) :
  chunk_size opts = chunk_size opts' ->
  route opts rules cs x = route opts' rules cs x.
Proof.
  intros H. destruct x as [t|c|i|c]; simpl;
    unfold code_fallback, try_code, get_recursive; by rewrite H.
Qed.

Lemma route_loop_chunk_size (opts opts' : ChunkOptions)
    (rules : RecursiveRules) (items : list item) (cs : chunkers)
    (final : list parsed_chunk) (n : Z) :
  chunk_size opts = chunk_size opts' ->
  route_loop opts rules items cs final n
  = route_loop opts' rules items cs final n.
Proof.
  intros H. revert cs final n.
  induction items as [|x items IH]; intros cs final n; simpl; [reflexivity|].
  rewrite (route_chunk_size opts opts') by exact H.
  destruct (route opts' rules cs x) as [[cs' pieces]|e]; [|reflexivity].
  destruct (emit pieces final n). apply IH.
Qed.

(** X9: a [language_code] that is not one of [langs] is ignored:
    [parse_markdown] returns or raises what it does without a language. *)
Theorem unsupported_language_is_ignored (markdown : string) (size : Z)
    (language : string) :
  in_langs language = false ->
  parse_markdown markdown
    {| chunk_size := size; language_code := Some language |}
  = parse_markdown markdown {| chunk_size := size; language_code := None |}.
Proof.
  intros H. unfold parse_markdown, select_rules. simpl. rewrite H. simpl.
  destruct (chef_parse _) as [d|e]; [|reflexivity]. simpl.
  by apply route_loop_chunk_size.
Qed.

End ChunkerVariables.

Lemma splitters_are_kept_witness :
  route (lib := Sample.lib) (Sample.options None) Sample.Paragraphs
    Cases.fallback_splitter (IChunk Cases.two_sentences)
  = Ok (Cases.fallback_splitter,
        [ {| chunk_text := "Hello. World"; chunk_start_index := 0 |} ])
  /\ forall rc,
       recursive_chunker Cases.fallback_splitter = Some rc ->
       recursive_chunker Cases.fallback_splitter = Some rc.
Proof.
  assert (H : route (lib := Sample.lib) (Sample.options None)
                Sample.Paragraphs Cases.fallback_splitter
                (IChunk Cases.two_sentences)
              = Ok (Cases.fallback_splitter,
                    [ {| chunk_text := "Hello. World";
                         chunk_start_index := 0 |} ]))
    by (vm_compute; reflexivity).
  split; [exact H|].
  exact (proj1 (splitters_are_kept (lib := Sample.lib) _ _ _ _ _ _ H)).
Defined.


Lemma unsupported_language_is_ignored_witness :
  in_langs "tlh" = false
  /\ parse_markdown (lib := Sample.lib) Sample.page1
       {| chunk_size := 2048; language_code := Some "tlh" |}
     = parse_markdown (lib := Sample.lib) Sample.page1
         {| chunk_size := 2048; language_code := None |}.
Proof.
  split; [reflexivity|].
  apply (unsupported_language_is_ignored (lib := Sample.lib)). reflexivity.
Defined.

(** * Properties of the modules around the chunker *)

(** ** [split] *)

Lemma contains_char_cons (c a : ascii) (s : string) :
  contains_char c (String a s) = Ascii.eqb c a || contains_char c s.
Proof. reflexivity. Qed.

Lemma split_not_nil (sep : ascii) (s : string) : split sep s <> [].
Proof.
  induction s as [|c s IH]; simpl; [discriminate|].
  destruct (Ascii.eqb c sep); [discriminate|].
  destruct (split sep s); [contradiction|discriminate].
Qed.

Lemma split_no_sep (sep : ascii) (s : string) :
  Forall (fun x => contains_char sep x = false) (split sep s).
Proof.
  induction s as [|c s IH]; simpl; [by repeat constructor|].
  destruct (Ascii.eqb_spec c sep) as [->|Hne]; [by constructor|].
  destruct (split sep s) as [|h t] eqn:Hs;
    [exfalso; exact (split_not_nil _ _ Hs)|].
  apply Forall_cons in IH as [Hh Ht]. constructor; [|exact Ht].
  rewrite contains_char_cons, Hh.
  destruct (Ascii.eqb_spec sep c); [congruence|reflexivity].
Qed.

Lemma split_join (sep : ascii) (s : string) :
  String.concat (String sep EmptyString) (split sep s) = s.
Proof.
  induction s as [|c s IH]; simpl; [reflexivity|].
  destruct (Ascii.eqb_spec c sep) as [->|Hne].
  - destruct (split sep s) as [|h t] eqn:Hs;
      [exfalso; exact (split_not_nil _ _ Hs)|].
    simpl. simpl in IH. by rewrite IH.
  - destruct (split sep s) as [|h t] eqn:Hs;
      [exfalso; exact (split_not_nil _ _ Hs)|].
    simpl in *. destruct t; simpl in *; by rewrite <- IH.
Qed.

Lemma split_without_sep (sep : ascii) (s : string) :
  contains_char sep s = false -> split sep s = [s].
Proof.
  induction s as [|c s IH]; simpl; [reflexivity|].
  rewrite contains_char_cons. intros H.
  apply orb_false_iff in H as [Hc Hs].
  destruct (Ascii.eqb_spec c sep) as [->|_].
  - by rewrite Ascii.eqb_refl in Hc.
  - by rewrite (IH Hs).
Qed.

Lemma last_item_suffix (sep : ascii) (s : string) :
  exists pre, s = String.append pre (last_item (split sep s)).
Proof.
  induction s as [|c s [pre IH]]; simpl; [by exists EmptyString|].
  unfold last_item in *.
  destruct (Ascii.eqb c sep).
  - destruct (split sep s) as [|h t] eqn:Hs;
      [exfalso; exact (split_not_nil _ _ Hs)|].
    rewrite last_cons_cons. exists (String c pre). simpl. by rewrite <- IH.
  - destruct (split sep s) as [|h t] eqn:Hs;
      [exfalso; exact (split_not_nil _ _ Hs)|].
    destruct t as [|h' t].
    + pose proof (split_join sep s) as Hj. rewrite Hs in Hj. simpl in Hj.
      subst h. by exists EmptyString.
    + rewrite last_cons_cons in *. exists (String c pre). simpl.
      by rewrite <- IH.
Qed.

Lemma last_item_no_sep (sep : ascii) (s : string) :
  contains_char sep (last_item (split sep s)) = false.
Proof.
  pose proof (split_no_sep sep s) as H. unfold last_item.
  destruct (last (split sep s)) as [x|] eqn:Hlast; [|reflexivity].
  rewrite Forall_forall in H. apply H. by eapply last_Some_elem_of.
Qed.

(** ** [file_type.py] and the dispatch of [ingest.py] *)

Lemma str_in_without_dot (e : string) (dotted plain : list string) :
  contains_char "."%char e = false ->
  Forall (fun x => contains_char "."%char x = true) dotted ->
  str_in e (plain ++ dotted) = str_in e plain.
Proof.
  intros He Hd. unfold str_in. rewrite existsb_app.
  replace (existsb (String.eqb e) dotted) with false; [apply orb_false_r|].
  symmetry. apply not_true_is_false. intros H.
  apply existsb_exists in H as (x & Hx & Heq).
  apply String.eqb_eq in Heq as <-.
  rewrite Forall_forall in Hd. apply list_elem_of_In in Hx.
  specialize (Hd e Hx). congruence.
Qed.

Section FileTypeProperties.
Variable requests_get : string -> res response.
Variable get_filename : string -> option string.
Variable magic_from_buffer : string -> res string.

Lemma extract_file_from_request_extension (request : IngestRequest)
    (payload : ExtractedFile) :
  extract_file_from_request requests_get get_filename magic_from_buffer
    request = Ok payload ->
  extension payload
  = match file_name payload with
    | Some (String c n) => Some (last_item (split "."%char (String c n)))
    | _ => match url payload with
           | Some _ => None
           | None => Some "txt"
           end
    end.
Proof.
  unfold extract_file_from_request. intros H.
  apply bind_Ok in H as ([[[[[stream size] name] mime] ext0] u] & Hfirst & H).
  apply bind_Ok in H as (m & _ & H). injection H as <-. simpl.
  destruct (request_url request) as [[|c r]|].
  - destruct (request_text request); [|discriminate].
    injection Hfirst as <- <- <- <- <- <-. reflexivity.
  - apply bind_Ok in Hfirst as (resp & _ & Hfirst).
    injection Hfirst as <- <- <- <- <- <-. reflexivity.
  - destruct (request_text request); [|discriminate].
    injection Hfirst as <- <- <- <- <- <-. reflexivity.
Qed.


End FileTypeProperties.

Lemma length_string_of_list_ascii (l : list ascii) :
  String.length (string_of_list_ascii l) = length l.
Proof. induction l as [|c l IH]; simpl; [|rewrite IH]; reflexivity. Qed.

Lemma length_list_ascii_of_string (s : string) :
  length (list_ascii_of_string s) = String.length s.
Proof. induction s as [|c s IH]; simpl; [|rewrite IH]; reflexivity. Qed.

Lemma flat_map_utf8_length (l : list ascii) :
  (length l <= length (flat_map utf8_char l) <= 2 * length l)%nat.
Proof.
  induction l as [|c l IH]; simpl; [lia|].
  rewrite length_app. unfold utf8_char at 1 3.
  destruct (nat_of_ascii c <? 128)%nat; simpl; lia.
Qed.

Lemma encode_utf8_length (s : string) :
  len s <= len (encode_utf8 s) <= 2 * len s.
Proof.
  unfold len, encode_utf8. rewrite length_string_of_list_ascii.
  rewrite <- (length_list_ascii_of_string s).
  pose proof (flat_map_utf8_length (list_ascii_of_string s)). lia.
Qed.

Section TextRequests.
Variable requests_get : string -> res response.
Variable get_filename : string -> option string.
Variable magic_from_buffer : string -> res string.


End TextRequests.

(** ** [s3._get_content_type_from_filename] *)

Lemma lower_char_idempotent (c : ascii) :
  lower_char (lower_char c) = lower_char c.
Proof.
  destruct c as [[] [] [] [] [] [] [] []]; vm_compute; reflexivity.
Qed.

Lemma lower_char_dot (c : ascii) :
  Ascii.eqb "."%char (lower_char c) = Ascii.eqb "."%char c.
Proof.
  destruct c as [[] [] [] [] [] [] [] []]; vm_compute; reflexivity.
Qed.

Lemma lower_idempotent (s : string) : lower (lower s) = lower s.
Proof.
  unfold lower. rewrite list_ascii_of_string_of_list_ascii, map_map.
  f_equal. apply map_ext. intros c. apply lower_char_idempotent.
Qed.

Lemma contains_dot_lower (s : string) :
  contains_char "."%char (lower s) = contains_char "."%char s.
Proof.
  unfold contains_char, lower. rewrite list_ascii_of_string_of_list_ascii.
  induction (list_ascii_of_string s) as [|c l IH]; [reflexivity|].
  cbn [map existsb]. by rewrite lower_char_dot, IH.
Qed.

Lemma dict_get_default_or_value (key : string) (d : list (string * string))
    (default : string) :
  dict_get key d default = default \/ In (dict_get key d default) (map snd d).
Proof.
  induction d as [|[k v] d IH]; simpl; [by left|].
  destruct (String.eqb key k); [right; by left|].
  destruct IH as [IH|IH]; [by left|right; by right].
Qed.

(** X12: the content type computed from a file name is one of the five
    image types of the table; it is [image/jpeg] when the name has no dot;
    and it does not depend on the case of the letters of the name. *)
Theorem content_type_is_an_image_type (filename : string) :
  In (_get_content_type_from_filename filename)
     ["image/jpeg"; "image/png"; "image/gif"; "image/webp"; "image/tiff"]
  /\ (contains_char "."%char filename = false ->
      _get_content_type_from_filename filename = "image/jpeg")
  /\ _get_content_type_from_filename (lower filename)
     = _get_content_type_from_filename filename.
Proof.
  split; [|split].
  - unfold _get_content_type_from_filename.
    match goal with
    | |- In (dict_get ?e _ _) _ =>
        destruct (dict_get_default_or_value e content_type_map "image/jpeg")
          as [->|H]
    end; [by left|].
    simpl in H. simpl.
    repeat (destruct H as [<-|H]; [tauto|]). contradiction.
  - intros H. unfold _get_content_type_from_filename. by rewrite H.
  - unfold _get_content_type_from_filename.
    by rewrite contains_dot_lower, lower_idempotent.
Qed.

(** ** [csv_parser._compact_markdown] *)

Lemma no_pair_nil (P : ascii -> ascii -> Prop) : no_pair P [].
Proof. intros [|x pre] a b post H; discriminate. Qed.

Lemma no_pair_one (P : ascii -> ascii -> Prop) (a : ascii) : no_pair P [a].
Proof. intros [|x [|y pre]] a' b post H; discriminate. Qed.

Lemma no_pair_cons (P : ascii -> ascii -> Prop) (a b : ascii)
    (l : list ascii) :
  no_pair P (a :: b :: l) <-> ~ P a b /\ no_pair P (b :: l).
Proof.
  split.
  - intros H. split; [apply (H [] a b l eq_refl)|].
    intros pre x y post Heq. apply (H (a :: pre) x y post). by rewrite Heq.
  - intros [Hab H] [|x pre] a' b' post Heq.
    + injection Heq as <- <- _. exact Hab.
    + injection Heq as _ Heq. by apply (H pre a' b' post).
Qed.

Lemma no_pair_tail (P : ascii -> ascii -> Prop) (a : ascii) (l : list ascii) :
  no_pair P (a :: l) -> no_pair P l.
Proof.
  destruct l as [|b l]; [intros _; apply no_pair_nil|].
  intros H. by apply no_pair_cons in H as [_ H].
Qed.

Lemma no_pair_head (P : ascii -> ascii -> Prop) (a : ascii) (l : list ascii) :
  (forall b, head l = Some b -> ~ P a b) -> no_pair P l -> no_pair P (a :: l).
Proof.
  destruct l as [|b l]; [intros _ _; apply no_pair_one|].
  intros Hh H. apply no_pair_cons. split; [by apply Hh|exact H].
Qed.

Lemma sub_bar_spaces_head (l : list ascii) (c : ascii) :
  head (sub_bar_spaces true l) = Some c -> isspace c = false.
Proof.
  induction l as [|a l IH]; simpl; [discriminate|].
  destruct (isspace a) eqn:Ha; [exact IH|].
  simpl. intros H. by injection H as <-.
Qed.

Lemma sub_bar_spaces_clean (after_bar : bool) (l : list ascii) :
  no_pair bar_then_space (sub_bar_spaces after_bar l).
Proof.
  revert after_bar. induction l as [|a l IH]; intros after_bar; simpl;
    [apply no_pair_nil|].
  destruct (after_bar && isspace a); [apply IH|].
  apply no_pair_head; [|apply IH].
  intros b Hb [-> Hspace]. rewrite Ascii.eqb_refl in Hb.
  apply sub_bar_spaces_head in Hb. congruence.
Qed.

Lemma sub_spaces_bar_head_kept (l : list ascii) (x : ascii) :
  head l = Some x -> isspace x = false ->
  head (sub_spaces_bar l) = Some x.
Proof.
  destruct l as [|a l]; simpl; [discriminate|].
  intros H Hx. injection H as ->. by rewrite Hx.
Qed.

Lemma sub_spaces_bar_head_not_bar (l : list ascii) :
  leads_to_bar l = false -> head (sub_spaces_bar l) <> Some bar.
Proof.
  destruct l as [|a l]; simpl; [discriminate|].
  destruct (Ascii.eqb_spec a bar) as [->|Hne]; [discriminate|].
  destruct (isspace a); simpl.
  - intros ->. simpl. congruence.
  - intros _. simpl. congruence.
Qed.

Lemma sub_spaces_bar_clean (l : list ascii) :
  no_pair space_then_bar (sub_spaces_bar l).
Proof.
  induction l as [|a l IH]; simpl; [apply no_pair_nil|].
  destruct (isspace a) eqn:Ha; simpl.
  - destruct (leads_to_bar l) eqn:Hl; [exact IH|].
    apply no_pair_head; [|exact IH].
    intros b Hb [_ ->]. by apply (sub_spaces_bar_head_not_bar l Hl).
  - apply no_pair_head; [|exact IH].
    intros b Hb [Hspace _]. congruence.
Qed.

Lemma sub_spaces_bar_keeps_clean (l : list ascii) :
  no_pair bar_then_space l -> no_pair bar_then_space (sub_spaces_bar l).
Proof.
  induction l as [|a l IH]; simpl; intros H; [apply no_pair_nil|].
  pose proof (no_pair_tail _ _ _ H) as Ht.
  destruct (isspace a && leads_to_bar l); [by apply IH|].
  apply no_pair_head; [|by apply IH].
  intros b Hb [-> Hspace].
  destruct l as [|x l]; [discriminate|].
  apply no_pair_cons in H as [Hax _].
  destruct (isspace x) eqn:Hx; [apply Hax; by split|].
  rewrite (sub_spaces_bar_head_kept (x :: l) x eq_refl Hx) in Hb.
  injection Hb as <-. congruence.
Qed.

Lemma sub_bar_spaces_visible (after_bar : bool) (l : list ascii) :
  visible (sub_bar_spaces after_bar l) = visible l.
Proof.
  revert after_bar. induction l as [|a l IH]; intros after_bar; simpl;
    [reflexivity|].
  destruct (isspace a) eqn:Ha; simpl.
  - destruct after_bar; simpl; rewrite ?Ha; simpl; apply IH.
  - rewrite andb_false_r. simpl. rewrite Ha. simpl. by rewrite IH.
Qed.

Lemma sub_spaces_bar_visible (l : list ascii) :
  visible (sub_spaces_bar l) = visible l.
Proof.
  induction l as [|a l IH]; simpl; [reflexivity|].
  destruct (isspace a) eqn:Ha; simpl.
  - destruct (leads_to_bar l); simpl; rewrite ?Ha; simpl; exact IH.
  - rewrite Ha. simpl. by rewrite IH.
Qed.

Lemma sub_bar_spaces_id (after_bar : bool) (l : list ascii) :
  no_pair bar_then_space l ->
  (after_bar = true -> forall c, head l = Some c -> isspace c = false) ->
  sub_bar_spaces after_bar l = l.
Proof.
  revert after_bar. induction l as [|a l IH]; intros after_bar H Hhead; simpl;
    [reflexivity|].
  assert (Hkeep : after_bar && isspace a = false).
  { destruct after_bar; [|reflexivity]. simpl. by apply Hhead. }
  rewrite Hkeep. f_equal. apply IH; [by apply no_pair_tail in H|].
  intros Hbar c Hc. apply Ascii.eqb_eq in Hbar as ->.
  destruct l as [|x l]; [discriminate|]. injection Hc as ->.
  apply no_pair_cons in H as [Hax _].
  destruct (isspace c) eqn:Hx; [|reflexivity]. exfalso. apply Hax. by split.
Qed.

Lemma leads_to_bar_clean (a : ascii) (l : list ascii) :
  isspace a = true -> no_pair space_then_bar (a :: l) ->
  leads_to_bar l = false.
Proof.
  revert a. induction l as [|x l IH]; intros a Ha H; simpl; [reflexivity|].
  pose proof H as H'. apply no_pair_cons in H' as [Hax Hl].
  destruct (Ascii.eqb_spec x bar) as [->|_]; [exfalso; apply Hax; by split|].
  destruct (isspace x) eqn:Hx; [|reflexivity]. by apply (IH x).
Qed.

Lemma sub_spaces_bar_id (l : list ascii) :
  no_pair space_then_bar l -> sub_spaces_bar l = l.
Proof.
  induction l as [|a l IH]; simpl; intros H; [reflexivity|].
  assert (Hkeep : isspace a && leads_to_bar l = false).
  { destruct (isspace a) eqn:Ha; [|reflexivity]. simpl.
    by apply (leads_to_bar_clean a). }
  rewrite Hkeep. f_equal. apply IH. by apply no_pair_tail in H.
Qed.

Lemma compact_line_chars (line : string) :
  list_ascii_of_string (compact_line line)
  = sub_spaces_bar (sub_bar_spaces false (list_ascii_of_string line)).
Proof. unfold compact_line. apply list_ascii_of_string_of_list_ascii. Qed.

Lemma compact_line_clean (line : string) :
  no_pair bar_then_space (list_ascii_of_string (compact_line line))
  /\ no_pair space_then_bar (list_ascii_of_string (compact_line line)).
Proof.
  rewrite compact_line_chars. split.
  - apply sub_spaces_bar_keeps_clean, sub_bar_spaces_clean.
  - apply sub_spaces_bar_clean.
Qed.

Lemma compact_line_idempotent (line : string) :
  compact_line (compact_line line) = compact_line line.
Proof.
  destruct (compact_line_clean line) as [H1 H2].
  unfold compact_line at 1.
  rewrite sub_bar_spaces_id, sub_spaces_bar_id by (done || exact H1 || exact H2).
  apply string_of_list_ascii_of_string.
Qed.

Lemma compact_line_visible (line : string) :
  visible (list_ascii_of_string (compact_line line))
  = visible (list_ascii_of_string line).
Proof.
  by rewrite compact_line_chars, sub_spaces_bar_visible,
       sub_bar_spaces_visible.
Qed.

Lemma split_app_sep (sep : ascii) (h r : string) :
  contains_char sep h = false ->
  split sep (String.append h (String sep r)) = h :: split sep r.
Proof.
  induction h as [|c h IH]; simpl.
  - intros _. by rewrite Ascii.eqb_refl.
  - rewrite contains_char_cons. intros H.
    apply orb_false_iff in H as [Hc Hh].
    destruct (Ascii.eqb_spec c sep) as [->|_];
      [by rewrite Ascii.eqb_refl in Hc|].
    by rewrite (IH Hh).
Qed.

Lemma split_concat (sep : ascii) (l : list string) :
  l <> [] ->
  Forall (fun x => contains_char sep x = false) l ->
  split sep (String.concat (String sep EmptyString) l) = l.
Proof.
  induction l as [|h l IH]; [done|]. intros _ Hall.
  apply Forall_cons in Hall as [Hh Hl].
  destruct l as [|h' l].
  - simpl. by apply split_without_sep.
  - change (String.concat (String sep EmptyString) (h :: h' :: l))
      with (String.append h
              (String sep (String.concat (String sep EmptyString) (h' :: l)))).
    rewrite split_app_sep by exact Hh. f_equal. by apply IH.
Qed.

Lemma sub_bar_spaces_Forall (P : ascii -> Prop) (after_bar : bool)
    (l : list ascii) :
  Forall P l -> Forall P (sub_bar_spaces after_bar l).
Proof.
  revert after_bar. induction l as [|a l IH]; intros after_bar H; simpl;
    [constructor|].
  apply Forall_cons in H as [Ha Hl].
  destruct (after_bar && isspace a); [by apply IH|].
  constructor; [exact Ha | by apply IH].
Qed.

Lemma sub_spaces_bar_Forall (P : ascii -> Prop) (l : list ascii) :
  Forall P l -> Forall P (sub_spaces_bar l).
Proof.
  induction l as [|a l IH]; intros H; simpl; [constructor|].
  apply Forall_cons in H as [Ha Hl].
  destruct (isspace a && leads_to_bar l); [by apply IH|].
  constructor; [exact Ha | by apply IH].
Qed.

Lemma contains_char_Forall (c : ascii) (s : string) :
  contains_char c s = false
  <-> Forall (fun x => x <> c) (list_ascii_of_string s).
Proof.
  unfold contains_char.
  induction (list_ascii_of_string s) as [|a l IH]; simpl; [by split|].
  rewrite orb_false_iff, Forall_cons, IH.
  destruct (Ascii.eqb_spec c a); split; intros [H1 H2]; split;
    (done || congruence).
Qed.

Lemma compact_line_keeps_lines (line : string) :
  contains_char "010"%char line = false ->
  contains_char "010"%char (compact_line line) = false.
Proof.
  rewrite !contains_char_Forall, compact_line_chars.
  intros H. by apply sub_spaces_bar_Forall, sub_bar_spaces_Forall.
Qed.

Lemma compact_markdown_lines (md : string) :
  split "010"%char (_compact_markdown md)
  = map compact_line (split "010"%char md).
Proof.
  unfold _compact_markdown, newline. apply split_concat.
  - pose proof (split_not_nil "010"%char md) as H.
    destruct (split "010"%char md); [done|discriminate].
  - pose proof (split_no_sep "010"%char md) as H.
    induction H as [|x l Hx _ IH]; simpl; constructor;
      [by apply compact_line_keeps_lines | exact IH].
Qed.

(** X13: [_compact_markdown] keeps the lines of its argument, each replaced
    by its compact form, and in no line of the result is a bar followed or
    preceded by white space. *)
Theorem compact_markdown_leaves_no_space_beside_a_bar (md : string) :
  split "010"%char (_compact_markdown md)
  = map compact_line (split "010"%char md)
  /\ Forall
       (fun line =>
          no_pair bar_then_space (list_ascii_of_string line)
          /\ no_pair space_then_bar (list_ascii_of_string line))
       (split "010"%char (_compact_markdown md)).
Proof.
  split; [apply compact_markdown_lines|].
  rewrite compact_markdown_lines.
  induction (split "010"%char md) as [|line l IH]; simpl; constructor;
    [apply compact_line_clean | exact IH].
Qed.

(** X14: [_compact_markdown] removes white space only: line by line, the
    characters that are not white space are those of the argument, in the
    same order (so the bars and the cell contents are kept); and applying
    it twice is applying it once. *)
Theorem compact_markdown_removes_only_space (md : string) :
  map (fun line => visible (list_ascii_of_string line))
    (split "010"%char (_compact_markdown md))
  = map (fun line => visible (list_ascii_of_string line))
      (split "010"%char md)
  /\ _compact_markdown (_compact_markdown md) = _compact_markdown md.
Proof.
  split.
  - rewrite compact_markdown_lines, map_map.
    apply map_ext. intros line. apply compact_line_visible.
  - unfold _compact_markdown at 1. rewrite compact_markdown_lines, map_map.
    unfold _compact_markdown. f_equal.
    apply map_ext. intros line. apply compact_line_idempotent.
Qed.

(** ** The pages of [datalab_parser._get_markdown_from_job] *)

Lemma len_zero (s : string) : (len s =? 0) = true <-> s = EmptyString.
Proof.
  unfold len. destruct s; simpl; split; intros H; try reflexivity;
    discriminate.
Qed.

Lemma pages_loop_members (idx : Z) (pages : list string) (d : document) :
  d ∈ pages_loop idx pages <->
  exists (k : nat) (page : string),
    pages !! k = Some page
    /\ strip page <> EmptyString
    /\ d = {| doc_text := strip page;
              doc_page := PagePresent (Some (idx + Z.of_nat k + 1)) |}.
Proof.
  revert idx. induction pages as [|p pages IH]; intros idx; simpl.
  - split; [intros H; by apply elem_of_nil in H|].
    intros (k & page & Hk & _). by rewrite lookup_nil in Hk.
  - destruct (len (strip p) =? 0) eqn:Hp.
    + apply len_zero in Hp. rewrite IH. split.
      * intros (k & page & Hk & Hne & ->). exists (S k), page.
        split; [exact Hk|]. split; [exact Hne|]. do 3 f_equal. lia.
      * intros ([|k] & page & Hk & Hne & ->); simpl in Hk.
        -- injection Hk as <-. contradiction.
        -- exists k, page. split; [exact Hk|]. split; [exact Hne|].
           do 3 f_equal. lia.
    + assert (Hne : strip p <> EmptyString).
      { intros H. apply len_zero in H. congruence. }
      rewrite elem_of_cons, IH. split.
      * intros [->|(k & page & Hk & Hne' & ->)].
        -- exists 0%nat, p. split; [reflexivity|]. split; [exact Hne|].
           do 3 f_equal. lia.
        -- exists (S k), page. split; [exact Hk|]. split; [exact Hne'|].
           do 3 f_equal. lia.
      * intros ([|k] & page & Hk & Hne' & ->); simpl in Hk.
        -- injection Hk as <-. left. do 3 f_equal. lia.
        -- right. exists k, page. split; [exact Hk|]. split; [exact Hne'|].
           do 3 f_equal. lia.
Qed.

Lemma pages_loop_sorted (idx : Z) (pages : list string) :
  exists ps : list Z,
    map page_of (pages_loop idx pages) = map Some ps
    /\ StronglySorted Z.lt ps
    /\ Forall (fun p => idx < p <= idx + Z.of_nat (length pages)) ps.
Proof.
  revert idx. induction pages as [|p pages IH]; intros idx; simpl.
  - exists []. by repeat split; constructor.
  - destruct (IH (idx + 1)) as (ps & Hmap & Hsorted & Hbound).
    assert (Hbound' : Forall
              (fun q => idx + 1 <= q /\ idx < q <= idx + Z.of_nat (S (length pages)))
              ps).
    { eapply Forall_impl; [exact Hbound|]. simpl. intros q Hq. lia. }
    destruct (len (strip p) =? 0).
    + exists ps. split; [exact Hmap|]. split; [exact Hsorted|].
      eapply Forall_impl; [exact Hbound'|]. simpl. intros q Hq. lia.
    + exists ((idx + 1) :: ps). simpl. split; [by rewrite Hmap|]. split.
      * constructor; [exact Hsorted|].
        eapply Forall_impl; [exact Hbound|]. simpl. intros q Hq. lia.
      * constructor; [lia|].
        eapply Forall_impl; [exact Hbound'|]. simpl. intros q Hq. lia.
Qed.

Lemma content_by_page_members (pages : list string) (d : document) :
  d ∈ content_by_page pages <->
  exists (k : nat) (page : string),
    (1 <= k)%nat /\ pages !! k = Some page
    /\ strip page <> EmptyString
    /\ d = {| doc_text := strip page;
              doc_page := PagePresent (Some (Z.of_nat k)) |}.
Proof.
  unfold content_by_page. rewrite pages_loop_members. split.
  - intros (k & page & Hk & Hne & ->). exists (S k), page.
    split; [lia|]. split; [by destruct pages|]. split; [exact Hne|].
    do 3 f_equal. lia.
  - intros ([|k] & page & Hle & Hk & Hne & ->); [lia|].
    exists k, page. split; [by destruct pages|]. split; [exact Hne|].
    do 3 f_equal. lia.
Qed.

(** X15: [content_by_page] holds one document for each page after the first
    whose stripped text is not empty, and no other: its text is the stripped
    page and its page number is the position of the page in the split, so
    an empty page leaves a gap in the numbers.  The numbers increase
    strictly and lie between 1 and the number of delimiters; what precedes
    the first delimiter is dropped, empty or not. *)
Theorem content_by_page_numbers_pages_by_position (pages : list string) :
  (forall d : document,
     d ∈ content_by_page pages <->
     exists (k : nat) (page : string),
       (1 <= k)%nat /\ pages !! k = Some page
       /\ strip page <> EmptyString
       /\ d = {| doc_text := strip page;
                 doc_page := PagePresent (Some (Z.of_nat k)) |})
  /\ (exists ps : list Z,
        map page_of (content_by_page pages) = map Some ps
        /\ StronglySorted Z.lt ps
        /\ Forall (fun p => 1 <= p < Z.of_nat (length pages)) ps)
  /\ (forall first other : string,
        content_by_page (first :: tail pages)
        = content_by_page (other :: tail pages)).
Proof.
  split; [apply content_by_page_members|]. split; [|reflexivity].
  unfold content_by_page.
  destruct (pages_loop_sorted 0 (tail pages)) as (ps & Hmap & Hsorted & Hb).
  exists ps. split; [exact Hmap|]. split; [exact Hsorted|].
  eapply Forall_impl; [exact Hb|]. simpl. intros q Hq.
  destruct pages; simpl in *; lia.
Qed.

Section PagedDocuments.
Context {lib : Chonkie}.
Variable uuid4 : nat -> string.

(** X16: when the pages of a Datalab job are chunked, every record carries a
    page number, and it is the position (from 1) of one of the pages that
    are not empty after stripping. *)
Theorem records_of_paged_documents_carry_their_page (pages : list string)
    (batch_size : option Z) (opts : ChunkOptions) (bs : list batch_entry)
    (tc t tb : Z) :
  chunk_documents uuid4 (content_by_page pages) batch_size opts
  = Ok (bs, tc, t, tb) ->
  Forall
    (fun d =>
       exists (k : nat) (page : string),
         page_number_of d = Some (Z.of_nat k)
         /\ (1 <= k < length pages)%nat
         /\ pages !! k = Some page
         /\ strip page <> EmptyString)
    (flat bs).
Proof.
  intros H.
  apply chunk_documents_Ok in H as (st & Hloop & -> & _ & _ & _).
  apply doc_loop_records in Hloop as (per_doc & Hflat & Hall).
  simpl in Hflat. rewrite Hflat. clear Hflat.
  assert (Hdocs : Forall (fun doc => doc ∈ content_by_page pages)
                    (content_by_page pages))
    by (by apply Forall_forall).
  revert Hdocs Hall. generalize (content_by_page pages) at 2 3.
  intros docs Hdocs Hrec. revert Hdocs.
  induction Hrec as [|doc ds docs per_doc (Hpage & _) _ IH]; intros Hdocs;
    simpl; [constructor|].
  apply Forall_cons in Hdocs as [Hdoc Hdocs].
  apply Forall_app. split; [|by apply IH].
  apply content_by_page_members in Hdoc as (k & page & Hle & Hk & Hne & ->).
  eapply Forall_impl; [exact Hpage|]. simpl. intros d Hd.
  exists k, page. split; [exact Hd|]. split; [|by split].
  split; [exact Hle|]. by eapply lookup_lt_Some.
Qed.

End PagedDocuments.

(** ** The polling loop of [datalab_parser._get_and_wait_for_job] *)

Section PollingProperties.
Variables Job ConversionResult : Type.
Variable get : nat -> res Job.
Variable processing : Job -> res bool.
Variable failed : Job -> res bool.
Variable failure : Job -> exn.
Variable conversion_result : Job -> ConversionResult.
(** The jobs that the requests return as long as they return. *)
Variable jobs : nat -> Job.

Lemma poll_loop_processing (n polls i : nat) (job : option Job)
    (slept : nat) :
  (forall m, (m < n)%nat ->
     get (i + m)%nat = Ok (jobs (i + m)%nat)
     /\ processing (jobs (i + m)%nat) = Ok true) ->
  poll_loop Job get processing (n + polls) i job slept
  = poll_loop Job get processing polls (i + n)%nat
      (match n with
       | O => job
       | S n' => Some (jobs (i + n')%nat)
       end)
      (slept + n)%nat.
Proof.
  revert i job slept. induction n as [|n IH]; intros i job slept H.
  - simpl. by rewrite !Nat.add_0_r.
  - destruct (H 0%nat ltac:(lia)) as [Hget Hproc].
    rewrite Nat.add_0_r in Hget, Hproc.
    simpl. rewrite Hget, Hproc. rewrite IH.
    + replace (S i + n)%nat with (i + S n)%nat by lia.
      replace (S slept + n)%nat with (slept + S n)%nat by lia.
      destruct n as [|n']; [by rewrite Nat.add_0_r|].
      by replace (S i + n')%nat with (i + S n')%nat by lia.
    + intros m Hm. replace (S i + m)%nat with (i + S m)%nat by lia.
      apply H. lia.
Qed.

(** X17: when the first [k] requests report a job in progress and the next
    one, [k < 600], reports anything else, the function makes [k + 1]
    requests, pauses [k] times, and judges that job: it raises the failure
    of the job, or returns its conversion result. *)
Theorem polling_stops_at_the_first_settled_job (k : nat) :
  (k < _max_polls)%nat ->
  (forall m, (m < k)%nat ->
     get m = Ok (jobs m) /\ processing (jobs m) = Ok true) ->
  get k = Ok (jobs k) ->
  processing (jobs k) = Ok false ->
  _get_and_wait_for_job Job ConversionResult get processing failed failure
    conversion_result
  = (bad ← failed (jobs k);
     if bad : bool then Raise (failure (jobs k))
     else Ok (conversion_result (jobs k)),
     S k, k).
Proof.
  intros Hk Hproc Hget Hdone. unfold _get_and_wait_for_job.
  replace _max_polls with (k + S (_max_polls - S k))%nat by lia.
  rewrite poll_loop_processing by (intros m Hm; simpl; by apply Hproc).
  simpl. rewrite Hget, Hdone. reflexivity.
Qed.

(** X18: there is no time-out error.  When all of the 600 requests report a
    job in progress, the function stops after 600 requests and 600 pauses
    and judges the last job read like a settled one: unless that job counts
    as failed, its conversion result is returned. *)
Theorem polling_gives_up_without_an_error :
  (forall m, (m < _max_polls)%nat ->
     get m = Ok (jobs m) /\ processing (jobs m) = Ok true) ->
  _get_and_wait_for_job Job ConversionResult get processing failed failure
    conversion_result
  = (bad ← failed (jobs 599%nat);
     if bad : bool then Raise (failure (jobs 599%nat))
     else Ok (conversion_result (jobs 599%nat)),
     600%nat, 600%nat).
Proof.
  intros Hproc. unfold _get_and_wait_for_job.
  replace _max_polls with (_max_polls + 0)%nat at 1 by lia.
  rewrite poll_loop_processing by (intros m Hm; simpl; by apply Hproc).
  reflexivity.
Qed.

End PollingProperties.

(** ** [YouTubeConverter._retry_operation] *)

Ltac outcome_eq :=
  apply pair_equal_spec; split;
  [apply pair_equal_spec; split; [reflexivity|] |].

Section RetryProperties.
Context {A : Type}.
Variable operation : nat -> res A.

Lemma retry_loop_success (m n : nat) (attempt retries delay : Z)
    (calls : nat) (slept : Z) (a : A) :
  (forall j, (j < m)%nat -> exists e, operation (calls + j)%nat = Raise e) ->
  operation (calls + m)%nat = Ok a ->
  Z.of_nat n + attempt = retries ->
  (m < n)%nat -> 0 <= delay ->
  retry_loop operation n attempt retries delay calls slept
  = (Ok a, S (calls + m), slept + Z.of_nat m * delay).
Proof.
  revert n attempt calls slept.
  induction m as [|m IH]; intros n attempt calls slept Hfail Hok Hn Hlt Hd;
    (destruct n as [|n]; [lia|]); cbn [retry_loop].
  - rewrite Nat.add_0_r in Hok. rewrite Hok.
    outcome_eq; [lia | simpl; lia].
  - destruct (Hfail 0%nat ltac:(lia)) as [e He].
    rewrite Nat.add_0_r in He. rewrite He.
    destruct (Z.ltb_spec attempt (retries - 1)) as [_|Hge]; [|lia].
    destruct (Z.ltb_spec delay 0) as [Hneg|_]; [lia|].
    rewrite (IH n (attempt + 1) (S calls) (slept + delay)).
    + outcome_eq; lia.
    + intros j Hj. replace (S calls + j)%nat with (calls + S j)%nat by lia.
      apply Hfail. lia.
    + by replace (S calls + m)%nat with (calls + S m)%nat by lia.
    + lia.
    + lia.
    + exact Hd.
Qed.

Lemma retry_loop_exhausted (n : nat) (attempt retries delay : Z)
    (calls : nat) (slept : Z) :
  (forall j, (j < n)%nat -> exists e, operation (calls + j)%nat = Raise e) ->
  Z.of_nat n + attempt = retries -> 0 <= delay ->
  retry_loop operation n attempt retries delay calls slept
  = (Raise (LibraryError "Exception"
              (String.append "Operation failed after "
                 (String.append (str retries) " attempts."))),
     (calls + n)%nat, slept + Z.of_nat (n - 1) * delay).
Proof.
  revert attempt calls slept.
  induction n as [|n IH]; intros attempt calls slept Hfail Hn Hd;
    cbn [retry_loop].
  - outcome_eq; [lia | simpl; lia].
  - destruct (Hfail 0%nat ltac:(lia)) as [e He].
    rewrite Nat.add_0_r in He. rewrite He.
    assert (Hrest : forall j, (j < n)%nat ->
              exists e', operation (S calls + j)%nat = Raise e').
    { intros j Hj. replace (S calls + j)%nat with (calls + S j)%nat by lia.
      apply Hfail. lia. }
    destruct (Z.ltb_spec attempt (retries - 1)) as [Hlt|Hge].
    + destruct (Z.ltb_spec delay 0) as [Hneg|_]; [lia|].
      rewrite IH by (assumption || lia).
      outcome_eq; [lia|]. destruct n; [lia|].
      replace (S (S n) - 1)%nat with (S n) by lia.
      replace (S n - 1)%nat with n by lia. lia.
    + rewrite IH by (assumption || lia).
      assert (n = 0%nat) as -> by lia. outcome_eq; [lia | simpl; lia].
Qed.

(** X19: when the operation fails [k] times and then succeeds, with
    [k < retries] and a delay that is not negative, [_retry_operation]
    returns the value of the call number [k], after [k + 1] calls and [k]
    pauses. *)
Theorem retry_returns_the_first_success (retries delay : Z) (k : nat)
    (a : A) :
  0 <= delay -> Z.of_nat k < retries ->
  (forall j, (j < k)%nat -> exists e, operation j = Raise e) ->
  operation k = Ok a ->
  _retry_operation operation retries delay
  = (Ok a, S k, Z.of_nat k * delay).
Proof.
  intros Hd Hk Hfail Hok. unfold _retry_operation.
  rewrite (retry_loop_success k (Z.to_nat retries) 0 retries delay 0 0 a);
    try (assumption || lia).
  reflexivity.
Qed.

(** X20: when the first [retries] calls of the operation all fail,
    [_retry_operation] makes exactly [retries] calls, pauses between them
    but not after the last, and raises [Exception] with a message of its
    own, never the exception of the operation; when [retries] is not
    positive it raises without a call. *)
Theorem retry_gives_up_with_its_own_exception (retries delay : Z) :
  0 <= delay ->
  (forall j, Z.of_nat j < retries -> exists e, operation j = Raise e) ->
  _retry_operation operation retries delay
  = (Raise (LibraryError "Exception"
              (String.append "Operation failed after "
                 (String.append (str retries) " attempts."))),
     Z.to_nat retries, Z.max 0 (retries - 1) * delay).
Proof.
  intros Hd Hfail. unfold _retry_operation.
  destruct (Z.le_gt_cases retries 0) as [Hle|Hgt].
  - replace (Z.to_nat retries) with 0%nat by lia. simpl.
    outcome_eq; lia.
  - rewrite (retry_loop_exhausted (Z.to_nat retries) 0 retries delay 0 0);
      try (assumption || lia).
    + outcome_eq; lia.
    + intros j Hj. apply Hfail. lia.
Qed.

End RetryProperties.

(** ** The videos of [yt.youtube_operation] *)

Lemma dict_find_set_eq {V : Type} (key : string) (v : V)
    (d : list (string * V)) :
  dict_find key (dict_set key v d) = Some v.
Proof.
  induction d as [|[k x] d IH]; simpl; [by rewrite String.eqb_refl|].
  destruct (String.eqb k key) eqn:Hk; simpl; rewrite Hk; [reflexivity|exact IH].
Qed.

Lemma dict_find_set_ne {V : Type} (key key' : string) (v : V)
    (d : list (string * V)) :
  key <> key' -> dict_find key' (dict_set key v d) = dict_find key' d.
Proof.
  intros Hne. induction d as [|[k x] d IH]; simpl.
  - destruct (String.eqb_spec key key'); [contradiction|reflexivity].
  - destruct (String.eqb_spec k key) as [->|Hk]; simpl.
    + destruct (String.eqb_spec key key'); [contradiction|reflexivity].
    + by rewrite IH.
Qed.

Lemma dict_set_keys {V : Type} (key : string) (v : V) (d : list (string * V)) :
  map fst (dict_set key v d)
  = match dict_find key d with
    | Some _ => map fst d
    | None => map fst d ++ [key]
    end.
Proof.
  induction d as [|[k x] d IH]; simpl; [reflexivity|].
  destruct (String.eqb_spec k key) as [->|Hk]; simpl; [reflexivity|].
  rewrite IH. by destruct (dict_find key d).
Qed.

Lemma dict_find_None {V : Type} (key : string) (d : list (string * V)) :
  dict_find key d = None <-> key ∉ map fst d.
Proof.
  induction d as [|[k x] d IH]; simpl.
  - split; [intros _ H; by apply elem_of_nil in H|done].
  - rewrite not_elem_of_cons, <- IH.
    destruct (String.eqb_spec k key) as [->|Hk]; split.
    + discriminate.
    + intros [H _]. contradiction.
    + intros H. split; [congruence|exact H].
    + intros [_ H]. exact H.
Qed.

Lemma dict_set_NoDup {V : Type} (key : string) (v : V)
    (d : list (string * V)) :
  NoDup (map fst d) -> NoDup (map fst (dict_set key v d)).
Proof.
  intros H. rewrite dict_set_keys.
  destruct (dict_find key d) eqn:Hf; [exact H|].
  apply NoDup_app. split; [exact H|]. split; [|apply NoDup_singleton].
  intros k Hk Hin. apply list_elem_of_singleton in Hin as ->.
  by apply dict_find_None in Hf.
Qed.

Lemma dict_find_elem_of {V : Type} (key : string) (v : V)
    (d : list (string * V)) :
  NoDup (map fst d) -> (dict_find key d = Some v <-> (key, v) ∈ d).
Proof.
  induction d as [|[k x] d IH]; simpl; intros Hnd.
  - split; [discriminate|]. intros H. by apply elem_of_nil in H.
  - apply NoDup_cons in Hnd as [Hk Hnd]. rewrite elem_of_cons.
    destruct (String.eqb_spec k key) as [->|Hne].
    + split.
      * intros H. injection H as ->. by left.
      * intros [H|H]; [by injection H as ->|].
        exfalso. apply Hk. apply list_elem_of_fmap. by exists (key, v).
    + rewrite (IH Hnd). split; [by right|].
      intros [H|H]; [injection H as -> _; contradiction|exact H].
Qed.

Lemma add_videos_find (videos : list ExtractedVideo)
    (d : list (string * ExtractedVideo)) (key : string) :
  dict_find key (add_videos videos d)
  = match last_with_id key videos with
    | Some v => Some v
    | None => dict_find key d
    end.
Proof.
  unfold add_videos, last_with_id. revert d.
  induction videos as [|v videos IH]; intros d; simpl; [reflexivity|].
  rewrite IH.
  destruct (String.eqb_spec (video_id v) key) as [<-|Hne].
  - rewrite dict_find_set_eq.
    destruct (List.filter _ videos) as [|w ws] eqn:Hf; [reflexivity|].
    rewrite last_cons_cons.
    destruct (last (w :: ws)) eqn:Hlast; [reflexivity|].
    by apply last_None in Hlast.
  - by rewrite dict_find_set_ne.
Qed.

Lemma add_videos_NoDup (videos : list ExtractedVideo)
    (d : list (string * ExtractedVideo)) :
  NoDup (map fst d) -> NoDup (map fst (add_videos videos d)).
Proof.
  unfold add_videos. revert d.
  induction videos as [|v videos IH]; intros d H; simpl; [exact H|].
  by apply IH, dict_set_NoDup.
Qed.

Lemma dict_set_keyed (v : ExtractedVideo) (d : list (string * ExtractedVideo)) :
  Forall (fun kv => video_id (snd kv) = fst kv) d ->
  Forall (fun kv => video_id (snd kv) = fst kv) (dict_set (video_id v) v d).
Proof.
  induction d as [|[k x] d IH]; simpl; intros H; [by repeat constructor|].
  apply Forall_cons in H as [Hk Hd].
  destruct (String.eqb_spec k (video_id v)) as [->|Hne].
  - by constructor.
  - constructor; [exact Hk | by apply IH].
Qed.

Lemma add_videos_keyed (videos : list ExtractedVideo)
    (d : list (string * ExtractedVideo)) :
  Forall (fun kv => video_id (snd kv) = fst kv) d ->
  Forall (fun kv => video_id (snd kv) = fst kv) (add_videos videos d).
Proof.
  unfold add_videos. revert d.
  induction videos as [|v videos IH]; intros d H; simpl; [exact H|].
  by apply IH, dict_set_keyed.
Qed.

Lemma add_videos_app (l1 l2 : list ExtractedVideo)
    (d : list (string * ExtractedVideo)) :
  add_videos (l1 ++ l2) d = add_videos l2 (add_videos l1 d).
Proof. unfold add_videos. apply fold_left_app. Qed.

Section YouTubeProperties.
Variable extract_url : nat -> string -> res VideoOrPlaylist.

Lemma collect_videos_results (k : nat) (urls : list string)
    (d d' : list (string * ExtractedVideo)) :
  collect_videos extract_url k urls d = Ok d' ->
  exists results : list VideoOrPlaylist,
    Forall2 (fun (i : nat) r =>
               exists u, urls !! i = Some u
                         /\ extract_url (k + i)%nat u = Ok r)
      (seq 0 (length urls)) results
    /\ d' = add_videos (flat_map videos_of results) d.
Proof.
  revert k d. induction urls as [|u urls IH]; intros k d H; simpl in H.
  - injection H as <-. exists []. split; [constructor|reflexivity].
  - apply bind_Ok in H as (r & Hr & H).
    apply IH in H as (results & Hall & ->).
    exists (r :: results). split.
    + simpl. constructor.
      * exists u. split; [reflexivity|]. by rewrite Nat.add_0_r.
      * rewrite <- seq_shift. apply Forall2_fmap_l.
        eapply Forall2_impl; [exact Hall|]. simpl.
        intros i r' (u' & Hu & Hx). exists u'. split; [exact Hu|].
        by replace (k + S i)%nat with (S k + i)%nat by lia.
    + simpl. rewrite add_videos_app. f_equal.
      destruct r; reflexivity.
Qed.

(** X21: when every address is extracted, [videos_to_process] holds no two
    videos with the same identifier; a video is in it exactly when it is
    the last one, among all the videos extracted, to carry its identifier.
    So a video reached through several addresses or playlists is processed
    once. *)
Theorem each_video_is_processed_once (urls : list string)
    (videos : list ExtractedVideo) :
  videos_to_process extract_url urls = Ok videos ->
  exists results : list VideoOrPlaylist,
    Forall2 (fun (i : nat) r =>
               exists u, urls !! i = Some u /\ extract_url i u = Ok r)
      (seq 0 (length urls)) results
    /\ NoDup (map video_id videos)
    /\ forall v : ExtractedVideo,
         v ∈ videos
         <-> last_with_id (video_id v) (flat_map videos_of results) = Some v.
Proof.
  unfold videos_to_process. intros H.
  apply bind_Ok in H as (d & Hd & H). injection H as <-.
  apply collect_videos_results in Hd as (results & Hall & ->).
  exists results. split; [exact Hall|].
  set (all := flat_map videos_of results).
  pose proof (add_videos_NoDup all [] (NoDup_nil_2)) as Hnd.
  pose proof (add_videos_keyed all [] (Forall_nil_2 _)) as Hkeyed.
  assert (Hids : map video_id (map snd (add_videos all []))
                 = map fst (add_videos all [])).
  { rewrite map_map. apply map_ext_Forall.
    eapply Forall_impl; [exact Hkeyed|]. by intros [k v]. }
  split; [by rewrite Hids|].
  intros v. rewrite Forall_forall in Hkeyed. split.
  - intros Hv. apply list_elem_of_fmap in Hv as ([k w] & -> & Hin). simpl.
    pose proof (Hkeyed _ Hin) as Hk. simpl in Hk. subst k.
    apply (dict_find_elem_of _ _ _ Hnd) in Hin.
    rewrite add_videos_find in Hin.
    by destruct (last_with_id (video_id w) all).
  - intros Hlast.
    assert (Hfind : dict_find (video_id v) (add_videos all []) = Some v)
      by (by rewrite add_videos_find, Hlast).
    apply (dict_find_elem_of _ _ _ Hnd) in Hfind.
    apply list_elem_of_fmap. by exists (video_id v, v).
Qed.

End YouTubeProperties.

(** ** The loop of [crawl.crawl_operation] *)

Lemma set_language_fold (languages : list (option string))
    (opts : ChunkOptions) :
  fold_left set_language languages opts
  = {| chunk_size := chunk_size opts;
       language_code :=
         match last (supported_languages languages) with
         | Some l => Some l
         | None => language_code opts
         end |}.
Proof.
  unfold supported_languages. revert opts.
  induction languages as [|[l|] ls IH]; intros opts.
  - by destruct opts.
  - cbn [fold_left map]. rewrite IH. unfold set_language.
    change (omap (fun language => language) (Some l :: ls))
      with (l :: omap (fun language : option string => language) ls).
    cbn [List.filter].
    destruct (in_langs l) eqn:Hl; [|reflexivity].
    cbn [chunk_size language_code].
    destruct (List.filter in_langs (omap (fun language => language) ls))
      as [|x xs] eqn:Hf; [reflexivity|].
    rewrite last_cons_cons.
    destruct (last (x :: xs)) eqn:Hlast; [reflexivity|].
    by apply last_None in Hlast.
  - apply IH.
Qed.

Section CrawlProperties.
Context {lib : Chonkie}.

Lemma chunk_documents_flat_list (uuid4 : nat -> string)
    (docs : list document) (opts : ChunkOptions) (bs : list batch_entry)
    (tc t tb : Z) :
  chunk_documents uuid4 docs None opts = Ok (bs, tc, t, tb) ->
  exists ds : list chunk_dict,
    bs = map BChunk ds
    /\ tb = 0
    /\ t = Z.of_nat (length ds)
    /\ map seq_of ds = seqZ 0 t
    /\ map id ds = map uuid4 (seq 0 (length ds))
    /\ (Forall (fun doc => page_of doc = None) docs ->
        Forall (fun d => page_number_of d = None) ds).
Proof.
  intros H.
  destruct (chunk_documents_counted _ _ _ _ _ _ _ _ H)
    as (Ht & Hseq & Hid & _).
  apply chunk_documents_Ok in H as (st & Hloop & -> & _ & -> & ->).
  assert (Hu : ungrouped st).
  { eapply (doc_loop_invariant uuid4 ungrouped); [| |exact Hloop].
    - intros page st0 c st1. apply add_chunk_ungrouped.
    - by exists []. }
  destruct Hu as (ds & Hbs & Htb).
  rewrite Hbs, flat_chunks in Ht, Hseq, Hid.
  exists ds. split; [exact Hbs|]. split; [exact Htb|]. split; [exact Ht|].
  split; [exact Hseq|]. split; [exact Hid|].
  intros Hpages.
  apply doc_loop_records in Hloop as (per_doc & Hflat & Hall).
  rewrite Hbs, flat_chunks in Hflat. simpl in Hflat. rewrite Hflat.
  clear Hflat. induction Hall as [|doc rs docs per_doc (Hpage & _) _ IH];
    simpl; [constructor|].
  apply Forall_cons in Hpages as [Hdoc Hdocs].
  apply Forall_app. split; [|by apply IH].
  eapply Forall_impl; [exact Hpage|]. simpl. intros d ->. exact Hdoc.
Qed.

Variable uuid4 : nat -> string.
Variable cuid : nat -> string.

Lemma crawl_loop_pages (data : list CrawlPage) (opts : ChunkOptions)
    (made drawn : nat) (docs : list CrawlDocument) (final : ChunkOptions) :
  crawl_loop uuid4 cuid data opts made drawn = Ok (docs, final) ->
  final = fold_left set_language (map page_language data) opts
  /\ length docs = length data
  /\ forall (k : nat) (page : CrawlPage),
       data !! k = Some page ->
       exists (d : CrawlDocument) (drawn_k : nat) (tb : Z),
         docs !! k = Some d
         /\ cd_id d = cuid (made + k)%nat
         /\ cd_url d = page_source_url page
         /\ cd_total_bytes d = len (page_markdown page)
         /\ chunk_documents (fun n => uuid4 (drawn_k + n)%nat)
              [text_only (page_markdown page)] None
              (fold_left set_language
                 (map page_language (take (S k) data)) opts)
            = Ok (cd_chunks d, cd_total_characters d, cd_total_chunks d, tb).
Proof.
  revert opts made drawn docs final.
  induction data as [|p data IH]; intros opts made drawn docs final H;
    simpl in H.
  - injection H as <- <-. split; [reflexivity|]. split; [reflexivity|].
    intros k page Hk. by rewrite lookup_nil in Hk.
  - apply bind_Ok in H as ([[[chunks tc] t] tb] & Hchunk & H).
    apply bind_Ok in H as ([docs' final'] & Hrest & H).
    injection H as <- <-.
    apply IH in Hrest as (Hfinal & Hlen & Hpages).
    split; [exact Hfinal|]. split; [simpl; by rewrite Hlen|].
    intros [|k] page Hk; simpl in Hk.
    + injection Hk as <-. eexists _, drawn, tb.
      split; [reflexivity|]. simpl. rewrite Nat.add_0_r.
      split; [reflexivity|]. split; [reflexivity|]. split; [reflexivity|].
      exact Hchunk.
    + destruct (Hpages k page Hk) as (d & drawn_k & tb' & Hd & Hid & Hu & Hb & Hc).
      exists d, drawn_k, tb'. split; [exact Hd|]. split.
      * rewrite Hid. f_equal. lia.
      * split; [exact Hu|]. split; [exact Hb|]. exact Hc.
Qed.

(** X22: the language set for a page stays for the pages after it.  The
    page number [k] of a crawl is chunked with the chunk size of the request
    and with the language of the last page, up to [k], whose language is
    one of [langs]; the language of the request serves only as long as no
    page had such a language.  The options that the request holds at the
    end are those of the last page. *)
Theorem crawl_language_carries_over (data : list CrawlPage)
    (opts : ChunkOptions) (docs : list CrawlDocument) (final : ChunkOptions) :
  crawl_loop uuid4 cuid data opts 0 0 = Ok (docs, final) ->
  length docs = length data
  /\ final
     = {| chunk_size := chunk_size opts;
          language_code :=
            match last (supported_languages (map page_language data)) with
            | Some l => Some l
            | None => language_code opts
            end |}
  /\ forall (k : nat) (page : CrawlPage),
       data !! k = Some page ->
       exists (d : CrawlDocument) (drawn_k : nat) (tb : Z),
         docs !! k = Some d
         /\ cd_id d = cuid k
         /\ chunk_documents (fun n => uuid4 (drawn_k + n)%nat)
              [text_only (page_markdown page)] None
              {| chunk_size := chunk_size opts;
                 language_code :=
                   match last (supported_languages
                                 (map page_language (take (S k) data))) with
                   | Some l => Some l
                   | None => language_code opts
                   end |}
            = Ok (cd_chunks d, cd_total_characters d, cd_total_chunks d, tb).
Proof.
  intros H. apply crawl_loop_pages in H as (Hfinal & Hlen & Hpages).
  split; [exact Hlen|]. split; [by rewrite Hfinal, set_language_fold|].
  intros k page Hk.
  destruct (Hpages k page Hk) as (d & drawn_k & tb & Hd & Hid & _ & _ & Hc).
  exists d, drawn_k, tb. split; [exact Hd|]. split; [exact Hid|].
  by rewrite set_language_fold in Hc.
Qed.

Lemma crawl_loop_records (data : list CrawlPage) (opts : ChunkOptions)
    (made drawn : nat) (docs : list CrawlDocument) (final : ChunkOptions) :
  crawl_loop uuid4 cuid data opts made drawn = Ok (docs, final) ->
  exists recs : list (list chunk_dict),
    Forall2
      (fun d rs =>
         cd_chunks d = map BChunk rs
         /\ cd_total_chunks d = Z.of_nat (length rs)
         /\ map seq_of rs = seqZ 0 (cd_total_chunks d)
         /\ Forall (fun r => page_number_of r = None) rs)
      docs recs
    /\ map id (concat recs) = map uuid4 (seq drawn (length (concat recs))).
Proof.
  revert opts made drawn docs final.
  induction data as [|p data IH]; intros opts made drawn docs final H;
    simpl in H.
  - injection H as <- <-. exists []. split; [constructor|reflexivity].
  - apply bind_Ok in H as ([[[chunks tc] t] tb] & Hchunk & H).
    apply bind_Ok in H as ([docs' final'] & Hrest & H).
    injection H as <- <-.
    apply chunk_documents_flat_list in Hchunk
      as (ds & -> & -> & -> & Hseq & Hid & Hpage).
    rewrite Nat2Z.id in Hrest.
    apply IH in Hrest as (recs & Hall & Hids).
    exists (ds :: recs). split.
    + constructor; [|exact Hall]. simpl. split; [reflexivity|].
      split; [reflexivity|]. split; [exact Hseq|].
      apply Hpage. by repeat constructor.
    + simpl. rewrite map_app, length_app, seq_app, map_app, Hid, Hids.
      f_equal. replace (seq drawn (length ds)) with (seq (drawn + 0) (length ds))
        by (by rewrite Nat.add_0_r).
      rewrite <- (fmap_add_seq drawn 0).
      change (map (fun n => uuid4 (drawn + n)%nat) (seq 0 (length ds))
              = map uuid4 (map (Nat.add drawn) (seq 0 (length ds)))).
      by rewrite map_map.
Qed.

(** X23: every page of a crawl is numbered on its own: the chunks of a
    document are a flat list of records numbered from 0 to its
    [total_chunks] less one, none with a page number; and over the whole
    crawl the records take the identifiers drawn from [uuid4] one after the
    other, none being used for two records. *)
Theorem crawl_pages_are_numbered_from_zero (data : list CrawlPage)
    (opts : ChunkOptions) (docs : list CrawlDocument) (final : ChunkOptions) :
  crawl_loop uuid4 cuid data opts 0 0 = Ok (docs, final) ->
  exists recs : list (list chunk_dict),
    Forall2
      (fun d rs =>
         cd_chunks d = map BChunk rs
         /\ cd_total_chunks d = Z.of_nat (length rs)
         /\ map seq_of rs = seqZ 0 (cd_total_chunks d)
         /\ Forall (fun r => page_number_of r = None) rs)
      docs recs
    /\ map id (concat recs) = map uuid4 (seq 0 (length (concat recs))).
Proof. apply crawl_loop_records. Qed.

End CrawlProperties.

(** ** [ingest.ingest_operation]: the Redis keys and the upload *)

Lemma append_empty_r (s : string) : String.append s "" = s.
Proof. induction s as [|c s IH]; simpl; [reflexivity|by rewrite IH]. Qed.

Lemma append_inj_r (p a b : string) :
  String.append p a = String.append p b -> a = b.
Proof.
  induction p as [|c p IH]; simpl; intros H; [exact H|].
  injection H as H. by apply IH.
Qed.

Lemma append_assoc (a b c : string) :
  String.append (String.append a b) c = String.append a (String.append b c).
Proof. induction a as [|x a IH]; simpl; [reflexivity|by rewrite IH]. Qed.

Lemma contains_char_append (c : ascii) (a b : string) :
  contains_char c (String.append a b)
  = contains_char c a || contains_char c b.
Proof.
  unfold contains_char. induction a as [|x a IH]; [reflexivity|].
  cbn [String.append list_ascii_of_string existsb]. rewrite IH.
  by rewrite orb_assoc.
Qed.

Lemma str_inj (n m : Z) : str n = str m -> n = m.
Proof.
  unfold str. intros H. apply DecimalZ.to_int_inj.
  assert (Hnil : forall z, Z.to_int z <> Decimal.Pos Decimal.Nil
                           /\ Z.to_int z <> Decimal.Neg Decimal.Nil).
  { intros [|p|p]; simpl; split; try discriminate;
      intros E; injection E as E; by apply Unsigned.to_uint_nonnil in E. }
  destruct (Hnil n) as [Hn1 Hn2]. destruct (Hnil m) as [Hm1 Hm2].
  pose proof (NilZero.isi _ Hn1 Hn2) as En.
  pose proof (NilZero.isi _ Hm1 Hm2) as Em.
  rewrite H in En. rewrite En in Em. by injection Em.
Qed.

Lemma replace_passes (new pre rest : string) :
  contains_char "[" pre = false ->
  replace_from "[BATCH_INDEX]" new 0 (String.append pre rest)
  = String.append pre (replace_from "[BATCH_INDEX]" new 0 rest).
Proof.
  unfold contains_char. induction pre as [|c pre IH]; intros H;
    [reflexivity|].
  cbn [list_ascii_of_string existsb] in H.
  apply orb_false_elim in H as [Hc Hpre].
  cbn [String.append replace_from String.prefix].
  destruct (ascii_dec "[" c) as [<-|_]; [discriminate|].
  by rewrite IH.
Qed.

Lemma redis_key_of_template (results_id : string) (batch_idx : Z) :
  contains_char "[" results_id = false ->
  redis_key (batch_template results_id) batch_idx
  = String.append "results_"
      (String.append results_id (String.append "_" (str batch_idx))).
Proof.
  intros H. unfold redis_key, batch_template, replace.
  rewrite (replace_passes _ "results_") by reflexivity.
  change "_[BATCH_INDEX]" with (String.append "_" "[BATCH_INDEX]").
  rewrite (replace_passes _ results_id) by exact H.
  rewrite (replace_passes _ "_") by reflexivity.
  do 3 f_equal. simpl. apply append_empty_r.
Qed.

Lemma redis_key_inj (results_id : string) (i j : Z) :
  contains_char "[" results_id = false ->
  redis_key (batch_template results_id) i
  = redis_key (batch_template results_id) j ->
  i = j.
Proof.
  intros H E. rewrite !redis_key_of_template in E by exact H.
  by do 3 apply append_inj_r in E; apply str_inj.
Qed.

Lemma store_batches_other (template : string) (i : Z)
    (batches : list batch_entry) (redis : list (string * batch_entry))
    (key : string) :
  (forall k, (k < length batches)%nat ->
             key <> redis_key template (i + Z.of_nat k)) ->
  dict_find key (store_batches template i batches redis)
  = dict_find key redis.
Proof.
  revert i redis. induction batches as [|b bs IH]; intros i redis H;
    cbn [store_batches]; [reflexivity|].
  rewrite IH.
  - apply dict_find_set_ne. intros E. apply (H 0%nat); [simpl; lia|].
    by rewrite Z.add_0_r.
  - intros k Hk. replace (i + 1 + Z.of_nat k) with (i + Z.of_nat (S k))
      by lia.
    apply H. simpl. lia.
Qed.

Lemma store_batches_find (template : string) (i : Z)
    (batches : list batch_entry) (redis : list (string * batch_entry))
    (k : nat) (batch : batch_entry) :
  (forall n m : nat,
     redis_key template (i + Z.of_nat n) = redis_key template (i + Z.of_nat m)
     -> n = m) ->
  batches !! k = Some batch ->
  dict_find (redis_key template (i + Z.of_nat k))
    (store_batches template i batches redis) = Some batch.
Proof.
  revert i redis k. induction batches as [|b bs IH]; intros i redis k Hinj Hk;
    [by rewrite lookup_nil in Hk|].
  cbn [store_batches]. destruct k as [|k]; simpl in Hk.
  - injection Hk as ->. rewrite store_batches_other.
    + rewrite Z.add_0_r. apply dict_find_set_eq.
    + intros n _ E.
      replace (i + 1 + Z.of_nat n) with (i + Z.of_nat (S n)) in E by lia.
      by apply Hinj in E.
  - replace (i + Z.of_nat (S k)) with (i + 1 + Z.of_nat k) by lia.
    apply IH; [|exact Hk].
    intros n m E.
    replace (i + 1 + Z.of_nat n) with (i + Z.of_nat (S n)) in E by lia.
    replace (i + 1 + Z.of_nat m) with (i + Z.of_nat (S m)) in E by lia.
    apply Hinj in E. lia.
Qed.

Section IngestProperties.
Context {lib : Chonkie}.
Variable uuid4 : nat -> string.

Lemma pack_groups (b : Z) (gs : list (list chunk_dict)) (tb : Z)
    (d : chunk_dict) (bs' : list batch_entry) (tb' : Z) :
  tb = Z.of_nat (length gs) ->
  pack (Some b) (map BGroup gs) tb d = Ok (bs', tb') ->
  exists gs', bs' = map BGroup gs' /\ tb' = Z.of_nat (length gs').
Proof.
  intros Htb. induction gs as [|g gs _] using rev_ind; intros H.
  - simpl in H. injection H as <- <-. exists [[d]]. split; [reflexivity|].
    by rewrite Htb.
  - unfold pack in H. rewrite map_app in H. cbn [map] in H.
    rewrite last_snoc in H.
    destruct (b =? 0); [discriminate|].
    destruct (len_entry (BGroup g) mod b =? 0).
    + injection H as <- <-. exists ((gs ++ [g]) ++ [[d]]).
      split; [by rewrite !map_app|]. rewrite Htb, !length_app. cbn [length]. lia.
    + rewrite removelast_last in H. injection H as <- <-.
      exists (gs ++ [g ++ [d]]). split; [by rewrite map_app|].
      rewrite Htb, !length_app. cbn [length]. lia.
Qed.

Lemma chunk_documents_groups (b : Z) (docs : list document)
    (opts : ChunkOptions) (bs : list batch_entry) (tc t tb : Z) :
  chunk_documents uuid4 docs (Some b) opts = Ok (bs, tc, t, tb) ->
  exists gs, bs = map BGroup gs /\ tb = Z.of_nat (length gs).
Proof.
  intros H. apply chunk_documents_Ok in H as (st & Hloop & -> & _ & _ & ->).
  eapply (doc_loop_invariant uuid4
            (fun st => exists gs, batches st = map BGroup gs
                                  /\ total_batches st = Z.of_nat (length gs)));
    [| |exact Hloop].
  - intros page st0 c st1 (gs & Hbs & Htb) Hadd.
    apply add_chunk_Ok in Hadd as (bs' & tb' & Hpack & ->).
    rewrite Hbs in Hpack. by apply pack_groups in Hpack.
  - by exists [].
Qed.

(** X24: the batches of an ingestion are stored one per key: for a
    [results_id] without an opening bracket, the key of the batch number
    [k] is [results_<results_id>_<k>], the keys 0 to [total_batches - 1]
    hold the groups that [chunk_documents] returned, each under its own
    key, and no other key of the store is changed. *)
Theorem every_batch_is_stored_under_its_own_key (b : Z)
    (docs : list document) (opts : ChunkOptions) (bs : list batch_entry)
    (tc t tb : Z) (results_id : string)
    (redis : list (string * batch_entry)) :
  contains_char "[" results_id = false ->
  chunk_documents uuid4 docs (Some b) opts = Ok (bs, tc, t, tb) ->
  let key k :=
    String.append "results_"
      (String.append results_id (String.append "_" (str k))) in
  let stored := store_batches (batch_template results_id) 0 bs redis in
  tb = Z.of_nat (length bs)
  /\ (forall k, 0 <= k < tb ->
        exists g, bs !! Z.to_nat k = Some (BGroup g)
                  /\ dict_find (key k) stored = Some (BGroup g))
  /\ (forall i j, key i = key j -> i = j)
  /\ (forall other,
        (forall k, 0 <= k < tb -> other <> key k) ->
        dict_find other stored = dict_find other redis).
Proof.
  intros Hid H key stored.
  apply chunk_documents_groups in H as (gs & -> & ->).
  rewrite length_map. split; [reflexivity|].
  assert (Hkey : forall k, key k = redis_key (batch_template results_id) k)
    by (intros k; symmetry; by apply redis_key_of_template).
  split; [|split].
  - intros k Hk.
    destruct (lookup_lt_is_Some_2 gs (Z.to_nat k)) as [g Hg]; [lia|].
    exists g. rewrite list_lookup_fmap, Hg. split; [reflexivity|].
    rewrite Hkey. replace k with (0 + Z.of_nat (Z.to_nat k)) at 1 by lia.
    apply store_batches_find.
    + intros n m E. apply redis_key_inj in E; [lia|exact Hid].
    + by rewrite list_lookup_fmap, Hg.
  - intros i j E. rewrite !Hkey in E. by apply redis_key_inj in E.
  - intros other Hother. apply store_batches_other.
    rewrite length_map. intros k Hk. rewrite <- Hkey. apply Hother. lia.
Qed.

(** X25: the chunks that an ingestion uploads are the records of
    [chunk_documents] out of their groups: a list of [total_chunks] records
    whose sequence numbers are 0, 1, ... in the order of the list and whose
    identifiers are those of [uuid4] in the order drawn. *)
Theorem uploaded_chunks_are_the_records_in_order (b : Z)
    (docs : list document) (opts : ChunkOptions) (bs : list batch_entry)
    (tc t tb : Z) :
  chunk_documents uuid4 docs (Some b) opts = Ok (bs, tc, t, tb) ->
  exists ds : list chunk_dict,
    flatten_batches bs = map inl ds
    /\ t = Z.of_nat (length ds)
    /\ map seq_of ds = seqZ 0 t
    /\ map id ds = map uuid4 (seq 0 (length ds)).
Proof.
  intros H.
  destruct (chunk_documents_counted _ _ _ _ _ _ _ _ H)
    as (Ht & Hseq & Hid & _).
  apply chunk_documents_groups in H as (gs & -> & _).
  rewrite flat_groups in Ht, Hseq, Hid.
  exists (concat gs). split; [|done].
  unfold flatten_batches. clear. induction gs as [|g gs IH]; [reflexivity|].
  simpl. by rewrite IH, map_app.
Qed.

End IngestProperties.

(** ** Examples of the properties *)

Lemma record_texts_are_stripped_witness :
  chunk_documents (lib := Sample.lib) Sample.ident
    [Sample.page "Uno. Dos" 1] None (Sample.options (Some "es"))
  = Ok (Cases.spanish_page, 6, 2, 0)
  /\ Forall (fun d => trimmed (text d) /\ strip (text d) = text d)
       (flat Cases.spanish_page).
Proof.
  assert (H : chunk_documents (lib := Sample.lib) Sample.ident
                [Sample.page "Uno. Dos" 1] None (Sample.options (Some "es"))
              = Ok (Cases.spanish_page, 6, 2, 0))
    by (vm_compute; reflexivity).
  split; [exact H|].
  exact (record_texts_are_stripped (lib := Sample.lib) _ _ _ _ _ _ _ _ H).
Defined.

Lemma total_characters_is_the_sum_of_the_texts_witness :
  chunk_documents (lib := Sample.lib) Sample.ident
    [Sample.page Sample.page1 1] (Some 3) (Sample.options None)
  = Ok (Sample.page1_in_threes, 43, 7, 3)
  /\ 43 = foldr (fun d n => len (text d) + n) 0 (flat Sample.page1_in_threes)
  /\ 0 <= 43.
Proof.
  assert (H : chunk_documents (lib := Sample.lib) Sample.ident
                [Sample.page Sample.page1 1] (Some 3) (Sample.options None)
              = Ok (Sample.page1_in_threes, 43, 7, 3))
    by (vm_compute; reflexivity).
  split; [exact H|].
  exact (total_characters_is_the_sum_of_the_texts (lib := Sample.lib)
           _ _ _ _ _ _ _ _ H).
Defined.

Lemma record_ids_are_distinct_witness :
  (forall i j : nat,
     (i < Z.to_nat 2)%nat -> (j < Z.to_nat 2)%nat ->
     Sample.ident i = Sample.ident j -> i = j)
  /\ chunk_documents (lib := Sample.lib) Sample.ident
       [Sample.page "Uno. Dos" 1] None (Sample.options (Some "es"))
     = Ok (Cases.spanish_page, 6, 2, 0)
  /\ NoDup (map id (flat Cases.spanish_page)).
Proof.
  assert (Hinj : forall i j : nat,
            (i < Z.to_nat 2)%nat -> (j < Z.to_nat 2)%nat ->
            Sample.ident i = Sample.ident j -> i = j).
  { change (Z.to_nat 2) with 2%nat. intros i j Hi Hj E.
    destruct i as [|[|i]], j as [|[|j]];
      first [reflexivity | lia | (vm_compute in E; discriminate)]. }
  assert (H : chunk_documents (lib := Sample.lib) Sample.ident
                [Sample.page "Uno. Dos" 1] None (Sample.options (Some "es"))
              = Ok (Cases.spanish_page, 6, 2, 0))
    by (vm_compute; reflexivity).
  split; [exact Hinj|]. split; [exact H|].
  exact (record_ids_are_distinct (lib := Sample.lib) _ _ _ _ _ _ _ _ Hinj H).
Defined.

Lemma negative_batch_size_groups_like_its_opposite_witness :
  -3 < 0
  /\ chunk_documents (lib := Sample.lib) Sample.ident
       [Sample.page Sample.page1 1] (Some (-3)) (Sample.options None)
     = Ok (Sample.page1_in_threes, 43, 7, 3)
  /\ exists gs,
       Sample.page1_in_threes = map BGroup gs
       /\ well_grouped (- -3) gs
       /\ 3 = Z.of_nat (length gs).
Proof.
  assert (Hb : -3 < 0) by lia.
  assert (H : chunk_documents (lib := Sample.lib) Sample.ident
                [Sample.page Sample.page1 1] (Some (-3)) (Sample.options None)
              = Ok (Sample.page1_in_threes, 43, 7, 3))
    by (vm_compute; reflexivity).
  split; [exact Hb|]. split; [exact H|].
  exact (proj2 (negative_batch_size_groups_like_its_opposite
                  (lib := Sample.lib) Sample.ident (-3) _ _)
           Hb _ _ _ _ H).
Defined.

Lemma zero_batch_size_fails_at_the_second_chunk_witness :
  Forall2
    (fun doc out =>
       parse_markdown (lib := Sample.lib) (doc_text doc) (Sample.options None)
       = Ok out)
    Sample.two_pages
    [ [ {| pc_text := "AAAA"; pc_sequence_number := 0 |} ];
      [ {| pc_text := "BBBB"; pc_sequence_number := 0 |} ] ]
  /\ chunk_documents (lib := Sample.lib) Sample.ident Sample.two_pages
       (Some 0) (Sample.options None)
     = Raise ZeroDivisionError.
Proof.
  assert (H : Forall2
                (fun doc out =>
                   parse_markdown (lib := Sample.lib) (doc_text doc)
                     (Sample.options None) = Ok out)
                Sample.two_pages
                [ [ {| pc_text := "AAAA"; pc_sequence_number := 0 |} ];
                  [ {| pc_text := "BBBB"; pc_sequence_number := 0 |} ] ]).
  { constructor; [vm_compute; reflexivity|].
    constructor; [vm_compute; reflexivity|]. constructor. }
  split; [exact H|].
  apply (proj2 (zero_batch_size_fails_at_the_second_chunk
                  (lib := Sample.lib) Sample.ident _ _ _ H)).
  simpl. lia.
Defined.

Lemma chunk_documents_fails_only_in_parse_markdown_witness :
  @None Z <> Some 0
  /\ parse_markdown (lib := Sample.lib) "AAAA" Cases.no_size
     = Raise Cases.refused
  /\ chunk_documents (lib := Sample.lib) Sample.ident
       [Sample.page "AAAA" 1] None Cases.no_size
     = Raise Cases.refused.
Proof.
  assert (Hb : @None Z <> Some 0) by discriminate.
  assert (H : parse_markdown (lib := Sample.lib) "AAAA" Cases.no_size
              = Raise Cases.refused) by (vm_compute; reflexivity).
  split; [exact Hb|]. split; [exact H|].
  apply (proj2 (chunk_documents_fails_only_in_parse_markdown
                  (lib := Sample.lib) Sample.ident _ None Cases.no_size Hb)
           [] (Sample.page "AAAA" 1) [] [] Cases.refused);
    [reflexivity|constructor|exact H].
Defined.



Lemma records_of_paged_documents_carry_their_page_witness :
  chunk_documents (lib := Sample.lib) Sample.ident
    (content_by_page Cases.three_parts) None (Sample.options None)
  = Ok ([BChunk Cases.text_record], 4, 1, 0)
  /\ Forall
       (fun d =>
          exists (k : nat) (page : string),
            page_number_of d = Some (Z.of_nat k)
            /\ (1 <= k < length Cases.three_parts)%nat
            /\ Cases.three_parts !! k = Some page
            /\ strip page <> EmptyString)
       (flat [BChunk Cases.text_record]).
Proof.
  assert (H : chunk_documents (lib := Sample.lib) Sample.ident
                (content_by_page Cases.three_parts) None
                (Sample.options None)
              = Ok ([BChunk Cases.text_record], 4, 1, 0))
    by (vm_compute; reflexivity).
  split; [exact H|].
  exact (records_of_paged_documents_carry_their_page (lib := Sample.lib)
           _ _ _ _ _ _ _ _ H).
Defined.

Lemma polling_stops_at_the_first_settled_job_witness :
  (2 < _max_polls)%nat
  /\ _get_and_wait_for_job nat nat Cases.get_job Cases.in_progress
       Cases.not_failed Cases.job_failure Cases.job_result
     = (Ok 2%nat, 3%nat, 2%nat).
Proof.
  assert (Hk : (2 < _max_polls)%nat) by (unfold _max_polls; lia).
  split; [exact Hk|].
  apply (polling_stops_at_the_first_settled_job nat nat Cases.get_job
           Cases.in_progress Cases.not_failed Cases.job_failure
           Cases.job_result Cases.job_read 2 Hk).
  - intros m Hm. split; [reflexivity|].
    destruct m as [|[|m]]; [reflexivity|reflexivity|lia].
  - reflexivity.
  - reflexivity.
Defined.

Lemma polling_gives_up_without_an_error_witness :
  (forall m, (m < _max_polls)%nat ->
     Cases.get_job m = Ok (Cases.job_read m)
     /\ Cases.stuck (Cases.job_read m) = Ok true)
  /\ _get_and_wait_for_job nat nat Cases.get_job Cases.stuck
       Cases.not_failed Cases.job_failure Cases.job_result
     = (Ok 599%nat, 600%nat, 600%nat).
Proof.
  assert (H : forall m, (m < _max_polls)%nat ->
                Cases.get_job m = Ok (Cases.job_read m)
                /\ Cases.stuck (Cases.job_read m) = Ok true)
    by (intros m _; split; reflexivity).
  split; [exact H|].
  exact (polling_gives_up_without_an_error nat nat Cases.get_job Cases.stuck
           Cases.not_failed Cases.job_failure Cases.job_result Cases.job_read
           H).
Defined.

Lemma retry_returns_the_first_success_witness :
  0 <= 5 /\ Z.of_nat 2 < 3
  /\ _retry_operation Cases.third_time 3 5 = (Ok 7, 3%nat, 10).
Proof.
  assert (Hd : 0 <= 5) by lia.
  assert (Hk : Z.of_nat 2 < 3) by lia.
  split; [exact Hd|]. split; [exact Hk|].
  apply (retry_returns_the_first_success Cases.third_time 3 5 2 7 Hd Hk).
  - intros j Hj. exists (LibraryError "DownloadError" "busy").
    destruct j as [|[|j]]; [reflexivity|reflexivity|lia].
  - reflexivity.
Defined.

Lemma retry_gives_up_with_its_own_exception_witness :
  0 <= 5
  /\ _retry_operation Cases.never 3 5
     = (Raise (LibraryError "Exception" "Operation failed after 3 attempts."),
        3%nat, 10).
Proof.
  assert (Hd : 0 <= 5) by lia.
  split; [exact Hd|].
  apply (retry_gives_up_with_its_own_exception Cases.never 3 5 Hd).
  intros j _. by exists (LibraryError "DownloadError" "busy").
Defined.

Lemma each_video_is_processed_once_witness :
  videos_to_process Cases.extract ["list"; "watch"]
  = Ok [Cases.video "v1" "First, again"; Cases.video "v2" "Second"]
  /\ NoDup (map video_id
              [Cases.video "v1" "First, again"; Cases.video "v2" "Second"]).
Proof.
  assert (H : videos_to_process Cases.extract ["list"; "watch"]
              = Ok [Cases.video "v1" "First, again";
                    Cases.video "v2" "Second"])
    by (vm_compute; reflexivity).
  split; [exact H|].
  destruct (each_video_is_processed_once Cases.extract _ _ H)
    as (results & _ & Hnd & _).
  exact Hnd.
Defined.

Lemma crawl_language_carries_over_witness :
  crawl_loop (lib := Sample.lib) Sample.ident Cases.cuid Cases.crawl_pages
    (Sample.options None) 0 0
  = Ok (Cases.crawl_documents, Sample.options (Some "es"))
  /\ length Cases.crawl_documents = length Cases.crawl_pages
  /\ exists (d : CrawlDocument) (drawn_k : nat) (tb : Z),
       Cases.crawl_documents !! 2%nat = Some d
       /\ cd_id d = Cases.cuid 2
       /\ chunk_documents (lib := Sample.lib)
            (fun n => Sample.ident (drawn_k + n)%nat)
            [text_only "Ein. Zwei"] None (Sample.options (Some "es"))
          = Ok (cd_chunks d, cd_total_characters d, cd_total_chunks d, tb).
Proof.
  assert (H : crawl_loop (lib := Sample.lib) Sample.ident Cases.cuid
                Cases.crawl_pages (Sample.options None) 0 0
              = Ok (Cases.crawl_documents, Sample.options (Some "es")))
    by (vm_compute; reflexivity).
  split; [exact H|].
  destruct (crawl_language_carries_over (lib := Sample.lib) _ _ _ _ _ _ H)
    as (Hlen & _ & Hpages).
  split; [exact Hlen|].
  exact (Hpages 2%nat (Cases.crawl_page "Ein. Zwei" (Some "xx")) eq_refl).
Defined.

Lemma crawl_pages_are_numbered_from_zero_witness :
  crawl_loop (lib := Sample.lib) Sample.ident Cases.cuid Cases.crawl_pages
    (Sample.options None) 0 0
  = Ok (Cases.crawl_documents, Sample.options (Some "es"))
  /\ exists recs : list (list chunk_dict),
       Forall2
         (fun d rs =>
            cd_chunks d = map BChunk rs
            /\ cd_total_chunks d = Z.of_nat (length rs)
            /\ map seq_of rs = seqZ 0 (cd_total_chunks d)
            /\ Forall (fun r => page_number_of r = None) rs)
         Cases.crawl_documents recs
       /\ map id (concat recs)
          = map Sample.ident (seq 0 (length (concat recs))).
Proof.
  assert (H : crawl_loop (lib := Sample.lib) Sample.ident Cases.cuid
                Cases.crawl_pages (Sample.options None) 0 0
              = Ok (Cases.crawl_documents, Sample.options (Some "es")))
    by (vm_compute; reflexivity).
  split; [exact H|].
  exact (crawl_pages_are_numbered_from_zero (lib := Sample.lib)
           _ _ _ _ _ _ H).
Defined.

Lemma every_batch_is_stored_under_its_own_key_witness :
  contains_char "[" "r" = false
  /\ chunk_documents (lib := Sample.lib) Sample.ident
       [Sample.page Sample.page1 1] (Some 3) (Sample.options None)
     = Ok (Sample.page1_in_threes, 43, 7, 3)
  /\ 3 = Z.of_nat (length Sample.page1_in_threes)
  /\ forall k, 0 <= k < 3 ->
       exists g,
         Sample.page1_in_threes !! Z.to_nat k = Some (BGroup g)
         /\ dict_find
              (String.append "results_"
                 (String.append "r" (String.append "_" (str k))))
              (store_batches (batch_template "r") 0 Sample.page1_in_threes [])
            = Some (BGroup g).
Proof.
  assert (Hid : contains_char "[" "r" = false) by reflexivity.
  assert (H : chunk_documents (lib := Sample.lib) Sample.ident
                [Sample.page Sample.page1 1] (Some 3) (Sample.options None)
              = Ok (Sample.page1_in_threes, 43, 7, 3))
    by (vm_compute; reflexivity).
  split; [exact Hid|]. split; [exact H|].
  pose proof (every_batch_is_stored_under_its_own_key (lib := Sample.lib)
                Sample.ident _ _ _ _ _ _ _ "r" [] Hid H) as Hstore.
  cbv zeta in Hstore. destruct Hstore as (Hlen & Hfind & _).
  split; [exact Hlen|exact Hfind].
Defined.

Lemma uploaded_chunks_are_the_records_in_order_witness :
  chunk_documents (lib := Sample.lib) Sample.ident Sample.three_pages
    (Some 2) (Sample.options None)
  = Ok (Sample.three_pages_in_twos, 86, 14, 7)
  /\ exists ds : list chunk_dict,
       flatten_batches Sample.three_pages_in_twos = map inl ds
       /\ 14 = Z.of_nat (length ds)
       /\ map seq_of ds = seqZ 0 14
       /\ map id ds = map Sample.ident (seq 0 (length ds)).
Proof.
  assert (H : chunk_documents (lib := Sample.lib) Sample.ident
                Sample.three_pages (Some 2) (Sample.options None)
              = Ok (Sample.three_pages_in_twos, 86, 14, 7))
    by (vm_compute; reflexivity).
  split; [exact H|].
  exact (uploaded_chunks_are_the_records_in_order (lib := Sample.lib)
           _ _ _ _ _ _ _ _ H).
Defined.
